(** * ClipTrace content script: capture, text normalisation and relocation

    A shallow embedding of [src/content/content-script.js]: the JavaScript
    strings are sequences of UTF-16 code units, indices and lengths are
    integers, the DOM is a tree of text and element nodes addressed by
    child-index paths, and the effects of the relocation code (DOM
    mutation, scrolling, timers, exceptions) are threaded through an
    explicit page state. *)

From Stdlib Require Import List ZArith NArith Bool Lia Ascii String.
From Stdlib Require Import QArith Qminmax Sorted.
Import ListNotations.

Close Scope Q_scope.
Local Open Scope Z_scope.

(** ** JavaScript strings *)

Module JsString.

(** A string is the list of its UTF-16 code units. *)
Definition code_unit := N.
Definition jsstring := list code_unit.

(** Literals of the Basic Latin range, for readable examples. *)
Definition str (s : string) : jsstring :=
  map N_of_ascii (list_ascii_of_string s).

(** [s.length] *)
Definition len (s : jsstring) : Z := Z.of_nat (List.length s).

Definition clamp (i : Z) (s : jsstring) : Z := Z.max 0 (Z.min i (len s)).

(** [s.substring(a, b)]: both ends are clamped to [0 .. s.length] and
    swapped when they come in the wrong order. *)
Definition substring (s : jsstring) (a b : Z) : jsstring :=
  let a' := clamp a s in
  let b' := clamp b s in
  let lo := Z.min a' b' in
  let hi := Z.max a' b' in
  firstn (Z.to_nat (hi - lo)) (skipn (Z.to_nat lo) s).

(** [s.substring(a)] *)
Definition substring_from (s : jsstring) (a : Z) : jsstring :=
  substring s a (len s).

(** [s.slice(a, b)]: negative ends count from the end of the string, and
    an empty string results when the ends cross. *)
Definition slice_index (i : Z) (s : jsstring) : Z :=
  if i <? 0 then Z.max 0 (len s + i) else Z.min i (len s).

Definition slice (s : jsstring) (a b : Z) : jsstring :=
  let lo := slice_index a s in
  let hi := slice_index b s in
  firstn (Z.to_nat (hi - lo)) (skipn (Z.to_nat lo) s).

Definition slice_from (s : jsstring) (a : Z) : jsstring :=
  slice s a (len s).

(** [s[i]], a one-unit string, for [0 <= i < s.length]. *)
Definition char_at (s : jsstring) (i : Z) : jsstring :=
  if i <? 0 then [] else firstn 1 (skipn (Z.to_nat i) s).

(** [a === b] on strings. *)
Fixpoint eqb (a b : jsstring) : bool :=
  match a, b with
  | [], [] => true
  | x :: a', y :: b' => N.eqb x y && eqb a' b'
  | _, _ => false
  end.

(** [t] is a prefix of [s]. *)
Fixpoint prefixb (t s : jsstring) : bool :=
  match t, s with
  | [], _ => true
  | x :: t', y :: s' => N.eqb x y && prefixb t' s'
  | _ :: _, [] => false
  end.

(** [s.startsWith(t)] and [s.endsWith(t)] *)
Definition startsWith (s t : jsstring) : bool := prefixb t s.
Definition endsWith (s t : jsstring) : bool := prefixb (rev t) (rev s).

(** The scan of [indexOf]: the first position at or after [pos] where
    [t] starts, [s] being the rest of the string from [pos] on. *)
Fixpoint scan (t s : jsstring) (pos : Z) : Z :=
  if prefixb t s then pos
  else match s with
       | [] => -1
       | _ :: s' => scan t s' (pos + 1)
       end.

(** [s.indexOf(t, from)], [s.indexOf(t)] and [s.includes(t)] *)
Definition indexOf_from (s t : jsstring) (from : Z) : Z :=
  let k := clamp from s in
  scan t (skipn (Z.to_nat k) s) k.

Definition indexOf (s t : jsstring) : Z := indexOf_from s t 0.

Definition includes (s t : jsstring) : bool := 0 <=? indexOf s t.

(** White space as the regular expression class [\s] and [trim] see it:
    TAB, LF, VT, FF, CR, SP, NBSP, U+1680, U+2000..U+200A, U+2028,
    U+2029, U+202F, U+205F, U+3000 and U+FEFF. *)
Definition is_space (c : code_unit) : bool :=
  (((9 <=? c) && (c <=? 13)) || (c =? 32) || (c =? 160) || (c =? 5760)
   || ((8192 <=? c) && (c <=? 8202)) || (c =? 8232) || (c =? 8233)
   || (c =? 8239) || (c =? 8287) || (c =? 12288) || (c =? 65279))%N.

Fixpoint trimStart (s : jsstring) : jsstring :=
  match s with
  | [] => []
  | c :: s' => if is_space c then trimStart s' else s
  end.

Definition trimEnd (s : jsstring) : jsstring := rev (trimStart (rev s)).

(** [s.trim()] *)
Definition trim (s : jsstring) : jsstring := trimEnd (trimStart s).

(** [s.toLowerCase()], on the one-to-one mappings of the Basic Latin and
    Latin-1 Supplement blocks; the other code units are kept. *)
Definition lower_unit (c : code_unit) : code_unit :=
  (if (65 <=? c) && (c <=? 90) then c + 32
   else if (192 <=? c) && (c <=? 222) && negb (c =? 215) then c + 32
   else c)%N.

Definition toLowerCase (s : jsstring) : jsstring := map lower_unit s.

(** [s.split(sep)] for a one-unit separator. *)
Fixpoint split_on (sep : code_unit) (s : jsstring) : list jsstring :=
  match s with
  | [] => [[]]
  | c :: s' =>
      if N.eqb c sep then [] :: split_on sep s'
      else match split_on sep s' with
           | [] => [[c]]
           | w :: ws => (c :: w) :: ws
           end
  end.

End JsString.

Import JsString.

(** ** Text normaliser *)

Module Normalizer.

(** [.replace(/[\s\u3000]+/g, ' ')]: every maximal run of white space
    becomes one SPACE.  [in_run] tells that the unit before belonged to
    a run that has already been replaced. *)
Fixpoint collapse_spaces (in_run : bool) (s : jsstring) : jsstring :=
  match s with
  | [] => []
  | c :: s' =>
      if is_space c || N.eqb c 12288
      then if in_run then collapse_spaces true s'
           else 32%N :: collapse_spaces true s'
      else c :: collapse_spaces false s'
  end.

(** The class [[\u200B-\u200D\uFEFF]]: the zero-width space,
    non-joiner and joiner, and the byte-order mark. *)
Definition is_zero_width (c : code_unit) : bool :=
  (((8203 <=? c) && (c <=? 8205)) || (c =? 65279))%N.

(** [.replace(/[\u200B-\u200D\uFEFF]/g, '')] *)
Definition strip_zero_width (s : jsstring) : jsstring :=
  filter (fun c => negb (is_zero_width c)) s.

(** [normalizeText(text)] *)
Definition normalizeText (text : jsstring) : jsstring :=
  match text with
  | [] => []
  | _ => trim (strip_zero_width (collapse_spaces false (toLowerCase text)))
  end.

(** The zero-width space, non-joiner and joiner: the zero-width units
    that are not white space. *)
Definition is_joiner (c : code_unit) : bool := ((8203 <=? c) && (c <=? 8205))%N.

(** A string whose white space is single SPACE units; [after_space]
    tells that the unit before the string is a SPACE. *)
Fixpoint tidy (after_space : bool) (s : jsstring) : Prop :=
  match s with
  | [] => True
  | c :: s' =>
      if is_space c then c = 32%N /\ after_space = false /\ tidy true s'
      else tidy false s'
  end.

(** The units of a normal form: lower case and not zero-width. *)
Definition settled (c : code_unit) : Prop :=
  lower_unit c = c /\ is_zero_width c = false.

(** A string that does not start with white space. *)
Definition starts_unspaced (s : jsstring) : Prop :=
  match s with
  | [] => True
  | c :: _ => is_space c = false
  end.

(** The units [findActualIndex] counts: those whose own normal form is
    not empty. *)
Definition counted (c : code_unit) : bool := 0 <? len (normalizeText [c]).

(** The loop of [findActualIndex]: [i] is the index reached, [rest] the
    units of [original] from [i] on, [count] the number of units seen
    whose own normal form is not empty. *)
Fixpoint findActualIndex_loop (rest : jsstring) (i count normalizedIndex : Z) : Z :=
  match rest with
  | [] => i
  | c :: rest' =>
      if count <? normalizedIndex then
        let normalized := normalizeText [c] in
        let count' := if 0 <? len normalized then count + 1 else count in
        findActualIndex_loop rest' (i + 1) count' normalizedIndex
      else i
  end.

(** [findActualIndex(original, normalizedSearch, normalizedIndex)] *)
Definition findActualIndex (original normalizedSearch : jsstring)
           (normalizedIndex : Z) : Z :=
  let i := findActualIndex_loop original 0 0 normalizedIndex in
  if i <? len original then i else -1.

End Normalizer.

Import Normalizer.

(** ** Capture boundary *)

Module Capture.

Definition truncation_mark : jsstring := str "... (truncated)".

(** The length limit of the copy listener: a text of more than 10000
    units is cut to its first 10000 units and the truncation mark is
    appended. *)
Definition limit_text (copiedText : jsstring) : jsstring :=
  if 10000 <? len copiedText
  then substring copiedText 0 10000 ++ truncation_mark
  else copiedText.

(** The copy listener up to the record it sends: the extension context,
    the incognito setting, the blacklist and the sensitive-content check
    can each suppress the event. *)
Definition copy_listener (contextValid incognitoMode blacklisted : bool)
           (shouldSkipRecording : jsstring -> bool)
           (selection : jsstring) : option jsstring :=
  if negb contextValid then None else
  let copiedText := trim selection in
  match copiedText with
  | [] => None
  | _ =>
      if incognitoMode then None
      else if blacklisted then None
      else
        let text := limit_text copiedText in
        if shouldSkipRecording text then None else Some text
  end.

End Capture.

Import Capture.


(** ** Document tree *)

Module Dom.

(** The nodes the content script meets: text nodes and elements with
    their tag name, [id] and [class] attributes (empty when absent). *)
#[warnings="-register-all"] Inductive node : Type :=
| Text (data : jsstring)
| Element (tagName id className : jsstring) (children : list node).

(** A node is referred to by the child indices that lead to it from the
    root element of the document. *)
Definition path := list nat.

Definition is_prefix (p q : path) : bool :=
  (List.length p <=? List.length q)%nat
  && if list_eq_dec Nat.eq_dec p (firstn (List.length p) q) then true else false.

(** [node.textContent] *)
Fixpoint textContent (n : node) : jsstring :=
  match n with
  | Text d => d
  | Element _ _ _ cs => flat_map textContent cs
  end.

Definition childNodes (n : node) : list node :=
  match n with
  | Text _ => []
  | Element _ _ _ cs => cs
  end.

Fixpoint get_node (n : node) (p : path) : option node :=
  match p with
  | [] => Some n
  | i :: p' =>
      match nth_error (childNodes n) i with
      | Some c => get_node c p'
      | None => None
      end
  end.

(** [splice n p f] replaces the node at [p] by the nodes [f] makes of it,
    in the child list of its parent; [None] when there is no such node,
    or when [f] fails. *)
Fixpoint splice (n : node) (p : path) (f : node -> option (list node))
  : option node :=
  match n, p with
  | Element t i c cs, [k] =>
      match nth_error cs k with
      | Some x =>
          match f x with
          | Some ys => Some (Element t i c (firstn k cs ++ ys ++ skipn (S k) cs))
          | None => None
          end
      | None => None
      end
  | Element t i c cs, k :: p' =>
      match nth_error cs k with
      | Some x =>
          match splice x p' f with
          | Some x' => Some (Element t i c (firstn k cs ++ x' :: skipn (S k) cs))
          | None => None
          end
      | None => None
      end
  | _, _ => None
  end.

(** What a [TreeWalker] with [SHOW_TEXT] hands out: a text node with the
    data and the parent element the strategies read from it. *)
Record text_node : Type := mk_text_node {
  tn_path : path;
  tn_data : jsstring;
  tn_parentTag : jsstring;
  tn_parentClass : jsstring
}.

Definition under (k : nat) (t : text_node) : text_node :=
  mk_text_node (k :: tn_path t) (tn_data t) (tn_parentTag t) (tn_parentClass t).

Definition rooted (p : path) (t : text_node) : text_node :=
  mk_text_node (p ++ tn_path t) (tn_data t) (tn_parentTag t) (tn_parentClass t).

(** The text nodes of [n] in document order (depth first, pre-order),
    with paths relative to [n]. *)
Fixpoint text_nodes (ptag pcls : jsstring) (n : node) : list text_node :=
  match n with
  | Text d => [mk_text_node [] d ptag pcls]
  | Element tag _ cls cs =>
      (fix children (cs : list node) (k : nat) : list text_node :=
         match cs with
         | [] => []
         | c :: cs' => map (under k) (text_nodes tag cls c) ++ children cs' (S k)
         end) cs 0%nat
  end.

(** The text nodes below the children [cs] of an element, the first of
    which is child number [k]. *)
Fixpoint children_text_nodes (tag cls : jsstring) (cs : list node) (k : nat)
  : list text_node :=
  match cs with
  | [] => []
  | c :: cs' => map (under k) (text_nodes tag cls c) ++ children_text_nodes tag cls cs' (S k)
  end.

(** [document.createTreeWalker(root, NodeFilter.SHOW_TEXT)] run to its
    end: the text nodes below [root]; the root itself is never handed
    out. *)
Definition treeWalker (doc : node) (root : path) : list text_node :=
  match get_node doc root with
  | Some (Element t i c cs) => map (rooted root) (text_nodes [] [] (Element t i c cs))
  | _ => []
  end.

(** [document.body]: the first [body] child of the root element. *)
Fixpoint find_body (cs : list node) (k : nat) : option path :=
  match cs with
  | [] => None
  | Element t _ _ _ :: cs' =>
      if JsString.eqb (toLowerCase t) (str "body") then Some [k]
      else find_body cs' (S k)
  | Text _ :: cs' => find_body cs' (S k)
  end.

Definition body (doc : node) : option path := find_body (childNodes doc) 0%nat.

(** [createHighlightMark()], with the content it is given. *)
Definition highlightMark (content : list node) : node :=
  Element (str "MARK") [] (str "smart-clipboard-highlight") content.

(** [range.setStart(t, s); range.setEnd(t, e); range.surroundContents(mark)]
    on one text node: an offset outside the data raises IndexSizeError;
    an end before the start collapses the range at the end.  The text
    node is split at the range, the extracted part moves into the mark,
    and the mark is inserted between the two remaining parts. *)
Definition surround_text (s e : Z) (n : node) : option (list node) :=
  match n with
  | Text d =>
      if (s <? 0) || (len d <? s) || (e <? 0) || (len d <? e) then None
      else
        let s' := Z.min s e in
        let content := if s' <? e then [Text (substring d s' e)] else [] in
        Some [Text (substring d 0 s'); highlightMark content; Text (substring_from d e)]
  | Element _ _ _ _ => None
  end.

(** The mark lands right after the part of the text node left before it. *)
Definition mark_path (p : path) : path :=
  match rev p with
  | [] => []
  | k :: q => rev q ++ [S k]
  end.

Definition parent_path (p : path) : path := removelast p.

(** [parent.replaceChild(document.createTextNode(mark.textContent), mark)] *)
Definition replace_by_text (n : node) : option (list node) :=
  Some [Text (textContent n)].

(** The children of a normalised element: empty text nodes are dropped
    and adjacent text nodes joined. *)
Fixpoint merge_text (cs : list node) : list node :=
  match cs with
  | [] => []
  | Text d :: cs' =>
      match merge_text cs' with
      | Text d' :: r => Text (d ++ d') :: r
      | r => match d with [] => r | _ => Text d :: r end
      end
  | e :: cs' => e :: merge_text cs'
  end.

(** The child list of a normalised element has no empty text node and no
    two text nodes side by side. *)
Fixpoint merged (cs : list node) : Prop :=
  match cs with
  | [] => True
  | Text d :: r =>
      d <> [] /\ match r with Text _ :: _ => False | _ => True end /\ merged r
  | Element _ _ _ _ :: r => merged r
  end.

(** [node.normalize()], on the node and all its descendants. *)
Fixpoint normalize (n : node) : node :=
  match n with
  | Text d => Text d
  | Element t i c cs => Element t i c (merge_text (map normalize cs))
  end.

(** [update_node n p f] applies [f] to the node at [p]. *)
Fixpoint update_node (n : node) (p : path) (f : node -> node) : option node :=
  match p with
  | [] => Some (f n)
  | k :: p' =>
      match n with
      | Element t i c cs =>
          match nth_error cs k with
          | Some x =>
              match update_node x p' f with
              | Some x' => Some (Element t i c (firstn k cs ++ x' :: skipn (S k) cs))
              | None => None
              end
          | None => None
          end
      | Text _ => None
      end
  end.

(** Structural addresses as [getXPath] writes them: [//*[@id="..."]] for
    an element with an id, else [/html/body] followed by one
    [/tag[index]] step per level below the body. *)
Inductive xpath : Type :=
| ById (id : jsstring)
| FromBody (steps : list (jsstring * nat)).

(** The first element in document order that carries the id. *)
Fixpoint find_id (id : jsstring) (n : node) : option path :=
  match n with
  | Text _ => None
  | Element _ i _ cs =>
      if JsString.eqb i id then Some []
      else
        (fix children (cs : list node) (k : nat) : option path :=
           match cs with
           | [] => None
           | c :: cs' =>
               match find_id id c with
               | Some p => Some (k :: p)
               | None => children cs' (S k)
               end
           end) cs 0%nat
  end.

(** The [index]-th child (from 1) with the tag, among [cs] whose first
    member is child number [k]. *)
Fixpoint nth_with_tag (tag : jsstring) (index : nat) (cs : list node) (k : nat)
  : option nat :=
  match cs with
  | [] => None
  | Element t _ _ _ :: cs' =>
      if JsString.eqb (toLowerCase t) tag then
        match index with
        | O => None
        | S O => Some k
        | S index' => nth_with_tag tag index' cs' (S k)
        end
      else nth_with_tag tag index cs' (S k)
  | Text _ :: cs' => nth_with_tag tag index cs' (S k)
  end.

Fixpoint descend (n : node) (steps : list (jsstring * nat)) : option path :=
  match steps with
  | [] => Some []
  | (tag, index) :: steps' =>
      match nth_with_tag tag index (childNodes n) 0%nat with
      | Some k =>
          match nth_error (childNodes n) k with
          | Some c =>
              match descend c steps' with
              | Some p => Some (k :: p)
              | None => None
              end
          | None => None
          end
      | None => None
      end
  end.

(** [getElementByXPath(xpath)]: the first node in document order that
    the address selects, [None] for [null]. *)
Definition getElementByXPath (doc : node) (x : xpath) : option path :=
  match x with
  | ById [] => None
  | ById id => find_id id doc
  | FromBody steps =>
      match doc with
      | Element t _ _ _ =>
          if JsString.eqb (toLowerCase t) (str "html") then
            match body doc with
            | Some b =>
                match get_node doc b with
                | Some bn =>
                    match descend bn steps with
                    | Some p => Some (b ++ p)
                    | None => None
                    end
                | None => None
                end
            | None => None
            end
          else None
      | Text _ => None
      end
  end.

End Dom.

Import Dom.

(** ** Page state and effects *)

Module Page.

(** What the relocation code can change: the document, the window's
    scroll position (counted as the number of [window.scrollTo] calls to
    the top), the marks brought into view, and the marks whose timed
    removal [scrollToAndRemove] has scheduled. *)
Record page : Type := mk_page {
  document : node;
  scrolledToTop : nat;
  scrolledIntoView : list path;
  timers : list path
}.

Definition with_document (p : page) (d : node) : page :=
  mk_page d (scrolledToTop p) (scrolledIntoView p) (timers p).

(** A JavaScript computation either completes normally with a value or
    throws; both leave a page behind. *)
Inductive completion (A : Type) : Type :=
| Normal (a : A) (p : page)
| Throw (p : page).
Arguments Normal {A} a p.
Arguments Throw {A} p.

Definition M (A : Type) : Type := page -> completion A.

Definition ret {A} (a : A) : M A := fun p => Normal a p.

Definition bind {A B} (m : M A) (k : A -> M B) : M B :=
  fun p => match m p with
           | Normal a p' => k a p'
           | Throw p' => Throw p'
           end.

Definition throw {A} : M A := fun p => Throw p.

(** [try { m } catch (e) { handler }] *)
Definition try_catch {A} (m handler : M A) : M A :=
  fun p => match m p with
           | Normal a p' => Normal a p'
           | Throw p' => handler p'
           end.

Definition get_document : M node := fun p => Normal (document p) p.

Definition page_of {A} (c : completion A) : page :=
  match c with
  | Normal _ p => p
  | Throw p => p
  end.

(** A step that reads the page without changing it, and may throw. *)
Definition reads_only {A} (m : M A) : Prop :=
  forall p, (exists a, m p = Normal a p) \/ m p = Throw p.

(** A method that changes the page only when it answers [true]. *)
Definition changes_on_success (m : M bool) : Prop :=
  forall p, (exists p', m p = Normal true p') \/ m p = Normal false p \/ m p = Throw p.

Declare Scope js_scope.
Delimit Scope js_scope with js.
Notation "x <- m ;; k" := (bind m (fun x => k))
  (at level 61, m at next level, right associativity) : js_scope.
Notation "m ;;; k" := (bind m (fun _ => k))
  (at level 61, right associativity) : js_scope.

(** A range inside one text node, after [setStart] and [setEnd]. *)
Record range : Type := mk_range {
  r_node : path;
  r_data : jsstring;
  r_start : Z;
  r_end : Z
}.

(** [range.setStart(node, s); range.setEnd(node, e)] *)
Definition setRange (t : text_node) (s e : Z) : M range :=
  let d := tn_data t in
  if (s <? 0) || (len d <? s) || (e <? 0) || (len d <? e) then throw
  else ret (mk_range (tn_path t) d (Z.min s e) e).

(** [range.selectNodeContents(node)] *)
Definition selectNodeContents (t : text_node) : M range :=
  ret (mk_range (tn_path t) (tn_data t) 0 (len (tn_data t))).

(** [range.toString()] *)
Definition range_toString (r : range) : jsstring :=
  substring (r_data r) (r_start r) (r_end r).

(** [const mark = createHighlightMark(); range.surroundContents(mark)];
    the result is the place of the mark. *)
Definition surroundContents (r : range) : M path :=
  fun p =>
    match splice (document p) (r_node r) (surround_text (r_start r) (r_end r)) with
    | Some d => Normal (mark_path (r_node r)) (with_document p d)
    | None => Throw p
    end.

(** [document.createTreeWalker(document.body, NodeFilter.SHOW_TEXT, null,
    false)], run to its end; a document without a body makes the call
    throw a TypeError. *)
Definition bodyWalker : M (list text_node) :=
  fun p =>
    match body (document p) with
    | Some b => Normal (treeWalker (document p) b) p
    | None => Throw p
    end.

(** [await waitForPageStable()]: the promise starts by reading
    [document.body.scrollHeight], so a document without a body makes the
    wait throw.  How long the wait takes, and what the page does in the
    meantime, is outside the model: the relocation runs on the page as it
    is when the wait ends. *)
Definition waitForPageStable : M unit :=
  fun p =>
    match body (document p) with
    | Some _ => Normal tt p
    | None => Throw p
    end.

(** [scrollToAndRemove(mark)]: the mark is scrolled into view and the
    two nested timers that end in its removal are set. *)
Definition scrollToAndRemove (mark : path) : M unit :=
  fun p => Normal tt (mk_page (document p) (scrolledToTop p)
                              (scrolledIntoView p ++ [mark])
                              (timers p ++ [mark])).

(** [mark.parentNode.removeChild(mark)] *)
Definition removeChild (mark : path) : M unit :=
  fun p =>
    match splice (document p) mark (fun _ => Some []) with
    | Some d => Normal tt (with_document p d)
    | None => Normal tt p
    end.

(** [window.scrollTo({ top: 0, behavior: 'smooth' })] *)
Definition scrollToTop : M unit :=
  fun p => Normal tt (mk_page (document p) (S (scrolledToTop p))
                              (scrolledIntoView p) (timers p)).

(** The inner timer callback of [scrollToAndRemove]: the mark is
    replaced by a text node with its text, and its parent normalised. *)
Definition remove_mark (mark : path) (doc : node) : node :=
  match mark with
  | [] => doc
  | _ =>
      match splice doc mark replace_by_text with
      | Some d =>
          match update_node d (parent_path mark) normalize with
          | Some d' => d'
          | None => d
          end
      | None => doc
      end
  end.

Definition timer_fires (mark : path) (p : page) : page :=
  mk_page (remove_mark mark (document p)) (scrolledToTop p)
          (scrolledIntoView p)
          (filter (fun m => if list_eq_dec Nat.eq_dec m mark then false else true)
                  (timers p)).

End Page.

Import Page.
Local Open Scope js_scope.

(** ** Selection anchor *)

(** The payload of a relocation request: the [selectionInfo] record that
    [getSelectionContext] built at capture time, with the recorded text
    added as [originalText].  A missing string field is the empty string,
    a missing [xpath] or [offset] is [None]. *)
Module Sel.

Record t : Type := mk {
  xpath : option Dom.xpath;
  offset : option Z;
  length : Z;
  surroundingText : jsstring;
  textBefore : jsstring;
  textAfter : jsstring;
  parentTagName : jsstring;
  parentClassName : jsstring;
  originalText : jsstring
}.

End Sel.

(** JavaScript truthiness of a string. *)
Definition truthy (s : jsstring) : bool :=
  match s with
  | [] => false
  | _ => true
  end.

(** ** Method 1: XPath positioning with strict text verification *)

Module XPathStrategy.

(** The loop of [findTextNode]. *)
Fixpoint findTextNode_loop (nodes : list text_node) (currentOffset offset : Z)
  : option text_node :=
  match nodes with
  | [] => None
  | node :: nodes' =>
      if offset <=? currentOffset + len (tn_data node) then Some node
      else findTextNode_loop nodes' (currentOffset + len (tn_data node)) offset
  end.

(** [findTextNode(element, offset)] *)
Definition findTextNode (doc : node) (element : path) (offset : Z)
  : option text_node :=
  match findTextNode_loop (treeWalker doc element) 0 offset with
  | Some node => Some node
  | None =>
      match get_node doc element with
      | Some (Element tag _ cls (Text d :: _)) =>
          Some (mk_text_node (element ++ [0%nat]) d tag cls)
      | _ => None
      end
  end.

(** The cross-check of the text found against [originalText]: [true]
    when the two normalised prefixes disagree. *)
Definition text_mismatch (foundText originalText : jsstring) : bool :=
  if 0 <? len originalText then
    let normalizedFound := normalizeText foundText in
    let normalizedOriginal := normalizeText originalText in
    let minMatchLength :=
      Z.min (Z.min (len normalizedFound) (len normalizedOriginal)) 30 in
    let foundPrefix := substring normalizedFound 0 minMatchLength in
    let originalPrefix := substring normalizedOriginal 0 minMatchLength in
    (5 <=? minMatchLength) && negb (JsString.eqb foundPrefix originalPrefix)
  else false.

(** The checks made once the mark is in place: it must have a parent
    and lie inside the body, and its text must not be blank. *)
Definition validate_mark (mark : path) : M bool :=
  doc <- get_document ;;
  match get_node doc mark with
  | None => ret false
  | Some m =>
      match body doc with
      | None => throw
      | Some b =>
          if negb (is_prefix b mark) then ret false
          else if negb (0 <? len (trim (textContent m))) then
            removeChild mark ;;; ret false
          else
            scrollToAndRemove mark ;;; ret true
      end
  end.

(** The body of the [try] block of [tryXPathHighlight]. *)
Definition tryXPathHighlight_body (selectionInfo : Sel.t) : M bool :=
  doc <- get_document ;;
  match match Sel.xpath selectionInfo with
        | Some x => getElementByXPath doc x
        | None => None
        end, Sel.offset selectionInfo with
  | Some element, Some offset =>
      match findTextNode doc element offset with
      | None => ret false
      | Some textNode =>
          let actualOffset := Z.min offset (len (tn_data textNode)) in
          let endOffset :=
            Z.min (actualOffset + Sel.length selectionInfo) (len (tn_data textNode)) in
          if (endOffset <=? actualOffset) || (len (tn_data textNode) <? endOffset)
          then ret false
          else
            range <- setRange textNode actualOffset endOffset ;;
            let foundText := range_toString range in
            if negb (0 <? len (trim foundText)) then ret false
            else if text_mismatch foundText (Sel.originalText selectionInfo)
            then ret false
            else
              mark <- surroundContents range ;;
              validate_mark mark
      end
  | _, _ => ret false
  end.

(** [tryXPathHighlight(selectionInfo)] *)
Definition tryXPathHighlight (selectionInfo : Sel.t) : M bool :=
  try_catch (tryXPathHighlight_body selectionInfo) (ret false).

End XPathStrategy.

Import XPathStrategy.

(** ** Multi-match scoring *)

Module Scorer.

(** [calculateContextScore(node, matchIndex, selectionInfo)] *)
Definition calculateContextScore (node : text_node) (matchIndex : Z)
           (selectionInfo : option Sel.t) : Z :=
  match selectionInfo with
  | None => 50
  | Some si =>
      let score := 0 in
      let nodeText := tn_data node in
      (* 1. Text before match check *)
      let score :=
        if truthy (Sel.textBefore si) then
          let beforeText := substring nodeText 0 matchIndex in
          let normalizedBefore := normalizeText beforeText in
          let normalizedExpected := normalizeText (Sel.textBefore si) in
          if endsWith normalizedBefore normalizedExpected then score + 35
          else if 10 <=? len normalizedExpected then
            let lastChunk := slice_from normalizedExpected (-20) in
            if includes normalizedBefore lastChunk then score + 20 else score
          else score
        else score in
      (* 2. Text after match check *)
      let score :=
        if truthy (Sel.textAfter si) then
          let afterText := substring_from nodeText (matchIndex + Sel.length si) in
          let normalizedAfter := normalizeText afterText in
          let normalizedExpected := normalizeText (Sel.textAfter si) in
          if startsWith normalizedAfter normalizedExpected then score + 35
          else if 10 <=? len normalizedExpected then
            let firstChunk := slice normalizedExpected 0 20 in
            if includes normalizedAfter firstChunk then score + 20 else score
          else score
        else score in
      (* 3. Parent element check *)
      let score :=
        if truthy (Sel.parentTagName si) then
          let score :=
            if JsString.eqb (tn_parentTag node) (Sel.parentTagName si)
            then score + 12 else score in
          if truthy (Sel.parentClassName si)
             && includes (tn_parentClass node) (Sel.parentClassName si)
          then score + 8 else score
        else score in
      (* 4. Base score for any match *)
      score + 10
  end.

(** A scored match, as [findAllMatchesWithScoring] pushes them. *)
Record scored : Type := mk_scored {
  m_node : text_node;
  m_index : Z;
  m_score : Z;
  m_normalizedIndex : Z
}.

(** The indices the inner loop of [findAllMatchesWithScoring] visits:
    [index = normalizedNode.indexOf(normalizedSearch, searchStart)]
    followed by [searchStart = index + 1] goes through every position
    where the search text starts, in increasing order.  [rest] is the
    normalised text from [pos] on. *)
Fixpoint occurrences (normalizedSearch rest : jsstring) (pos : Z) : list Z :=
  match rest with
  | [] => if prefixb normalizedSearch [] then [pos] else []
  | _ :: rest' =>
      (if prefixb normalizedSearch rest then [pos] else [])
        ++ occurrences normalizedSearch rest' (pos + 1)
  end.

(** The matches of one text node. *)
Definition node_matches (normalizedSearch : jsstring)
           (selectionInfo : option Sel.t) (node : text_node) : list scored :=
  let normalizedNode := normalizeText (tn_data node) in
  flat_map
    (fun index =>
       let actualIndex := findActualIndex (tn_data node) normalizedSearch index in
       if actualIndex =? -1 then []
       else [mk_scored node actualIndex
                       (calculateContextScore node actualIndex selectionInfo)
                       index])
    (occurrences normalizedSearch normalizedNode 0).

(** [matches.sort((a, b) => b.score - a.score)]: descending by score,
    and stable, as [Array.prototype.sort] is. *)
Fixpoint insert_scored (x : scored) (l : list scored) : list scored :=
  match l with
  | [] => [x]
  | y :: l' =>
      if m_score x <? m_score y then y :: insert_scored x l'
      else x :: y :: l'
  end.

Fixpoint sort_by_score (l : list scored) : list scored :=
  match l with
  | [] => []
  | x :: l' => insert_scored x (sort_by_score l')
  end.

(** [findAllMatchesWithScoring(searchText, selectionInfo)] *)
Definition findAllMatchesWithScoring (searchText : jsstring)
           (selectionInfo : option Sel.t) : M (list scored) :=
  let normalizedSearch := normalizeText searchText in
  if len normalizedSearch <? 3 then ret []
  else
    nodes <- bodyWalker ;;
    ret (sort_by_score (flat_map (node_matches normalizedSearch selectionInfo) nodes)).

(** The text the scorer takes as preceding and as following a match. *)
Definition text_before_match (node : text_node) (matchIndex : Z) : jsstring :=
  substring (tn_data node) 0 matchIndex.

Definition text_after_match (node : text_node) (matchIndex : Z) (si : Sel.t)
  : jsstring :=
  substring_from (tn_data node) (matchIndex + Sel.length si).

Definition same_parent (a b : text_node) : Prop :=
  tn_parentTag a = tn_parentTag b /\ tn_parentClass a = tn_parentClass b.

(** A list of matches in descending order of score. *)
Definition descending (l : list scored) : Prop :=
  StronglySorted (fun a b => m_score b <= m_score a) l.

End Scorer.

Import Scorer.

(** ** Methods 2 to 7 *)

Module Strategies.

(** The lines every method ends its [try] block with:
    [const mark = createHighlightMark(); range.surroundContents(mark);
     scrollToAndRemove(mark); return true;] *)
Definition wrap_range (r : range) : M bool :=
  mark <- surroundContents r ;;
  scrollToAndRemove mark ;;;
  ret true.

(** The [try] block of method 2 for one match: the range from the match
    index over the length of the original text, cut at the node's end. *)
Definition apply_match (originalText : jsstring) (m : scored) : M bool :=
  range <- setRange (m_node m) (m_index m)
             (Z.min (m_index m + len originalText) (len (tn_data (m_node m)))) ;;
  wrap_range range.

(** Method 2 over the step that applies a match, which may throw. *)
Section ScoredMatch.

Variable apply : jsstring -> scored -> M bool.

Definition minScore (normalizedSearch : jsstring) : Z :=
  let isShortText := len normalizedSearch <? 15 in
  if isShortText then 40 else 20.

Definition exactMatchWithScoring (originalText : jsstring)
           (selectionInfo : option Sel.t) : M bool :=
  let normalizedSearch := normalizeText originalText in
  if len normalizedSearch <? 5 then ret false
  else
    matches <- findAllMatchesWithScoring originalText selectionInfo ;;
    match matches with
    | [] => ret false
    | bestMatch :: others =>
        if m_score bestMatch <? minScore normalizedSearch then ret false
        else
          try_catch
            (apply originalText bestMatch)
            (match others with
             | secondMatch :: _ =>
                 if minScore normalizedSearch <=? m_score secondMatch then
                   try_catch (apply originalText secondMatch) (ret false)
                 else ret false
             | [] => ret false
             end)
    end.

End ScoredMatch.

(** [highlightByExactMatchWithScoring(originalText, selectionInfo)] *)
Definition highlightByExactMatchWithScoring : jsstring -> option Sel.t -> M bool :=
  exactMatchWithScoring apply_match.

(** The loop of [tryPrefixMatch] over the text nodes of the body. *)
Fixpoint tryPrefixMatch_loop (searchText : jsstring) (highlightLength : Z)
         (nodes : list text_node) : M bool :=
  match nodes with
  | [] => ret false
  | node :: nodes' =>
      let normalizedNode := normalizeText (tn_data node) in
      let index := indexOf normalizedNode searchText in
      if index =? -1 then tryPrefixMatch_loop searchText highlightLength nodes'
      else
        let actualIndex := findActualIndex (tn_data node) searchText index in
        if actualIndex =? -1
        then tryPrefixMatch_loop searchText highlightLength nodes'
        else
          try_catch
            (range <- setRange node actualIndex
                        (Z.min (actualIndex + highlightLength) (len (tn_data node))) ;;
             wrap_range range)
            (try_catch
               (range <- selectNodeContents node ;; wrap_range range)
               (tryPrefixMatch_loop searchText highlightLength nodes'))
  end.

(** [tryPrefixMatch(searchText, highlightLength)] *)
Definition tryPrefixMatch (searchText : jsstring) (highlightLength : Z) : M bool :=
  nodes <- bodyWalker ;;
  tryPrefixMatch_loop searchText highlightLength nodes.

Fixpoint highlightByFirstLine_loop (firstLine : jsstring) (prefixLengths : list Z)
  : M bool :=
  match prefixLengths with
  | [] => ret false
  | prefixLen :: prefixLengths' =>
      if len firstLine <? prefixLen
      then highlightByFirstLine_loop firstLine prefixLengths'
      else
        let searchText := normalizeText (substring firstLine 0 prefixLen) in
        if len searchText <? 3
        then highlightByFirstLine_loop firstLine prefixLengths'
        else
          result <- tryPrefixMatch searchText (len firstLine) ;;
          if result then ret true
          else highlightByFirstLine_loop firstLine prefixLengths'
  end.

(** [highlightByFirstLine(originalText)] *)
Definition highlightByFirstLine (originalText : jsstring) : M bool :=
  let lines :=
    filter (fun line => 0 <? len (trim line)) (split_on 10%N originalText) in
  match lines with
  | [] => ret false
  | line :: _ =>
      let firstLine := trim line in
      highlightByFirstLine_loop firstLine [20; 10; 5]
  end.

(** The text of a window: [windowText += allNodes[j].textContent + ' '] *)
Definition window_text (nodes : list text_node) : jsstring :=
  flat_map (fun n => tn_data n ++ [32%N]) nodes.

(** The sliding window of [highlightByWindowedSearch]; [allNodes] is the
    list from the window start on. *)
Fixpoint highlightByWindowedSearch_loop (searchText : jsstring)
         (WINDOW_SIZE : nat) (allNodes : list text_node) : M bool :=
  match allNodes with
  | [] => ret false
  | targetNode :: allNodes' =>
      let windowText := window_text (firstn WINDOW_SIZE allNodes) in
      let normalizedWindow := normalizeText windowText in
      if includes normalizedWindow searchText then
        try_catch
          (range <- selectNodeContents targetNode ;; wrap_range range)
          (highlightByWindowedSearch_loop searchText WINDOW_SIZE allNodes')
      else highlightByWindowedSearch_loop searchText WINDOW_SIZE allNodes'
  end.

(** [highlightByWindowedSearch(originalText)] *)
Definition highlightByWindowedSearch (originalText : jsstring) : M bool :=
  let searchText := normalizeText (substring originalText 0 20) in
  if len searchText <? 10 then ret false
  else
    nodes <- bodyWalker ;;
    let allNodes := filter (fun n => 0 <? len (trim (tn_data n))) nodes in
    highlightByWindowedSearch_loop searchText 15%nat allNodes.

(** The units on which a window and the shorter string agree. *)
Fixpoint count_matches (window shorter : jsstring) : Z :=
  match window, shorter with
  | x :: window', y :: shorter' =>
      (if N.eqb x y then 1 else 0) + count_matches window' shorter'
  | _, _ => 0
  end.

(** The window loop of [calculateSimilarity]; [rest] is [longer] from
    the window start on, and the window size is positive.  The ratio
    [matches / windowSize] is kept as a rational. *)
Fixpoint calculateSimilarity_loop (rest shorter : jsstring) (windowSize : Z)
         (maxMatch : Q) : Q :=
  match rest with
  | [] => maxMatch
  | _ :: rest' =>
      if len rest <? windowSize then maxMatch
      else
        let window := substring rest 0 windowSize in
        let matches := count_matches window shorter in
        calculateSimilarity_loop rest' shorter windowSize
          (Qmax maxMatch (Qmake matches (Z.to_pos windowSize)))
  end.

(** [calculateSimilarity(str1, str2)] *)
Definition calculateSimilarity (str1 str2 : jsstring) : Q :=
  let shorter := if len str1 <? len str2 then str1 else str2 in
  let longer := if len str2 <=? len str1 then str1 else str2 in
  if includes longer shorter then 1%Q
  else
    let windowSize := Z.min (len shorter) 30 in
    calculateSimilarity_loop longer shorter windowSize 0%Q.

Definition Qgtb (a b : Q) : bool := negb (Qle_bool a b).

(** The node loop of [highlightByFuzzyMatch]. *)
Fixpoint highlightByFuzzyMatch_loop (searchSnippet : jsstring)
         (nodes : list text_node) (bestMatch : option text_node) (bestScore : Q)
  : option text_node :=
  match nodes with
  | [] => bestMatch
  | node :: nodes' =>
      let normalizedNode := normalizeText (tn_data node) in
      if len normalizedNode <? len searchSnippet
      then highlightByFuzzyMatch_loop searchSnippet nodes' bestMatch bestScore
      else
        let score := calculateSimilarity normalizedNode searchSnippet in
        if Qgtb score bestScore && Qgtb score (7 # 10)%Q
        then highlightByFuzzyMatch_loop searchSnippet nodes' (Some node) score
        else highlightByFuzzyMatch_loop searchSnippet nodes' bestMatch bestScore
  end.

(** [highlightByFuzzyMatch(originalText)];
    [Math.floor(textLength * 0.2)] is the integer quotient by 5. *)
Definition highlightByFuzzyMatch (originalText : jsstring) : M bool :=
  let textLength := len originalText in
  let searchStart := textLength / 5 in
  let searchEnd := Z.min (searchStart + 40) textLength in
  let searchSnippet := normalizeText (substring originalText searchStart searchEnd) in
  if len searchSnippet <? 15 then ret false
  else
    nodes <- bodyWalker ;;
    match highlightByFuzzyMatch_loop searchSnippet nodes None 0%Q with
    | Some bestMatch =>
        try_catch
          (range <- selectNodeContents bestMatch ;; wrap_range range)
          (ret false)
    | None => ret false
    end.

(** The node loop methods 6 and 7 share: the whole content of the first
    text node whose normalised text includes the snippet is wrapped; a
    node on which wrapping throws is passed over. *)
Fixpoint highlight_first_including (snippet : jsstring) (nodes : list text_node)
  : M bool :=
  match nodes with
  | [] => ret false
  | node :: nodes' =>
      let normalizedNode := normalizeText (tn_data node) in
      if includes normalizedNode snippet then
        try_catch
          (range <- selectNodeContents node ;; wrap_range range)
          (highlight_first_including snippet nodes')
      else highlight_first_including snippet nodes'
  end.

(** [highlightByTextSearch(searchText)] *)
Definition highlightByTextSearch (searchText : jsstring) : M bool :=
  if negb (truthy searchText) || (len searchText <? 10) then ret false
  else
    let searchSnippet := normalizeText (substring searchText 0 60) in
    nodes <- bodyWalker ;;
    highlight_first_including searchSnippet nodes.

Fixpoint highlightByPartialMatch_loop (portions : list jsstring) : M bool :=
  match portions with
  | [] => ret false
  | portion :: portions' =>
      let normalizedPortion := normalizeText portion in
      if len normalizedPortion <? 8 then highlightByPartialMatch_loop portions'
      else
        nodes <- bodyWalker ;;
        found <- highlight_first_including normalizedPortion nodes ;;
        if found then ret true else highlightByPartialMatch_loop portions'
  end.

(** [highlightByPartialMatch(originalText)] *)
Definition highlightByPartialMatch (originalText : jsstring) : M bool :=
  let portions :=
    [ substring originalText 0 20;
      substring_from originalText (len originalText - 20);
      substring originalText (len originalText / 2 - 10) (len originalText / 2 + 10) ] in
  highlightByPartialMatch_loop portions.

End Strategies.

Import Strategies.

(** ** The relocation cascade *)

Module Cascade.

Section Methods.

(** The seven methods, in the order [highlightText] calls them. *)
Variable method1 : Sel.t -> M bool.
Variable method2 : jsstring -> option Sel.t -> M bool.
Variables method3 method4 method5 method6 method7 : jsstring -> M bool.

(** One [if (!highlighted && precondition) { highlighted = method(...) }]
    step.  Next to the completion the step keeps the numbers of the
    methods called so far; the code has no such record, it serves to
    state which methods ran. *)
Definition attempt (k : nat) (precondition : bool) (method : M bool)
           (st : list nat * completion bool) : list nat * completion bool :=
  match st with
  | (called, Normal highlighted p) =>
      if negb highlighted && precondition then (called ++ [k], method p)
      else (called, Normal highlighted p)
  | (called, Throw p) => (called, Throw p)
  end.

(** The [try] block of [highlightText] from the first method to the
    last. *)
Definition highlightText_methods (selectionInfo : option Sel.t) (p : page)
  : list nat * completion bool :=
  let originalText :=
    match selectionInfo with Some si => Sel.originalText si | None => [] end in
  let surroundingText :=
    match selectionInfo with Some si => Sel.surroundingText si | None => [] end in
  let has_xpath :=
    match selectionInfo with
    | Some si => match Sel.xpath si with Some _ => true | None => false end
    | None => false
    end in
  let st := ([], Normal false p) in
  let st := attempt 1 has_xpath
              (match selectionInfo with
               | Some si => method1 si
               | None => ret false
               end) st in
  let st := attempt 2 (5 <=? len originalText)
              (method2 originalText selectionInfo) st in
  let st := attempt 3 (10 <=? len originalText) (method3 originalText) st in
  let st := attempt 4 (15 <=? len originalText) (method4 originalText) st in
  let st := attempt 5 (20 <=? len originalText) (method5 originalText) st in
  let st := attempt 6 (truthy surroundingText) (method6 surroundingText) st in
  let st := attempt 7 (10 <=? len originalText) (method7 originalText) st in
  st.

(** [highlightText(selectionInfo)]: the wait, then the methods; when
    nothing was highlighted, and when an exception reached the [catch],
    the window scrolls to the top. *)
Definition highlightText_with (selectionInfo : option Sel.t) (p : page)
  : list nat * completion unit :=
  match waitForPageStable p with
  | Normal _ p0 =>
      match highlightText_methods selectionInfo p0 with
      | (called, Normal highlighted p') =>
          if negb highlighted then (called, scrollToTop p')
          else (called, Normal tt p')
      | (called, Throw p') => (called, scrollToTop p')
      end
  | Throw p0 => ([], scrollToTop p0)
  end.

End Methods.

(** [highlightText] with the methods of the content script. *)
Definition highlightText : option Sel.t -> page -> list nat * completion unit :=
  highlightText_with tryXPathHighlight highlightByExactMatchWithScoring
                     highlightByFirstLine highlightByWindowedSearch
                     highlightByFuzzyMatch highlightByTextSearch
                     highlightByPartialMatch.

End Cascade.

Import Cascade.

(** ** First-wins priority, as the specification words it *)

Module Priority.

(** A strategy in the queue: its number, whether its precondition holds,
    and the call. *)
Definition strategy : Type := (nat * bool * M bool)%type.

(** The strategies run in the order of the list; a strategy whose
    precondition fails is passed over; the first one that resolves and
    validates (answers [true]) supplies the result and nothing after it
    runs; one that declines hands the page on to the next.  The numbers
    are those of the strategies that ran. *)
Fixpoint first_wins (queue : list strategy) (p : page) : list nat * completion bool :=
  match queue with
  | [] => ([], Normal false p)
  | (k, precondition, run) :: queue' =>
      if precondition then
        match run p with
        | Normal true p' => ([k], Normal true p')
        | Normal false p' =>
            let (ran, c) := first_wins queue' p' in (k :: ran, c)
        | Throw p' => ([k], Throw p')
        end
      else first_wins queue' p
  end.

(** One step of [highlightText] on a strategy of the queue. *)
Definition attempt_strategy (st : list nat * completion bool) (s : strategy)
  : list nat * completion bool :=
  let '(k, precondition, run) := s in attempt k precondition run st.

Section Queue.

Variable method1 : Sel.t -> M bool.
Variable method2 : jsstring -> option Sel.t -> M bool.
Variables method3 method4 method5 method6 method7 : jsstring -> M bool.

(** The seven strategies with the preconditions [highlightText] puts on
    them, in priority order. *)
Definition queue_of (selectionInfo : option Sel.t) : list strategy :=
  let originalText :=
    match selectionInfo with Some si => Sel.originalText si | None => [] end in
  let surroundingText :=
    match selectionInfo with Some si => Sel.surroundingText si | None => [] end in
  [ (1%nat,
     match selectionInfo with
     | Some si => match Sel.xpath si with Some _ => true | None => false end
     | None => false
     end,
     match selectionInfo with Some si => method1 si | None => ret false end);
    (2%nat, 5 <=? len originalText, method2 originalText selectionInfo);
    (3%nat, 10 <=? len originalText, method3 originalText);
    (4%nat, 15 <=? len originalText, method4 originalText);
    (5%nat, 20 <=? len originalText, method5 originalText);
    (6%nat, truthy surroundingText, method6 surroundingText);
    (7%nat, 10 <=? len originalText, method7 originalText) ].

End Queue.

End Priority.

Import Priority.

(** ** Sample pages and anchors *)

Module Samples.

Definition no_anchor : Sel.t :=
  Sel.mk None None 0 [] [] [] [] [] [].

Definition html (children : list node) : node := Element (str "HTML") [] [] children.
Definition head : node :=
  Element (str "HEAD") [] [] [Element (str "TITLE") [] [] [Text (str "Shop")]].
Definition body_of (children : list node) : node := Element (str "BODY") [] [] children.
Definition paragraph (text : string) : node := Element (str "P") [] [] [Text (str text)].

Definition start_page (doc : node) : page := mk_page doc 0 [] [].

(** One paragraph, and the anchor of the word "quick" copied from it. *)
Definition fox_page : page :=
  start_page (html [head; body_of [paragraph "The quick brown fox"]]).

Definition fox_anchor : Sel.t :=
  Sel.mk (Some (FromBody [(str "p", 1%nat)])) (Some 4) 5
         (str "The quick brown fox") (str "The ") (str " brown fox")
         (str "P") [] (str "quick").

Definition fox_range : range :=
  mk_range [1%nat; 0%nat; 0%nat] (str "The quick brown fox") 4 9.

(** A page whose script has put a banner next to the body, under the root
    element, and the anchor of the word "Accept" copied from the banner. *)
Definition banner_page : page :=
  start_page
    (html [head;
           body_of [paragraph "The quick brown fox"];
           Element (str "DIV") (str "cookie") (str "banner")
                   [Text (str "Accept all cookies")]]).

Definition banner_anchor : Sel.t :=
  Sel.mk (Some (ById (str "cookie"))) (Some 0) 6
         (str "Accept all cookies") [] (str " all cookies")
         (str "DIV") (str "banner") (str "Accept").

(** A body that starts with a blank text node, and an anchor whose
    surrounding text starts with sixty blanks. *)
Definition indented_page : page :=
  start_page (html [head; body_of [Text (str "  "); paragraph "hello world"]]).

Definition blanks : jsstring := repeat 32%N 60.

Definition indented_anchor : Sel.t :=
  Sel.mk None None 9 (blanks ++ str "some text") [] [] [] [] (str "gone away").

(** A string in which a zero-width space stands between two spaces. *)
Definition spaced_zero_width : jsstring := str "a " ++ [8203%N] ++ str " b".

(** A selection of 10001 letters. *)
Definition long_selection : jsstring := repeat 97%N (Z.to_nat 10001).

(** Two text nodes around the same match, one preceded by the text the
    anchor expects, and an anchor of the order number. *)
Definition order_anchor : Sel.t :=
  Sel.mk None None 12 [] (str "your recent ") (str " confirmed")
         (str "P") [] (str "order #12345").

Definition order_node (text : string) : text_node :=
  mk_text_node [1%nat; 0%nat; 0%nat] (str text) (str "P") [].

(** The anchor of the first three words of the paragraph of [fox_page],
    and the one match method 2 finds for it. *)
Definition phrase_anchor : Sel.t :=
  Sel.mk None None 15 (str "The quick brown fox") [] (str " fox")
         (str "P") [] (str "The quick brown").

Definition phrase_match : scored :=
  mk_scored (mk_text_node [1%nat; 0%nat; 0%nat] (str "The quick brown fox") (str "P") [])
            0 57 0.

End Samples.

Import Samples.

(** ** Site blacklist *)

Module Blacklist.

(** The test of one blacklist entry: the host is the domain or one of its
    subdomains. *)
Definition host_matches (hostname d : jsstring) : bool :=
  JsString.eqb hostname d || endsWith hostname (str "." ++ d).

(** [isInUserBlacklist(url, blacklist)].  [hostname] is
    [new URL(url).hostname], [None] when the constructor throws;
    [blacklist] is [None] when the setting is missing. *)
Definition isInUserBlacklist (hostname : option jsstring)
           (blacklist : option (list jsstring)) : bool :=
  match blacklist with
  | None => false
  | Some [] => false
  | Some domains =>
      match hostname with
      | None => false
      | Some h =>
          let hostname := toLowerCase h in
          existsb (fun domain =>
                     let d := toLowerCase domain in
                     host_matches hostname d) domains
      end
  end.

End Blacklist.

Import Blacklist.

(** ** Structural addresses *)

Module Codec.

(** The strings [getXPath] builds: [//*[@id="..."]] or [/html/body],
    followed by the [/tag[index]] steps appended on the way back down. *)
Inductive address : Type :=
| IdThen (id : jsstring) (steps : list (jsstring * nat))
| BodyThen (steps : list (jsstring * nat)).

(** [parentPath + '/' + tag + '[' + index + ']'] *)
Definition append_step (a : address) (step : jsstring * nat) : address :=
  match a with
  | IdThen id steps => IdThen id (steps ++ [step])
  | BodyThen steps => BodyThen (steps ++ [step])
  end.

(** The loop over [element.parentNode.children]: one more than the
    number of element siblings before the element that have its tag
    name. *)
Fixpoint count_same_tag (tagName : jsstring) (siblings : list node) : nat :=
  match siblings with
  | [] => 0%nat
  | Element t _ _ _ :: siblings' =>
      if JsString.eqb t tagName then S (count_same_tag tagName siblings')
      else count_same_tag tagName siblings'
  | Text _ :: siblings' => count_same_tag tagName siblings'
  end.

(** [document.body]: there is none unless the root element is [html]. *)
Definition document_body (doc : node) : option path :=
  match doc with
  | Element t _ _ _ =>
      if JsString.eqb (toLowerCase t) (str "html") then body doc else None
  | Text _ => None
  end.

(** [getXPath(element)] for the element at the path whose reverse is
    [rp].  The root element has the document for its parent, which has no
    address. *)
Fixpoint getXPath_element (doc : node) (rp : list nat) : option address :=
  match get_node doc (rev rp) with
  | Some (Element tagName id _ _) =>
      if truthy id then Some (IdThen id [])
      else if match document_body doc with
              | Some b => if list_eq_dec Nat.eq_dec b (rev rp) then true else false
              | None => false
              end
      then Some (BodyThen [])
      else
        match rp with
        | [] => None
        | k :: rp' =>
            match get_node doc (rev rp') with
            | Some (Element _ _ _ siblings) =>
                let index := S (count_same_tag tagName (firstn k siblings)) in
                match getXPath_element doc rp' with
                | Some parentPath =>
                    Some (append_step parentPath (toLowerCase tagName, index))
                | None => None
                end
            | _ => None
            end
        end
  | _ => None
  end.

(** The element [getXPath] starts from: a text node stands for its
    parent. *)
Definition element_path (doc : node) (p : path) : option path :=
  match get_node doc p with
  | Some (Text _) =>
      match p with
      | [] => None
      | _ => Some (parent_path p)
      end
  | Some (Element _ _ _ _) => Some p
  | None => None
  end.

(** [getXPath(node)] *)
Definition getXPath (doc : node) (p : path) : option address :=
  match element_path doc p with
  | Some e => getXPath_element doc (rev e)
  | None => None
  end.

(** [getElementByXPath] on these addresses: the first element with the
    id, or the body under an [html] root, and then the steps down. *)
Definition resolve (doc : node) (a : address) : option path :=
  let descend_from (base : option path) (steps : list (jsstring * nat)) :=
    match base with
    | Some b =>
        match get_node doc b with
        | Some bn =>
            match descend bn steps with
            | Some p => Some (b ++ p)
            | None => None
            end
        | None => None
        end
    | None => None
    end in
  match a with
  | IdThen [] _ => None
  | IdThen id steps => descend_from (find_id id doc) steps
  | BodyThen steps =>
      match doc with
      | Element t _ _ _ =>
          if JsString.eqb (toLowerCase t) (str "html")
          then descend_from (body doc) steps
          else None
      | Text _ => None
      end
  end.

(** The two shapes of address that the relocation request carries as
    [Dom.xpath]. *)
Definition to_xpath (a : address) : option xpath :=
  match a with
  | IdThen id [] => Some (ById id)
  | IdThen _ (_ :: _) => None
  | BodyThen steps => Some (FromBody steps)
  end.

(** The tag names of the elements of a tree. *)
Fixpoint tagNames (n : node) : list jsstring :=
  match n with
  | Text _ => []
  | Element t _ _ cs => t :: flat_map tagNames cs
  end.

(** No two tag names of the document differ by letter case only: the
    sibling count of [getXPath] compares tag names as they are, the steps
    of the address name them in lower case. *)
Definition tags_case_consistent (doc : node) : bool :=
  forallb (fun a =>
             forallb (fun b =>
                        implb (JsString.eqb (toLowerCase a) (toLowerCase b))
                              (JsString.eqb a b))
                     (tagNames doc))
          (tagNames doc).

(** Every element on the way to [p] that has an id is the first element
    of the document with that id. *)
Definition ids_lead_back (doc : node) (p : path) : bool :=
  forallb (fun n =>
             match get_node doc (firstn n p) with
             | Some (Element _ (c :: id) _ _) =>
                 match find_id (c :: id) doc with
                 | Some q => if list_eq_dec Nat.eq_dec q (firstn n p) then true else false
                 | None => false
                 end
             | _ => true
             end)
          (seq 0 (S (List.length p))).

End Codec.

Import Codec.

(** ** Selection context *)

Module SelectionContext.

(** What [getSelectionContext] reads of the selection: the number of
    ranges, the common ancestor container and start offset of the first
    range, and [selection.toString()]. *)
Record selection : Type := mk_selection {
  rangeCount : nat;
  commonAncestorContainer : path;
  startOffset : Z;
  selectedText : jsstring
}.

(** The record [getSelectionContext] returns. *)
Record context : Type := mk_context {
  c_xpath : option address;
  c_offset : Z;
  c_length : Z;
  c_surroundingText : jsstring;
  c_textBefore : jsstring;
  c_textAfter : jsstring;
  c_parentTagName : jsstring;
  c_parentClassName : jsstring
}.

(** [getSurroundingText(element, length)] *)
Definition getSurroundingText (element : node) (length : Z) : jsstring :=
  substring (textContent element) 0 (length * 2).

(** [fullText.substring(Math.max(0, textIndex - 50), textIndex)] when the
    selected text is found after the start of the container's text. *)
Definition text_before (fullText selectedText : jsstring) : jsstring :=
  let textIndex := indexOf fullText selectedText in
  if 0 <? textIndex
  then substring fullText (Z.max 0 (textIndex - 50)) textIndex
  else [].

(** [fullText.substring(textIndex + selectedText.length, textIndex +
    selectedText.length + 50)] when the selected text is found. *)
Definition text_after (fullText selectedText : jsstring) : jsstring :=
  let textIndex := indexOf fullText selectedText in
  if textIndex =? -1 then []
  else substring fullText (textIndex + len selectedText)
                 (textIndex + len selectedText + 50).

(** [getSelectionContext(selection)]; [None] is [null]. *)
Definition getSelectionContext (doc : node) (sel : selection) : option context :=
  match rangeCount sel with
  | O => None
  | S _ =>
      let container := commonAncestorContainer sel in
      match get_node doc container with
      | None => None
      | Some cn =>
          let selectedText := selectedText sel in
          let fullText := textContent cn in
          let parentElement :=
            match cn with
            | Text _ =>
                match container with
                | [] => None
                | _ => get_node doc (parent_path container)
                end
            | Element _ _ _ _ => Some cn
            end in
          Some (mk_context
                  (getXPath doc container)
                  (startOffset sel)
                  (len selectedText)
                  (getSurroundingText cn 100)
                  (text_before fullText selectedText)
                  (text_after fullText selectedText)
                  (match parentElement with
                   | Some (Element t _ _ _) => t
                   | _ => []
                   end)
                  (match parentElement with
                   | Some (Element _ _ cls _) =>
                       match split_on 32%N cls with
                       | first :: _ => first
                       | [] => []
                       end
                   | _ => []
                   end))
      end
  end.

(** The relocation request the sidebar sends for a stored record:
    [{ ...item.selectionInfo, originalText: item.text }].  A [Dom.xpath]
    carries an id alone or a path from the body; for an address of
    another shape (steps below an id) there is no request in this
    model. *)
Definition request_of (c : context) (text : jsstring) : option Sel.t :=
  let request (x : option xpath) :=
    Sel.mk x (Some (c_offset c)) (c_length c) (c_surroundingText c)
           (c_textBefore c) (c_textAfter c)
           (c_parentTagName c) (c_parentClassName c) text in
  match c_xpath c with
  | None => Some (request None)
  | Some a =>
      match to_xpath a with
      | Some x => Some (request (Some x))
      | None => None
      end
  end.

End SelectionContext.

Import SelectionContext.

(** ** Stored history *)

Module History.

(** A record of the history, with the fields the background script
    compares and limits by. *)
Record item : Type := mk_item {
  i_id : jsstring;
  i_text : jsstring;
  i_url : jsstring;
  i_pageTitle : jsstring;
  i_timestamp : Z;
  i_selectionInfo : option context
}.

(** The [COPY_DETECTED] message of the content script. *)
Record clipboardData : Type := mk_data {
  d_text : jsstring;
  d_url : jsstring;
  d_pageTitle : jsstring;
  d_timestamp : Z;
  d_selectionInfo : option context
}.

Definition MAX_ITEMS : nat := 1000.

(** [history.some(item => item.text === data.text && item.url === data.url
    && item.timestamp >= todayStart)] *)
Definition isDuplicateToday (todayStart : Z) (history : list item)
           (data : clipboardData) : bool :=
  existsb (fun it =>
             JsString.eqb (i_text it) (d_text data)
             && JsString.eqb (i_url it) (d_url data)
             && (todayStart <=? i_timestamp it)) history.

(** [history.unshift(item); if (history.length > 1000) history.pop()] *)
Definition unshift_limited (it : item) (history : list item) : list item :=
  let history := it :: history in
  if (MAX_ITEMS <? List.length history)%nat then removelast history else history.

(** [saveClipboardItem(data, tab)] as a function of the stored history:
    [nearlyFull] tells that more than 95 percent of the quota is in use,
    [id] is what [generateId()] returns, [stored] whether
    [chrome.storage.local.set] succeeds. *)
Definition saveClipboardItem (nearlyFull : bool) (todayStart : Z) (id : jsstring)
           (stored : bool) (history : list item) (data : clipboardData)
  : list item :=
  if nearlyFull then history
  else if isDuplicateToday todayStart history data then history
  else
    let it := mk_item id (d_text data) (d_url data) (d_pageTitle data)
                      (d_timestamp data) (d_selectionInfo data) in
    if stored then unshift_limited it history else history.

(** [deleteItem(id)] *)
Definition deleteItem (id : jsstring) (history : list item) : list item :=
  filter (fun it => negb (JsString.eqb (i_id it) id)) history.

(** The records of today, by the text and the address they were copied
    from. *)
Definition today_keys (todayStart : Z) (history : list item)
  : list (jsstring * jsstring) :=
  map (fun it => (i_text it, i_url it))
      (filter (fun it => todayStart <=? i_timestamp it) history).

End History.

Import History.

(** ** Notions for the properties of the search methods *)

Module SearchNotions.

(** The loop of [highlightByFuzzyMatch] with the score it keeps next to
    the node. *)
Fixpoint highlightByFuzzyMatch_scored (searchSnippet : jsstring)
         (nodes : list text_node) (bestMatch : option text_node) (bestScore : Q)
  : option text_node * Q :=
  match nodes with
  | [] => (bestMatch, bestScore)
  | node :: nodes' =>
      let normalizedNode := normalizeText (tn_data node) in
      if len normalizedNode <? len searchSnippet
      then highlightByFuzzyMatch_scored searchSnippet nodes' bestMatch bestScore
      else
        let score := calculateSimilarity normalizedNode searchSnippet in
        if Qgtb score bestScore && Qgtb score (7 # 10)%Q
        then highlightByFuzzyMatch_scored searchSnippet nodes' (Some node) score
        else highlightByFuzzyMatch_scored searchSnippet nodes' bestMatch bestScore
  end.

(** A node long enough for the fuzzy match, and its similarity to the
    snippet. *)
Definition long_enough (searchSnippet : jsstring) (node : text_node) : Prop :=
  len searchSnippet <= len (normalizeText (tn_data node)).

Definition similarity (searchSnippet : jsstring) (node : text_node) : Q :=
  calculateSimilarity (normalizeText (tn_data node)) searchSnippet.

(** The number of units of a text that [findActualIndex] counts. *)
Definition counted_units (s : jsstring) : Z :=
  Z.of_nat (List.length (filter counted s)).

(** The last unit of a text is one that [findActualIndex] counts. *)
Definition ends_counted (s : jsstring) : Prop :=
  match rev s with
  | [] => False
  | c :: _ => counted c = true
  end.

End SearchNotions.

Import SearchNotions.

(** ** What relocation does to a page *)

Module Invariants.

(** A computation that leaves the text of the document as it was,
    however it ends. *)
Definition keeps_text {A : Type} (m : M A) : Prop :=
  forall p, textContent (document (page_of (m p))) = textContent (document p).

(** [p'] is [p] after one range of one text node was wrapped in a
    highlight mark, the mark scrolled into view and its removal
    scheduled. *)
Definition wrapped (p p' : page) : Prop :=
  exists (t : path) (data : jsstring) (s e : Z) (d : node),
    get_node (document p) t = Some (Text data) /\
    0 <= s /\ s <= e /\ e <= len data /\
    splice (document p) t (surround_text s e) = Some d /\
    get_node d (mark_path t)
    = Some (highlightMark (if s <? e then [Text (substring data s e)] else [])) /\
    p' = mk_page d (scrolledToTop p) (scrolledIntoView p ++ [mark_path t])
                 (timers p ++ [mark_path t]).

(** A method that answers [true] after one wrap, and leaves the page as
    it was when it answers [false] or throws. *)
Definition wraps_on_success (m : M bool) : Prop :=
  forall p,
    (exists p', m p = Normal true p' /\ wrapped p p') \/
    m p = Normal false p \/ m p = Throw p.

End Invariants.

Import Invariants.

(** ** Sensitive sites *)

Module Sensitive.

Definition SENSITIVE_HOSTNAMES : list jsstring :=
  [ str "accounts.google.com";
    str "login.microsoftonline.com";
    str "signin.aws.amazon.com";
    str "auth0.com";
    str "paypal.com";
    str "www.paypal.com";
    str "stripe.com";
    str "dashboard.stripe.com";
    str "1password.com";
    str "my.1password.com";
    str "lastpass.com";
    str "vault.bitwarden.com";
    str "app.dashlane.com" ].

Definition SENSITIVE_HOSTNAME_KEYWORDS : list jsstring :=
  [ str "login"; str "signin"; str "signup"; str "auth"; str "bank"; str "banking" ].

(** The host checks of [shouldSkipRecording]; [hostname] is
    [new URL(url).hostname], [None] when the constructor throws and the
    [catch] passes on to the other checks. *)
Definition sensitive_host (hostname : option jsstring) : bool :=
  match hostname with
  | None => false
  | Some h =>
      let hostname := toLowerCase h in
      if existsb (fun domain => host_matches hostname domain) SENSITIVE_HOSTNAMES
      then true
      else existsb (fun keyword => includes hostname keyword)
                   SENSITIVE_HOSTNAME_KEYWORDS
  end.

(** [shouldSkipRecording(text, url)]: [nearPasswordField] is the test of
    the active element and its form, [matchesPattern] the test of the
    text against [SENSITIVE_PATTERNS]. *)
Definition shouldSkipRecording (hostname : option jsstring)
           (nearPasswordField : bool) (matchesPattern : jsstring -> bool)
           (text : jsstring) : bool :=
  if sensitive_host hostname then true
  else if nearPasswordField then true
  else if matchesPattern text then true
  else false.

(** The copy listener on a page with the given host: the blacklist test
    and the sensitive-content test both read [window.location.href]. *)
Definition on_copy (contextValid incognitoMode : bool)
           (hostname : option jsstring) (blacklist : option (list jsstring))
           (nearPasswordField : bool) (matchesPattern : jsstring -> bool)
           (selection : jsstring) : option jsstring :=
  copy_listener contextValid incognitoMode
                (isInUserBlacklist hostname blacklist)
                (shouldSkipRecording hostname nearPasswordField matchesPattern)
                selection.

End Sensitive.

Import Sensitive.

(** ** Further samples *)

Module MoreSamples.

(** The word "quick" selected in the text node of the paragraph of
    [fox_page]. *)
Definition quick_selection : selection :=
  mk_selection 1 [1%nat; 0%nat; 0%nat] 4 (str "quick").

Definition quick_context : context :=
  mk_context (Some (BodyThen [(str "p", 1%nat)])) 4 5
             (str "The quick brown fox") (str "The ") (str " brown fox")
             (str "P") [].

End MoreSamples.

Import MoreSamples.

(** ** Notions for the properties of methods 3 and 4 *)

Module CrossElementNotions.

(** The windows of [highlightByWindowedSearch]: for every start node, in
    order, the node and the normalised text of the window that starts
    there. *)
Fixpoint windows (WINDOW_SIZE : nat) (allNodes : list text_node)
  : list (text_node * jsstring) :=
  match allNodes with
  | [] => []
  | targetNode :: allNodes' =>
      (targetNode, normalizeText (window_text (firstn WINDOW_SIZE allNodes)))
        :: windows WINDOW_SIZE allNodes'
  end.

(** Where [tryPrefixMatch] starts its range in a text node: the index
    [findActualIndex] gives for the first occurrence of the search text
    in the normalised text of the node, if there is one. *)
Definition prefix_place (searchText : jsstring) (node : text_node) : option Z :=
  let normalizedNode := normalizeText (tn_data node) in
  let index := indexOf normalizedNode searchText in
  if index =? -1 then None
  else
    let actualIndex := findActualIndex (tn_data node) searchText index in
    if actualIndex =? -1 then None else Some actualIndex.

End CrossElementNotions.

Import CrossElementNotions.

(** * Properties *)

(** ** Strings *)

Module JsStringFacts.

Lemma eqb_eq (a b : jsstring) : JsString.eqb a b = true <-> a = b.
Proof.
  revert b. induction a as [|x a IH]; intros [|y b]; simpl;
    try (split; [discriminate | congruence]); try tauto.
  rewrite andb_true_iff, N.eqb_eq, IH. split.
  - intros [-> ->]. reflexivity.
  - intros H. inversion H. auto.
Qed.

Lemma eqb_refl (a : jsstring) : JsString.eqb a a = true.
Proof. apply eqb_eq. reflexivity. Qed.

Lemma eqb_neq (a b : jsstring) : JsString.eqb a b = false <-> a <> b.
Proof.
  rewrite <- eqb_eq. destruct (JsString.eqb a b); split; congruence.
Qed.

Lemma len_nonneg (s : jsstring) : 0 <= len s.
Proof. unfold len. lia. Qed.

Lemma len_app (a b : jsstring) : len (a ++ b) = len a + len b.
Proof. unfold len. rewrite length_app. lia. Qed.

Lemma len_nil_iff (s : jsstring) : len s = 0 <-> s = [].
Proof.
  unfold len. destruct s; simpl; split; intros H;
    try reflexivity; try discriminate; lia.
Qed.

Lemma clamp_id (i : Z) (s : jsstring) : 0 <= i <= len s -> clamp i s = i.
Proof. unfold clamp. lia. Qed.

Lemma substring_spec (s : jsstring) (a b : Z) :
  0 <= a <= b -> b <= len s ->
  substring s a b = firstn (Z.to_nat (b - a)) (skipn (Z.to_nat a) s).
Proof.
  intros Ha Hb. unfold substring.
  rewrite !clamp_id by lia.
  rewrite Z.min_l, Z.max_r by lia. reflexivity.
Qed.

Lemma substring_prefix (s : jsstring) (b : Z) :
  0 <= b <= len s -> substring s 0 b = firstn (Z.to_nat b) s.
Proof.
  intros H. rewrite substring_spec by lia.
  rewrite Z.sub_0_r. reflexivity.
Qed.

Lemma substring_from_spec (s : jsstring) (a : Z) :
  0 <= a <= len s -> substring_from s a = skipn (Z.to_nat a) s.
Proof.
  intros H. unfold substring_from. rewrite substring_spec by lia.
  apply firstn_all2. rewrite length_skipn. unfold len in *. lia.
Qed.

Lemma len_substring (s : jsstring) (a b : Z) :
  0 <= a <= b -> b <= len s -> len (substring s a b) = b - a.
Proof.
  intros Ha Hb. rewrite substring_spec by lia.
  unfold len in *. rewrite length_firstn, length_skipn. lia.
Qed.

(** Cutting a string at two places and gluing the three parts back. *)
Lemma substring_split3 (s : jsstring) (a b : Z) :
  0 <= a <= b -> b <= len s ->
  substring s 0 a ++ substring s a b ++ substring_from s b = s.
Proof.
  intros Ha Hb.
  rewrite substring_prefix, substring_spec, substring_from_spec by lia.
  replace (Z.to_nat b) with (Z.to_nat (b - a) + Z.to_nat a)%nat by lia.
  rewrite <- skipn_skipn.
  rewrite (firstn_skipn (Z.to_nat (b - a)) (skipn (Z.to_nat a) s)).
  apply firstn_skipn.
Qed.

Lemma substring_split2 (s : jsstring) (a : Z) :
  0 <= a <= len s -> substring s 0 a ++ substring_from s a = s.
Proof.
  intros Ha. rewrite substring_prefix, substring_from_spec by lia.
  apply firstn_skipn.
Qed.

End JsStringFacts.

Import JsStringFacts.

(** ** Text normaliser *)

Module NormalizerFacts.

(** C2 (the code departs from it).  [normalizeText] is not idempotent:
    the white-space runs are collapsed before the zero-width units are
    removed, so "a ", U+200B, " b" normalises to "a  b" with two spaces,
    and normalising that once more gives "a b". *)
Theorem normalizeText_not_idempotent :
  normalizeText spaced_zero_width = str "a  b" /\
  normalizeText (normalizeText spaced_zero_width) = str "a b" /\
  normalizeText (normalizeText spaced_zero_width) <> normalizeText spaced_zero_width.
Proof.
  repeat split; try (vm_compute; reflexivity).
  vm_compute. discriminate.
Qed.

(** The two strings of the spec's example do have one normal form. *)
Example normalizeText_folds_case_and_spaces :
  normalizeText (str "Foo   BAR") = normalizeText (str "foo bar").
Proof. reflexivity. Qed.

(** C10 (the code departs from it).  In "hello world" the normalised
    text is the text itself and "world" starts at index 6, but
    [findActualIndex] answers 7: the loop counts only the units whose
    own normal form is not empty, so the space at index 5 is passed over
    without being counted, although it is a unit of the normalised
    text.  The raw text from the index returned normalises to "orld",
    which does not begin with the search text. *)
Theorem findActualIndex_skips_counted_space :
  let original := str "hello world" in
  let normalizedSearch := str "world" in
  indexOf (normalizeText original) normalizedSearch = 6 /\
  findActualIndex original normalizedSearch 6 = 7 /\
  normalizeText (substring_from original 7) = str "orld" /\
  startsWith (normalizeText (substring_from original 7)) normalizedSearch = false.
Proof. vm_compute. repeat split; reflexivity. Qed.

(** Without zero-width space, joiner and non-joiner in the text, the
    normal form is a fixed point of [normalizeText]. *)
Lemma lower_unit_cases (c : code_unit) :
  lower_unit c = c \/
  (lower_unit c = (c + 32)%N /\ ((65 <= c <= 90)%N \/ (192 <= c <= 222)%N)).
Proof.
  unfold lower_unit.
  destruct (N.leb_spec 65 c), (N.leb_spec c 90); simpl; try (right; split; [reflexivity | lia]);
    destruct (N.leb_spec 192 c), (N.leb_spec c 222), (N.eqb_spec c 215); simpl;
    try (left; reflexivity); right; split; try reflexivity; lia.
Qed.

Lemma lower_unit_fixed (c : code_unit) :
  ((97 <= c <= 122)%N \/ (224 <= c <= 254)%N) -> lower_unit c = c.
Proof.
  intros H. unfold lower_unit.
  destruct (N.leb_spec 65 c), (N.leb_spec c 90); simpl; try lia;
    destruct (N.leb_spec 192 c), (N.leb_spec c 222); simpl; try lia; reflexivity.
Qed.

Lemma lower_unit_idempotent (c : code_unit) : lower_unit (lower_unit c) = lower_unit c.
Proof.
  destruct (lower_unit_cases c) as [E | [E Hc]]; rewrite E.
  - exact E.
  - apply lower_unit_fixed. lia.
Qed.

Lemma lower_unit_joiner (c : code_unit) : is_joiner (lower_unit c) = is_joiner c.
Proof.
  destruct (lower_unit_cases c) as [-> | [-> Hc]]; [reflexivity|].
  unfold is_joiner.
  destruct (N.leb_spec 8203 (c + 32)), (N.leb_spec 8203 c); simpl; try lia; reflexivity.
Qed.

Lemma is_space_not_feff (c : code_unit) :
  is_space c = false -> is_zero_width c = is_joiner c.
Proof.
  unfold is_space, is_zero_width, is_joiner. intros H.
  apply orb_false_iff in H as [_ ->]. apply orb_false_r.
Qed.

Lemma is_space_ideographic (c : code_unit) :
  is_space c = false -> N.eqb c 12288 = false.
Proof.
  intros H. destruct (N.eqb_spec c 12288) as [-> |]; [discriminate H | reflexivity].
Qed.

Lemma collapse_spaces_tidy (s : jsstring) :
  forall b, tidy b (collapse_spaces b s).
Proof.
  induction s as [|c s IH]; intros b; simpl; [exact I|].
  destruct (is_space c || N.eqb c 12288) eqn:E.
  - destruct b; [apply IH|]. simpl. repeat split. apply IH.
  - apply orb_false_iff in E as [E _]. simpl. rewrite E. apply IH.
Qed.

Lemma tidy_collapse_spaces (s : jsstring) :
  forall b, tidy b s -> collapse_spaces b s = s.
Proof.
  induction s as [|c s IH]; intros b H; simpl in *; [reflexivity|].
  destruct (is_space c) eqn:E.
  - destruct H as (-> & -> & H). simpl. rewrite (IH _ H). reflexivity.
  - rewrite (is_space_ideographic _ E). simpl. rewrite (IH _ H). reflexivity.
Qed.

Lemma collapse_spaces_settled (s : jsstring) :
  Forall (fun c => lower_unit c = c /\ is_joiner c = false) s ->
  forall b, Forall settled (collapse_spaces b s).
Proof.
  induction 1 as [|c s [Hl Hj] _ IH]; intros b; simpl; [constructor|].
  destruct (is_space c || N.eqb c 12288) eqn:E.
  - destruct b; [apply IH|]. constructor; [|apply IH]. split; reflexivity.
  - apply orb_false_iff in E as [E _]. constructor; [|apply IH].
    split; [exact Hl|]. rewrite (is_space_not_feff _ E). exact Hj.
Qed.

Lemma strip_zero_width_settled (s : jsstring) :
  Forall settled s -> strip_zero_width s = s.
Proof.
  unfold strip_zero_width.
  induction 1 as [|c s [_ Hz] _ IH]; simpl; [reflexivity|].
  rewrite Hz. simpl. rewrite IH. reflexivity.
Qed.

Lemma toLowerCase_settled (s : jsstring) :
  Forall settled s -> toLowerCase s = s.
Proof.
  unfold toLowerCase.
  induction 1 as [|c s [Hl _] _ IH]; simpl; [reflexivity|].
  rewrite Hl, IH. reflexivity.
Qed.

Lemma trimStart_suffix (s : jsstring) : exists w, s = w ++ trimStart s.
Proof.
  induction s as [|c s [w IH]]; simpl.
  - exists []. reflexivity.
  - destruct (is_space c).
    + exists (c :: w). simpl. rewrite <- IH. reflexivity.
    + exists []. reflexivity.
Qed.

Lemma trimStart_unspaced (s : jsstring) : starts_unspaced (trimStart s).
Proof.
  induction s as [|c s IH]; simpl; [exact I|].
  destruct (is_space c) eqn:E; [exact IH | exact E].
Qed.

Lemma trimStart_fixed (s : jsstring) : starts_unspaced s -> trimStart s = s.
Proof.
  destruct s as [|c s]; simpl; [reflexivity|]. intros ->. reflexivity.
Qed.

Lemma trimEnd_prefix (s : jsstring) : exists z, s = trimEnd s ++ z.
Proof.
  unfold trimEnd. destruct (trimStart_suffix (rev s)) as [w H].
  exists (rev w). rewrite <- rev_app_distr, <- H, rev_involutive. reflexivity.
Qed.

Lemma trimEnd_unspaced (s : jsstring) :
  starts_unspaced s -> starts_unspaced (trimEnd s).
Proof.
  intros H. destruct (trimEnd_prefix s) as [z Hz].
  destruct (trimEnd s) as [|c r]; [exact I|].
  rewrite Hz in H. exact H.
Qed.

Lemma trimEnd_idempotent (s : jsstring) : trimEnd (trimEnd s) = trimEnd s.
Proof.
  unfold trimEnd. rewrite rev_involutive.
  rewrite (trimStart_fixed _ (trimStart_unspaced (rev s))). reflexivity.
Qed.

Lemma trim_idempotent (s : jsstring) : trim (trim s) = trim s.
Proof.
  unfold trim.
  rewrite (trimStart_fixed (trimEnd (trimStart s))).
  - apply trimEnd_idempotent.
  - apply trimEnd_unspaced, trimStart_unspaced.
Qed.

Lemma tidy_trimStart (s : jsstring) :
  forall b b', tidy b s -> tidy b' (trimStart s).
Proof.
  induction s as [|c s IH]; intros b b' H; simpl in *; [exact I|].
  destruct (is_space c) eqn:E.
  - destruct H as (_ & _ & H). apply (IH _ _ H).
  - simpl. rewrite E. exact H.
Qed.

Lemma tidy_prefix (s z : jsstring) :
  forall b, tidy b (s ++ z) -> tidy b s.
Proof.
  induction s as [|c s IH]; intros b H; simpl in *; [exact I|].
  destruct (is_space c).
  - destruct H as (H1 & H2 & H). repeat split; try assumption. apply IH, H.
  - apply IH, H.
Qed.

Lemma tidy_trim (s : jsstring) (b : bool) : tidy b s -> tidy false (trim s).
Proof.
  intros H. unfold trim.
  destruct (trimEnd_prefix (trimStart s)) as [z Hz].
  apply (tidy_prefix _ z). rewrite <- Hz. apply (tidy_trimStart _ b), H.
Qed.

Lemma settled_trim (s : jsstring) : Forall settled s -> Forall settled (trim s).
Proof.
  intros H. unfold trim.
  destruct (trimStart_suffix s) as [w Hw].
  destruct (trimEnd_prefix (trimStart s)) as [z Hz].
  rewrite Hw in H. apply Forall_app in H as [_ H].
  rewrite Hz in H. apply Forall_app in H as [H _]. exact H.
Qed.


End NormalizerFacts.

(** ** Capture boundary *)

Module CaptureFacts.

Lemma len_truncation_mark : len truncation_mark = 15.
Proof. reflexivity. Qed.

(** C7, as stated, fails: a copied text of 10001 units is recorded with
    10015 units, the first 10000 and the truncation mark. *)
Lemma recorded_text_exceeds_10000 :
  exists text,
    copy_listener true false false (fun _ => false) long_selection = Some text /\
    len text = 10015 /\
    ~ len text <= 10000.
Proof.
  eexists. split; [vm_compute; reflexivity|].
  split; [vm_compute; reflexivity|].
  vm_compute. intros H. apply H. reflexivity.
Qed.

Lemma limit_text_cases (copiedText : jsstring) :
  (len copiedText <= 10000 -> limit_text copiedText = copiedText) /\
  (10000 < len copiedText ->
   limit_text copiedText = firstn (Z.to_nat 10000) copiedText ++ truncation_mark /\
   len (limit_text copiedText) = 10015).
Proof.
  unfold limit_text. split; intros H.
  - destruct (Z.ltb_spec 10000 (len copiedText)); [lia | reflexivity].
  - destruct (Z.ltb_spec 10000 (len copiedText)); [| lia].
    rewrite substring_prefix by lia. split; [reflexivity|].
    rewrite len_app, len_truncation_mark.
    unfold len in *. rewrite length_firstn. lia.
Qed.

(** C7 (amended).  Whatever the copy listener records is the trimmed
    selection itself when that has at most 10000 units, and otherwise
    its first 10000 units followed by the 15 units of the mark
    "... (truncated)"; so the recorded text has at most 10015 units. *)
Theorem recorded_text_limit :
  forall contextValid incognitoMode blacklisted shouldSkipRecording selection text,
    copy_listener contextValid incognitoMode blacklisted shouldSkipRecording
                  selection = Some text ->
    let copiedText := trim selection in
    (len copiedText <= 10000 -> text = copiedText) /\
    (10000 < len copiedText ->
     text = firstn (Z.to_nat 10000) copiedText ++ truncation_mark) /\
    len text <= 10015.
Proof.
  intros cv inc bl skip selection text H copiedText.
  unfold copy_listener in H. fold copiedText in H.
  destruct cv; simpl in H; [| discriminate].
  destruct copiedText as [|c rest] eqn:E; [discriminate|].
  destruct inc; [discriminate|]. destruct bl; [discriminate|].
  destruct (skip (limit_text (c :: rest))); [discriminate|].
  injection H as <-.
  destruct (limit_text_cases (c :: rest)) as [Hle Hgt].
  repeat split.
  - exact Hle.
  - intros Hlong. apply Hgt, Hlong.
  - destruct (Z.le_gt_cases (len (c :: rest)) 10000) as [Hs | Hl].
    + rewrite Hle by exact Hs. lia.
    + destruct (Hgt Hl) as [_ ->]. lia.
Qed.

Lemma recorded_text_limit_witness :
  copy_listener true false false (fun _ => false) (str "  quick brown fox ")
    = Some (str "quick brown fox") /\
  len (str "quick brown fox") <= 10015.
Proof.
  split; [reflexivity|].
  apply (recorded_text_limit true false false (fun _ => false)
           (str "  quick brown fox ") (str "quick brown fox")).
  reflexivity.
Defined.

End CaptureFacts.

(** ** Document tree *)

Module DomFacts.

(** Induction on nodes that reaches the children of an element. *)
Lemma node_induction (P : node -> Prop) :
  (forall d, P (Text d)) ->
  (forall t i c cs, Forall P cs -> P (Element t i c cs)) ->
  forall n, P n.
Proof.
  intros P_text P_element. fix IH 1. intros [d | t i c cs].
  - apply P_text.
  - apply P_element. induction cs as [|x cs IHcs]; constructor.
    + apply IH.
    + exact IHcs.
Qed.

Lemma flat_map_textContent_app (a b : list node) :
  flat_map textContent (a ++ b) = flat_map textContent a ++ flat_map textContent b.
Proof. apply flat_map_app. Qed.

(** Joining two adjacent text nodes beforehand does not change what
    [merge_text] makes of a child list. *)
Lemma merge_text_join (a b : jsstring) (r : list node) :
  merge_text (Text a :: Text b :: r) = merge_text (Text (a ++ b) :: r).
Proof.
  simpl. destruct (merge_text r) as [|[d'|t i c cs] r'].
  - destruct b; simpl.
    + rewrite app_nil_r. reflexivity.
    + destruct a; reflexivity.
  - rewrite app_assoc. reflexivity.
  - destruct b; simpl.
    + rewrite app_nil_r. reflexivity.
    + destruct a; reflexivity.
Qed.

Lemma merge_text_app_tail (l r1 r2 : list node) :
  merge_text r1 = merge_text r2 -> merge_text (l ++ r1) = merge_text (l ++ r2).
Proof.
  intros H. induction l as [|[d|t i c cs] l IH]; simpl.
  - exact H.
  - rewrite IH. reflexivity.
  - rewrite IH. reflexivity.
Qed.

Lemma textContent_merge_text (cs : list node) :
  flat_map textContent (merge_text cs) = flat_map textContent cs.
Proof.
  induction cs as [|[d|t i c ks] cs IH]; simpl.
  - reflexivity.
  - rewrite <- IH. destruct (merge_text cs) as [|[d'|t i c ks] r]; simpl.
    + destruct d; simpl; [reflexivity | rewrite app_nil_r; reflexivity].
    + rewrite app_assoc. reflexivity.
    + destruct d; reflexivity.
  - rewrite IH. reflexivity.
Qed.

Lemma textContent_normalize (n : node) : textContent (normalize n) = textContent n.
Proof.
  induction n as [d | t i c cs IH] using node_induction; simpl.
  - reflexivity.
  - rewrite textContent_merge_text.
    induction IH as [|x l Hx _ IHl]; simpl.
    + reflexivity.
    + rewrite Hx, IHl. reflexivity.
Qed.

Lemma merge_text_merged (cs : list node) : merged (merge_text cs).
Proof.
  induction cs as [|[d|t i c ks] cs IH]; simpl.
  - exact I.
  - destruct (merge_text cs) as [|[d'|t i c ks] r] eqn:E; simpl in *.
    + destruct d; simpl; [exact I | repeat split; discriminate].
    + destruct IH as (Hd' & Hr & Hm). repeat split; try assumption.
      intros Habs. apply app_eq_nil in Habs. tauto.
    + destruct d; simpl; [exact IH | repeat split; try discriminate; exact IH].
  - exact IH.
Qed.

Lemma nth_error_middle (A : Type) (l : list A) (k : nat) (x : A) (r : list A) :
  (k < List.length l)%nat -> nth_error (firstn k l ++ x :: r) k = Some x.
Proof.
  intros H. rewrite nth_error_app2; rewrite length_firstn, Nat.min_l by lia.
  - rewrite Nat.sub_diag. reflexivity.
  - lia.
Qed.

Lemma nth_error_split (A : Type) (l : list A) (k : nat) (x : A) :
  nth_error l k = Some x -> l = firstn k l ++ x :: skipn (S k) l.
Proof.
  revert k. induction l as [|y l IH]; intros [|k] H; simpl in *; try discriminate.
  - congruence.
  - f_equal. apply IH, H.
Qed.

Lemma path_last_split (p : path) (k : nat) :
  parent_path (p ++ [k]) = p /\ mark_path (p ++ [k]) = p ++ [S k].
Proof.
  split.
  - apply removelast_last.
  - unfold mark_path. rewrite rev_app_distr. simpl. rewrite rev_involutive.
    reflexivity.
Qed.

(** What a successful [splice] has done: the path ends in a child index
    of an element, and the element's children are the old ones with the
    child replaced by the nodes [f] made of it. *)
Lemma splice_inv (f : node -> option (list node)) (p : path) :
  forall n n', splice n p f = Some n' ->
    exists pp k t i c cs x ys,
      p = pp ++ [k] /\
      get_node n pp = Some (Element t i c cs) /\
      nth_error cs k = Some x /\
      f x = Some ys /\
      get_node n' pp = Some (Element t i c (firstn k cs ++ ys ++ skipn (S k) cs)).
Proof.
  induction p as [|k p IH]; intros n n' H.
  - destruct n; discriminate.
  - destruct n as [d | t i c cs]; [discriminate|].
    destruct p as [|k2 p2].
    + simpl in H. destruct (nth_error cs k) as [x|] eqn:Ex; [|discriminate].
      destruct (f x) as [ys|] eqn:Ef; [|discriminate].
      injection H as <-.
      exists [], k, t, i, c, cs, x, ys. repeat split; assumption.
    + change (splice (Element t i c cs) (k :: k2 :: p2) f)
        with (match nth_error cs k with
              | Some x =>
                  match splice x (k2 :: p2) f with
                  | Some x' => Some (Element t i c (firstn k cs ++ x' :: skipn (S k) cs))
                  | None => None
                  end
              | None => None
              end) in H.
      destruct (nth_error cs k) as [x|] eqn:Ex; [|discriminate].
      destruct (splice x (k2 :: p2) f) as [x'|] eqn:Es; [|discriminate].
      injection H as <-.
      destruct (IH _ _ Es) as (pp & k' & t' & i' & c' & cs' & y & ys
                                & Hp & Hg & Hn & Hf & Hg').
      exists (k :: pp), k', t', i', c', cs', y, ys.
      repeat split; try assumption.
      * rewrite Hp. reflexivity.
      * simpl. rewrite Ex. exact Hg.
      * simpl. rewrite nth_error_middle.
        -- exact Hg'.
        -- apply nth_error_Some. congruence.
Qed.

(** [splice] succeeds on a child of an element that [f] accepts. *)
Lemma splice_defined (f : node -> option (list node)) (pp : path) :
  forall n k t i c cs x ys,
    get_node n pp = Some (Element t i c cs) ->
    nth_error cs k = Some x ->
    f x = Some ys ->
    exists n', splice n (pp ++ [k]) f = Some n'.
Proof.
  induction pp as [|j pp IH]; intros n k t i c cs x ys Hg Hn Hf.
  - simpl in Hg. injection Hg as ->. simpl. rewrite Hn, Hf. eauto.
  - simpl in Hg. destruct n as [d | t0 i0 c0 cs0]; simpl in Hg.
    + destruct j; discriminate.
    + destruct (nth_error cs0 j) as [y|] eqn:Ey; [|discriminate].
      destruct (IH y k t i c cs x ys Hg Hn Hf) as [y' Hy'].
      assert (Hne : pp ++ [k] <> []) by (destruct pp; discriminate).
      rewrite <- app_comm_cons.
      destruct (pp ++ [k]) as [|k2 p2] eqn:Ep; [congruence|].
      change (splice (Element t0 i0 c0 cs0) (j :: k2 :: p2) f)
        with (match nth_error cs0 j with
              | Some x =>
                  match splice x (k2 :: p2) f with
                  | Some x' => Some (Element t0 i0 c0 (firstn j cs0 ++ x' :: skipn (S j) cs0))
                  | None => None
                  end
              | None => None
              end).
      rewrite Ey, Hy'. eauto.
Qed.

(** A [splice] that keeps the text of the node it replaces keeps the text
    of the whole tree. *)
Lemma splice_textContent (f : node -> option (list node)) :
  (forall x ys, f x = Some ys -> flat_map textContent ys = textContent x) ->
  forall p n n', splice n p f = Some n' -> textContent n' = textContent n.
Proof.
  intros Hf. induction p as [|k p IH]; intros n n' H.
  - destruct n; discriminate.
  - destruct n as [d | t i c cs]; [discriminate|].
    destruct p as [|k2 p2].
    + simpl in H. destruct (nth_error cs k) as [x|] eqn:Ex; [|discriminate].
      destruct (f x) as [ys|] eqn:Ef; [|discriminate].
      injection H as <-. simpl.
      rewrite (nth_error_split _ cs k x Ex) at 3.
      rewrite !flat_map_textContent_app. simpl.
      rewrite (Hf _ _ Ef). reflexivity.
    + change (splice (Element t i c cs) (k :: k2 :: p2) f)
        with (match nth_error cs k with
              | Some x =>
                  match splice x (k2 :: p2) f with
                  | Some x' => Some (Element t i c (firstn k cs ++ x' :: skipn (S k) cs))
                  | None => None
                  end
              | None => None
              end) in H.
      destruct (nth_error cs k) as [x|] eqn:Ex; [|discriminate].
      destruct (splice x (k2 :: p2) f) as [x'|] eqn:Es; [|discriminate].
      injection H as <-. simpl.
      rewrite (nth_error_split _ cs k x Ex) at 3.
      rewrite !flat_map_textContent_app. simpl.
      rewrite (IH _ _ Es). reflexivity.
Qed.

Lemma update_node_spec (f : node -> node) (p : path) :
  forall n x, get_node n p = Some x ->
    exists n', update_node n p f = Some n' /\ get_node n' p = Some (f x).
Proof.
  induction p as [|k p IH]; intros n x H.
  - simpl in *. injection H as ->. eauto.
  - destruct n as [d | t i c cs]; simpl in H.
    + destruct k; discriminate.
    + destruct (nth_error cs k) as [y|] eqn:Ey; [|discriminate].
      destruct (IH y x H) as (y' & Hu & Hg).
      simpl. rewrite Ey, Hu. eexists. split; [reflexivity|].
      simpl. rewrite nth_error_middle; [exact Hg|].
      apply nth_error_Some. congruence.
Qed.

Lemma update_node_textContent (f : node -> node) :
  (forall x, textContent (f x) = textContent x) ->
  forall p n n', update_node n p f = Some n' -> textContent n' = textContent n.
Proof.
  intros Hf. induction p as [|k p IH]; intros n n' H.
  - simpl in H. injection H as <-. apply Hf.
  - destruct n as [d | t i c cs]; [discriminate|]. simpl in H.
    destruct (nth_error cs k) as [y|] eqn:Ey; [|discriminate].
    destruct (update_node y p f) as [y'|] eqn:Eu; [|discriminate].
    injection H as <-. simpl.
    rewrite (nth_error_split _ cs k y Ey) at 3.
    rewrite !flat_map_textContent_app. simpl.
    rewrite (IH _ _ Eu). reflexivity.
Qed.

(** The three nodes a wrapped text node turns into carry its text. *)
Lemma surround_text_textContent (s e : Z) (x : node) (ys : list node) :
  surround_text s e x = Some ys -> flat_map textContent ys = textContent x.
Proof.
  destruct x as [d | t i c cs]; simpl; [|discriminate].
  destruct ((s <? 0) || (len d <? s) || (e <? 0) || (len d <? e)) eqn:E;
    [discriminate|].
  apply orb_false_iff in E as [E He]. apply orb_false_iff in E as [E He0].
  apply orb_false_iff in E as [Hs0 Hs].
  apply Z.ltb_ge in He, He0, Hs0, Hs.
  intros H. injection H as <-. simpl. rewrite app_nil_r.
  destruct (Z.ltb_spec (Z.min s e) e) as [Hlt | Hge]; simpl.
  - rewrite app_nil_r. apply substring_split3; lia.
  - replace (Z.min s e) with e by lia. apply substring_split2. lia.
Qed.

End DomFacts.

Import DomFacts.

(** ** Highlight lifecycle *)

Module LifecycleFacts.

Lemma around_mark (A : Type) (L : list A) (a m c : A) (R : list A) :
  nth_error (L ++ a :: m :: c :: R) (S (List.length L)) = Some m /\
  firstn (S (List.length L)) (L ++ a :: m :: c :: R) = L ++ [a] /\
  skipn (S (S (List.length L))) (L ++ a :: m :: c :: R) = c :: R.
Proof.
  induction L as [|x L IH]; simpl.
  - repeat split.
  - destruct IH as (H1 & H2 & H3). repeat split.
    + exact H1.
    + simpl in H2. rewrite H2. reflexivity.
    + exact H3.
Qed.

Lemma surround_text_inv (s e : Z) (x : node) (ys : list node) :
  surround_text s e x = Some ys ->
  exists d content,
    x = Text d /\
    ys = [Text (substring d 0 (Z.min s e)); highlightMark content;
          Text (substring_from d e)] /\
    substring d 0 (Z.min s e) ++ flat_map textContent content
      ++ substring_from d e = d.
Proof.
  intros H. pose proof (surround_text_textContent _ _ _ _ H) as Ht.
  destruct x as [d | t i c cs]; simpl in H; [|discriminate].
  destruct ((s <? 0) || (len d <? s) || (e <? 0) || (len d <? e)); [discriminate|].
  injection H as <-. eexists d, _. repeat split.
  simpl in Ht. rewrite !app_nil_r in Ht. exact Ht.
Qed.

(** C9.  A text node wrapped in a mark and the mark removed by its timer:
    the mark is replaced by a text node with exactly the mark's text,
    the parent is then normalised, which joins that node with the text
    nodes next to it, and the parent ends up as the normal form of what
    it was before the mark was created; its text content, and that of the
    whole document, is the same as before. *)
Theorem unwrap_restores_text :
  forall (p : page) (r : range) (mark : path) (p1 : page),
    surroundContents r p = Normal mark p1 ->
    exists (tag id cls d pre post : jsstring) (before after content : list node),
      get_node (document p) (parent_path mark)
        = Some (Element tag id cls (before ++ Text d :: after)) /\
      get_node (document p1) (parent_path mark)
        = Some (Element tag id cls
                  (before ++ Text pre :: highlightMark content :: Text post :: after)) /\
      get_node (document p1) mark = Some (highlightMark content) /\
      get_node (document (timer_fires mark p1)) (parent_path mark)
        = Some (Element tag id cls
                  (merge_text
                     (map normalize
                        (before ++ Text pre :: Text (textContent (highlightMark content))
                                :: Text post :: after)))) /\
      get_node (document (timer_fires mark p1)) (parent_path mark)
        = Some (normalize (Element tag id cls (before ++ Text d :: after))) /\
      textContent (normalize (Element tag id cls (before ++ Text d :: after)))
        = textContent (Element tag id cls (before ++ Text d :: after)) /\
      textContent (document (timer_fires mark p1)) = textContent (document p).
Proof.
  intros p r mark p1 H. unfold surroundContents in H.
  destruct (splice (document p) (r_node r) (surround_text (r_start r) (r_end r)))
    as [d1|] eqn:Es; [|discriminate].
  injection H as <- <-.
  destruct (splice_inv _ _ _ _ Es)
    as (pp & k & t & i & c & cs & x & ys & Hp & Hg & Hn & Hf & Hg1).
  destruct (surround_text_inv _ _ _ _ Hf) as (d & content & -> & -> & Hd).
  rewrite Hp. destruct (path_last_split pp k) as [_ Hm]. rewrite Hm.
  destruct (path_last_split pp (S k)) as [Hpar _]. rewrite Hpar.
  set (pre := substring d 0 (Z.min (r_start r) (r_end r))) in *.
  set (post := substring_from d (r_end r)) in *.
  set (L := firstn k cs) in *. set (R := skipn (S k) cs) in *.
  assert (HL : List.length L = k).
  { unfold L. rewrite length_firstn. apply Nat.min_l.
    apply Nat.lt_le_incl, nth_error_Some. congruence. }
  assert (Hcs : cs = L ++ Text d :: R) by (apply nth_error_split, Hn).
  simpl app in Hg1.
  destruct (around_mark _ L (Text pre) (highlightMark content) (Text post) R)
    as (Hnth & Hfirst & Hskip).
  rewrite HL in Hnth, Hfirst, Hskip.
  destruct (splice_defined replace_by_text pp (with_document p d1).(document)
              (S k) t i c _ _ _ Hg1 Hnth eq_refl) as [d2 Hd2].
  simpl in Hd2.
  destruct (splice_inv _ _ _ _ Hd2)
    as (pp' & k' & t' & i' & c' & cs' & x' & ys' & Hp' & Hg' & Hn' & Hf' & Hg2).
  apply app_inj_tail in Hp' as [<- <-].
  rewrite Hg1 in Hg'. injection Hg' as <- <- <- <-.
  rewrite Hnth in Hn'. injection Hn' as <-.
  injection Hf' as <-.
  rewrite Hfirst, Hskip in Hg2. rewrite <- app_assoc in Hg2. simpl app in Hg2.
  destruct (update_node_spec normalize pp d2 _ Hg2) as (d3 & Hu & Hg3).
  assert (Hfire : document (timer_fires (pp ++ [S k]) (with_document p d1)) = d3).
  { simpl. unfold remove_mark.
    destruct (pp ++ [S k]) as [|a q] eqn:Epq.
    - destruct pp; discriminate.
    - rewrite Hd2, Hpar, Hu. reflexivity. }
  rewrite Hfire.
  assert (Hnorm :
    merge_text (map normalize
      (L ++ Text pre :: Text (textContent (highlightMark content)) :: Text post :: R))
    = merge_text (map normalize (L ++ Text d :: R))).
  { rewrite !map_app. apply merge_text_app_tail. simpl map.
    rewrite 2 merge_text_join. rewrite <- app_assoc.
    rewrite Hd. reflexivity. }
  exists t, i, c, d, pre, post, L, R, content.
  split; [rewrite <- Hcs; exact Hg|].
  split; [exact Hg1|].
  split.
  { clear - Hg1 Hnth. revert Hg1 Hnth. simpl document.
    generalize (L ++ Text pre :: highlightMark content :: Text post :: R).
    intros l Hg1 Hnth. revert d1 Hg1.
    induction pp as [|j pp IH]; intros d1 Hg1; simpl in *.
    - injection Hg1 as ->. simpl. rewrite Hnth. reflexivity.
    - destruct (nth_error (childNodes d1) j); [|discriminate]. apply IH, Hg1. }
  split; [exact Hg3|].
  split; [rewrite Hg3; cbn [normalize]; do 2 f_equal; exact Hnorm|].
  split; [apply textContent_normalize|].
  rewrite (update_node_textContent normalize textContent_normalize _ _ _ Hu).
  rewrite (splice_textContent replace_by_text) with (p := pp ++ [S k]) (n := d1).
  - apply (splice_textContent _ (surround_text_textContent (r_start r) (r_end r)))
      with (p := pp ++ [k]).
    rewrite <- Hp. exact Es.
  - intros y zs Hz. injection Hz as <-. simpl. apply app_nil_r.
  - exact Hd2.
Qed.

End LifecycleFacts.

(** ** Multi-match scorer *)

Module ScorerFacts.

Ltac split_ifs :=
  repeat match goal with
         | |- context [if ?b then _ else _] => destruct b
         end.

(** C5.  Take an anchor with a non-empty [textBefore] and two candidates
    that differ only in the text before the match (same parent element,
    same text after the match).  If the normalised text before the first
    candidate ends with the anchor's normalised [textBefore] and that of
    the second does not, the first scores strictly more.  The same holds
    for [textAfter] and the text after the match, with "starts with" in
    place of "ends with". *)
Theorem context_match_raises_score :
  (forall (si : Sel.t) (hit miss : text_node) (i j : Z),
      Sel.textBefore si <> [] ->
      same_parent hit miss ->
      text_after_match hit i si = text_after_match miss j si ->
      endsWith (normalizeText (text_before_match hit i))
               (normalizeText (Sel.textBefore si)) = true ->
      endsWith (normalizeText (text_before_match miss j))
               (normalizeText (Sel.textBefore si)) = false ->
      calculateContextScore miss j (Some si) < calculateContextScore hit i (Some si))
  /\
  (forall (si : Sel.t) (hit miss : text_node) (i j : Z),
      Sel.textAfter si <> [] ->
      same_parent hit miss ->
      text_before_match hit i = text_before_match miss j ->
      startsWith (normalizeText (text_after_match hit i si))
                 (normalizeText (Sel.textAfter si)) = true ->
      startsWith (normalizeText (text_after_match miss j si))
                 (normalizeText (Sel.textAfter si)) = false ->
      calculateContextScore miss j (Some si) < calculateContextScore hit i (Some si)).
Proof.
  unfold text_before_match, text_after_match, same_parent.
  split; intros si hit miss i j Hne [Htag Hcls] Hsame Hhit Hmiss;
    unfold calculateContextScore;
    rewrite Hhit, Hmiss, Hsame, Htag, Hcls;
    (destruct (Sel.textBefore si) eqn:Eb; [try congruence|]);
    (destruct (Sel.textAfter si) eqn:Ea; [try congruence|]);
    cbn [truthy]; split_ifs; lia.
Qed.

Lemma context_match_raises_score_witness :
  calculateContextScore (order_node "order #12345 confirmed") 0 (Some order_anchor)
  < calculateContextScore (order_node "your recent order #12345 confirmed") 12
                          (Some order_anchor)
  /\
  calculateContextScore (order_node "order #12345 cancelled") 0 (Some order_anchor)
  < calculateContextScore (order_node "order #12345 confirmed") 0 (Some order_anchor).
Proof.
  split.
  - apply (proj1 context_match_raises_score order_anchor
             (order_node "your recent order #12345 confirmed")
             (order_node "order #12345 confirmed") 12 0).
    + discriminate.
    + split; reflexivity.
    + reflexivity.
    + reflexivity.
    + reflexivity.
  - apply (proj2 context_match_raises_score order_anchor
             (order_node "order #12345 confirmed")
             (order_node "order #12345 cancelled") 0 0).
    + discriminate.
    + split; reflexivity.
    + reflexivity.
    + reflexivity.
    + reflexivity.
Defined.

(** The scores stay within 10 and 100. *)
Lemma calculateContextScore_range (node : text_node) (i : Z) (si : option Sel.t) :
  10 <= calculateContextScore node i si <= 100.
Proof.
  unfold calculateContextScore. destruct si as [si|]; [|lia].
  split_ifs; lia.
Qed.

(** The list [occurrences] builds is the one the loop of
    [findAllMatchesWithScoring] goes through: the first index is what
    [indexOf] finds from the search start, and the rest is what the loop
    finds from the unit after that index. *)
Lemma scan_from (t s : jsstring) (pos : Z) :
  scan t s pos = -1 \/ pos <= scan t s pos <= pos + len s.
Proof.
  revert pos. induction s as [|c s IH]; intros pos; cbn [scan].
  - destruct (prefixb t []); [right; unfold len; simpl; lia | left; reflexivity].
  - destruct (prefixb t (c :: s)).
    + right. pose proof (len_nonneg (c :: s)). lia.
    + destruct (IH (pos + 1)) as [-> | H]; [left; reflexivity | right].
      unfold len in *. simpl List.length. lia.
Qed.

Lemma occurrences_loop (normalizedSearch rest : jsstring) (searchStart : Z) :
  normalizedSearch <> [] ->
  0 <= searchStart ->
  occurrences normalizedSearch rest searchStart
  = let index := scan normalizedSearch rest searchStart in
    if index =? -1 then []
    else index :: occurrences normalizedSearch
                    (skipn (Z.to_nat (index + 1 - searchStart)) rest) (index + 1).
Proof.
  intros Hne. revert searchStart.
  induction rest as [|c rest IH]; intros pos Hpos.
  - simpl. destruct normalizedSearch; [congruence | reflexivity].
  - cbn [occurrences scan]. destruct (prefixb normalizedSearch (c :: rest)).
    + cbv zeta. destruct (Z.eqb_spec pos (-1)); [lia|].
      replace (pos + 1 - pos) with 1 by lia. reflexivity.
    + rewrite IH by lia. cbv zeta.
      destruct (scan_from normalizedSearch rest (pos + 1)) as [-> | Hge];
        [reflexivity|].
      destruct (Z.eqb_spec (scan normalizedSearch rest (pos + 1)) (-1)); [lia|].
      replace (Z.to_nat (scan normalizedSearch rest (pos + 1) + 1 - pos))
        with (S (Z.to_nat (scan normalizedSearch rest (pos + 1) + 1 - (pos + 1))))
        by lia.
      reflexivity.
Qed.

Lemma occurrences_indexOf (normalizedSearch normalizedNode : jsstring) :
  normalizedSearch <> [] ->
  occurrences normalizedSearch normalizedNode 0
  = let index := indexOf_from normalizedNode normalizedSearch 0 in
    if index =? -1 then []
    else index :: occurrences normalizedSearch
                    (skipn (Z.to_nat (index + 1)) normalizedNode) (index + 1).
Proof.
  intros Hne. rewrite occurrences_loop by (assumption || lia).
  unfold indexOf_from. rewrite clamp_id by (pose proof (len_nonneg normalizedNode); lia).
  simpl skipn. cbv zeta.
  destruct (scan normalizedSearch normalizedNode 0 =? -1); [reflexivity|].
  rewrite Z.sub_0_r. reflexivity.
Qed.

(** [sort_by_score] keeps the matches and puts them in descending order
    of score. *)
Lemma insert_scored_In (x y : scored) (l : list scored) :
  In y (insert_scored x l) <-> y = x \/ In y l.
Proof.
  induction l as [|z l IH]; simpl.
  - intuition auto.
  - destruct (m_score x <? m_score z); simpl; rewrite ?IH; intuition auto.
Qed.

Lemma sort_by_score_In (y : scored) (l : list scored) :
  In y (sort_by_score l) <-> In y l.
Proof.
  induction l as [|x l IH]; simpl; [tauto|].
  rewrite insert_scored_In, IH. intuition auto.
Qed.

Lemma insert_scored_descending (x : scored) (l : list scored) :
  descending l -> descending (insert_scored x l).
Proof.
  unfold descending. induction 1 as [|z l Hl IH Hz]; simpl.
  - constructor; constructor.
  - destruct (Z.ltb_spec (m_score x) (m_score z)).
    + constructor; [exact IH|].
      apply Forall_forall. intros y Hy. apply insert_scored_In in Hy as [-> | Hy].
      * lia.
      * rewrite Forall_forall in Hz. apply Hz, Hy.
    + constructor; [constructor; assumption|].
      constructor; [lia|].
      rewrite Forall_forall in *. intros y Hy. specialize (Hz y Hy). lia.
Qed.

Lemma sort_by_score_descending (l : list scored) : descending (sort_by_score l).
Proof.
  induction l as [|x l IH]; simpl.
  - constructor.
  - apply insert_scored_descending, IH.
Qed.

(** The first match of the sorted list has the highest score. *)
Lemma sort_by_score_head (l : list scored) (best : scored) (others : list scored) :
  sort_by_score l = best :: others ->
  forall m, In m l -> m_score m <= m_score best.
Proof.
  intros E m Hm. apply sort_by_score_In in Hm. rewrite E in Hm.
  pose proof (sort_by_score_descending l) as Hd. rewrite E in Hd.
  inversion Hd as [|? ? _ Hall]; subst.
  destruct Hm as [<- | Hm]; [lia|].
  rewrite Forall_forall in Hall. apply Hall, Hm.
Qed.

(** Matches with the same score keep the order they were found in. *)
Lemma insert_scored_stable (x : scored) (l : list scored) :
  Forall (fun y => m_score y <= m_score x) l -> insert_scored x l = x :: l.
Proof.
  intros H. destruct l as [|y l]; simpl; [reflexivity|].
  inversion H; subst. destruct (Z.ltb_spec (m_score x) (m_score y)); [lia|reflexivity].
Qed.

End ScorerFacts.

Import ScorerFacts.

(** ** Method 1 *)

Module XPathFacts.

(** The steps of the monad, for rewriting. *)
Lemma bind_Normal (A B : Type) (m : M A) (k : A -> M B) (p p' : page) (a : A) :
  m p = Normal a p' -> bind m k p = k a p'.
Proof. unfold bind. intros ->. reflexivity. Qed.

Lemma bind_Throw (A B : Type) (m : M A) (k : A -> M B) (p p' : page) :
  m p = Throw p' -> bind m k p = Throw p'.
Proof. unfold bind. intros ->. reflexivity. Qed.

Lemma setRange_Normal (t : text_node) (s e : Z) (p : page) :
  0 <= s -> s < e -> e <= len (tn_data t) ->
  setRange t s e p = Normal (mk_range (tn_path t) (tn_data t) s e) p.
Proof.
  intros Hs Hse He. unfold setRange.
  destruct (Z.ltb_spec s 0); [lia|].
  destruct (Z.ltb_spec (len (tn_data t)) s); [lia|].
  destruct (Z.ltb_spec e 0); [lia|].
  destruct (Z.ltb_spec (len (tn_data t)) e); [lia|].
  simpl. rewrite Z.min_l by lia. reflexivity.
Qed.

Lemma setRange_cases (t : text_node) (s e : Z) (p : page) :
  setRange t s e p = Throw p \/
  setRange t s e p = Normal (mk_range (tn_path t) (tn_data t) (Z.min s e) e) p.
Proof.
  unfold setRange.
  destruct ((s <? 0) || (len (tn_data t) <? s) || (e <? 0) || (len (tn_data t) <? e));
    [left | right]; reflexivity.
Qed.

(** What [validate_mark] can answer. *)
Lemma validate_mark_true (mark : path) (p p' : page) :
  validate_mark mark p = Normal true p' ->
  exists m b,
    get_node (document p) mark = Some m /\
    body (document p) = Some b /\
    is_prefix b mark = true /\
    trim (textContent m) <> [] /\
    p' = mk_page (document p) (scrolledToTop p) (scrolledIntoView p ++ [mark])
                 (timers p ++ [mark]).
Proof.
  unfold validate_mark, bind, get_document.
  destruct (get_node (document p) mark) as [m|] eqn:Em; [|discriminate].
  destruct (body (document p)) as [b|] eqn:Eb; [|discriminate].
  destruct (is_prefix b mark) eqn:Ep; simpl; [|discriminate].
  destruct (0 <? len (trim (textContent m))) eqn:El; simpl.
  - intros H. injection H as <-. exists m, b. repeat split; try assumption.
    intros Hnil. rewrite Hnil in El. discriminate.
  - unfold removeChild.
    destruct (splice (document p) mark (fun _ => Some [])); discriminate.
Qed.

Ltac declined :=
  repeat split; intros; try reflexivity; try lia; try discriminate; try congruence.

(** C3.  With the address resolved to a text node, method 1 takes
    [actualOffset = min(offset, node.length)] and
    [endOffset = min(actualOffset + length, node.length)]; it declines
    when [actualOffset >= endOffset]; with a non-empty [originalText] it
    declines when the normalised slice and the normalised [originalText]
    differ on their first [min(30, both lengths)] units and that number is
    at least 5; and when it succeeds, what it has wrapped is the slice
    from [actualOffset] to [endOffset] of that text node. *)
Theorem address_guided_match :
  forall (si : Sel.t) (p : page) (x : xpath) (element : path) (offset : Z)
         (textNode : text_node),
    Sel.xpath si = Some x ->
    getElementByXPath (document p) x = Some element ->
    Sel.offset si = Some offset ->
    findTextNode (document p) element offset = Some textNode ->
    let actualOffset := Z.min offset (len (tn_data textNode)) in
    let endOffset := Z.min (actualOffset + Sel.length si) (len (tn_data textNode)) in
    let normalizedFound :=
      normalizeText (substring (tn_data textNode) actualOffset endOffset) in
    let normalizedOriginal := normalizeText (Sel.originalText si) in
    let common := Z.min (Z.min (len normalizedFound) (len normalizedOriginal)) 30 in
    (endOffset <= actualOffset -> tryXPathHighlight si p = Normal false p) /\
    (Sel.originalText si <> [] ->
     5 <= common ->
     substring normalizedFound 0 common <> substring normalizedOriginal 0 common ->
     tryXPathHighlight si p = Normal false p) /\
    (forall p', tryXPathHighlight si p = Normal true p' ->
       actualOffset < endOffset /\
       splice (document p) (tn_path textNode) (surround_text actualOffset endOffset)
         = Some (document p')).
Proof.
  intros si p x element offset textNode Hx Hel Hoff Hfind
         actualOffset endOffset normalizedFound normalizedOriginal common.
  assert (Hend : endOffset <= len (tn_data textNode))
    by (unfold endOffset; lia).
  assert (Hbody : tryXPathHighlight_body si p =
    if (endOffset <=? actualOffset) || (len (tn_data textNode) <? endOffset)
    then Normal false p
    else bind (setRange textNode actualOffset endOffset)
           (fun range =>
              let foundText := range_toString range in
              if negb (0 <? len (trim foundText)) then ret false
              else if text_mismatch foundText (Sel.originalText si) then ret false
              else bind (surroundContents range) validate_mark) p).
  { unfold tryXPathHighlight_body, bind at 1, get_document.
    rewrite Hx, Hel, Hoff, Hfind. fold actualOffset endOffset.
    destruct ((endOffset <=? actualOffset) || (len (tn_data textNode) <? endOffset));
      reflexivity. }
  unfold tryXPathHighlight, try_catch. rewrite Hbody. clear Hbody.
  destruct (Z.leb_spec endOffset actualOffset) as [Hle | Hlt]; simpl orb.
  { declined. }
  destruct (Z.ltb_spec (len (tn_data textNode)) endOffset) as [Hbad | _]; [lia|].
  destruct (setRange_cases textNode actualOffset endOffset p) as [Ethrow | Erange].
  { rewrite (bind_Throw _ _ _ _ _ _ Ethrow). declined. }
  rewrite (bind_Normal _ _ _ _ _ _ _ Erange). clear Erange.
  replace (Z.min actualOffset endOffset) with actualOffset by lia.
  unfold range_toString. cbn [r_data r_start r_end].
  fold normalizedFound.
  destruct (negb (0 <? len (trim (substring (tn_data textNode) actualOffset endOffset))));
    [declined|].
  unfold text_mismatch. fold normalizedFound normalizedOriginal. fold common.
  split; [lia|]. split.
  - intros Hne H5 Hdiff.
    destruct (Z.ltb_spec 0 (len (Sel.originalText si))) as [_ | Hzero].
    + destruct (Z.leb_spec 5 common); [|lia].
      apply eqb_neq in Hdiff. rewrite Hdiff. reflexivity.
    + exfalso. apply Hne, len_nil_iff. pose proof (len_nonneg (Sel.originalText si)). lia.
  - intros p' H. split; [lia|].
    destruct (if 0 <? len (Sel.originalText si)
              then (5 <=? common)
                   && negb (JsString.eqb (substring normalizedFound 0 common)
                                         (substring normalizedOriginal 0 common))
              else false); [discriminate|].
    unfold bind, surroundContents in H. cbn [r_node r_start r_end] in H.
    destruct (splice (document p) (tn_path textNode)
                (surround_text actualOffset endOffset)) as [d|] eqn:Es;
      [|discriminate].
    destruct (validate_mark (mark_path (tn_path textNode)) (with_document p d))
      as [b q | q] eqn:Ev; [|discriminate].
    injection H as -> <-.
    apply validate_mark_true in Ev as (m & b & _ & _ & _ & _ & ->).
    reflexivity.
Qed.

End XPathFacts.

Import XPathFacts.

(** ** Method 2 *)

Module ScoredMatchFacts.

Lemma findAllMatchesWithScoring_descending
      (searchText : jsstring) (si : option Sel.t) (p p' : page) (matches : list scored) :
  findAllMatchesWithScoring searchText si p = Normal matches p' ->
  descending matches /\ p' = p.
Proof.
  unfold findAllMatchesWithScoring, bind, bodyWalker, ret.
  destruct (len (normalizeText searchText) <? 3).
  - intros H. injection H as <- <-. split; [constructor | reflexivity].
  - destruct (body (document p)); [|discriminate].
    intros H. injection H as <- <-.
    split; [apply sort_by_score_descending | reflexivity].
Qed.

Lemma descending_head (best : scored) (others : list scored) :
  descending (best :: others) ->
  forall m, In m (best :: others) -> m_score m <= m_score best.
Proof.
  intros Hd m [<- | Hm]; [lia|].
  inversion Hd as [|? ? _ Hall]; subst.
  rewrite Forall_forall in Hall. apply Hall, Hm.
Qed.

(** C4.  Method 2 with at least 5 normalised units to search for, on the
    matches [findAllMatchesWithScoring] returns, whatever the step that
    applies a match does.  The threshold is 40 below 15 normalised units
    and 20 from there on.  The first match has the highest score and is
    the one applied, and only if its score reaches the threshold.  If
    applying it throws, the second match is applied provided its score
    reaches the same threshold.  The method declines when no match
    reaches the threshold, and after the second failure; it never
    throws. *)
Theorem scored_exact_match :
  forall (apply : jsstring -> scored -> M bool)
         (originalText : jsstring) (si : option Sel.t) (p : page)
         (matches : list scored),
    let normalizedSearch := normalizeText originalText in
    let threshold := if len normalizedSearch <? 15 then 40 else 20 in
    let result := exactMatchWithScoring apply originalText si p in
    5 <= len normalizedSearch ->
    findAllMatchesWithScoring originalText si p = Normal matches p ->
    minScore normalizedSearch = threshold /\
    (exists b p', result = Normal b p') /\
    ((forall m, In m matches -> m_score m < threshold) -> result = Normal false p) /\
    match matches with
    | [] => result = Normal false p
    | best :: others =>
        (forall m, In m matches -> m_score m <= m_score best) /\
        (m_score best < threshold -> result = Normal false p) /\
        (threshold <= m_score best ->
         (forall b p1,
             apply originalText best p = Normal b p1 -> result = Normal b p1) /\
         (forall p1,
             apply originalText best p = Throw p1 ->
             match others with
             | [] => result = Normal false p1
             | second :: _ =>
                 (m_score second < threshold -> result = Normal false p1) /\
                 (threshold <= m_score second ->
                  (forall b p2,
                      apply originalText second p1 = Normal b p2 ->
                      result = Normal b p2) /\
                  (forall p2,
                      apply originalText second p1 = Throw p2 ->
                      result = Normal false p2))
             end))
    end.
Proof.
  intros apply originalText si p matches normalizedSearch threshold result H5 Hfind.
  destruct (findAllMatchesWithScoring_descending _ _ _ _ _ Hfind) as [Hdesc _].
  assert (Hmin : minScore normalizedSearch = threshold) by reflexivity.
  assert (Hresult : result =
    match matches with
    | [] => Normal false p
    | bestMatch :: others =>
        if m_score bestMatch <? threshold then Normal false p
        else
          match apply originalText bestMatch p with
          | Normal a p' => Normal a p'
          | Throw p' =>
              match others with
              | secondMatch :: _ =>
                  if threshold <=? m_score secondMatch then
                    match apply originalText secondMatch p' with
                    | Normal a p'' => Normal a p''
                    | Throw p'' => Normal false p''
                    end
                  else Normal false p'
              | [] => Normal false p'
              end
          end
    end).
  { unfold result, exactMatchWithScoring. fold normalizedSearch.
    destruct (Z.ltb_spec (len normalizedSearch) 5); [lia|].
    rewrite (bind_Normal _ _ _ _ _ _ _ Hfind). rewrite Hmin.
    destruct matches as [|best others]; [reflexivity|].
    destruct (m_score best <? threshold); [reflexivity|].
    unfold try_catch. destruct (apply originalText best p); [reflexivity|].
    destruct others as [|second rest]; [reflexivity|].
    destruct (threshold <=? m_score second); reflexivity. }
  split; [exact Hmin|].
  split.
  { rewrite Hresult. destruct matches as [|best others]; [eauto|].
    destruct (m_score best <? threshold); [eauto|].
    destruct (apply originalText best p); [eauto|].
    destruct others as [|second rest]; [eauto|].
    destruct (threshold <=? m_score second); [|eauto].
    destruct (apply originalText second p0); eauto. }
  split.
  { intros Hall. rewrite Hresult. destruct matches as [|best others]; [reflexivity|].
    specialize (Hall best (or_introl eq_refl)).
    destruct (Z.ltb_spec (m_score best) threshold); [reflexivity | lia]. }
  destruct matches as [|best others]; [exact Hresult|].
  split; [apply descending_head, Hdesc|].
  split.
  { intros Hlow. rewrite Hresult.
    destruct (Z.ltb_spec (m_score best) threshold); [reflexivity | lia]. }
  intros Hhigh. rewrite Hresult.
  destruct (Z.ltb_spec (m_score best) threshold) as [|_]; [lia|].
  split.
  { intros b p1 ->. reflexivity. }
  intros p1 ->. destruct others as [|second rest]; [reflexivity|].
  split.
  - intros Hlow. destruct (Z.leb_spec threshold (m_score second)); [lia | reflexivity].
  - intros Hok. destruct (Z.leb_spec threshold (m_score second)) as [_|]; [|lia].
    split.
    + intros b p2 ->. reflexivity.
    + intros p2 ->. reflexivity.
Qed.

(** Applying a match either wraps its range and reports success, or
    throws and leaves the page as it was. *)
Lemma wrap_range_cases (r : range) (p : page) :
  wrap_range r p = Throw p \/
  exists d,
    splice (document p) (r_node r) (surround_text (r_start r) (r_end r)) = Some d /\
    wrap_range r p
    = Normal true (mk_page d (scrolledToTop p)
                           (scrolledIntoView p ++ [mark_path (r_node r)])
                           (timers p ++ [mark_path (r_node r)])).
Proof.
  unfold wrap_range, bind, surroundContents, scrollToAndRemove, ret.
  destruct (splice (document p) (r_node r) (surround_text (r_start r) (r_end r)))
    as [d|]; [right | left]; eauto.
Qed.

Lemma scored_exact_match_witness :
  exists p',
    highlightByExactMatchWithScoring (str "The quick brown") (Some phrase_anchor) fox_page
      = Normal true p' /\
    get_node (document p') [1%nat; 0%nat; 1%nat]
      = Some (highlightMark [Text (str "The quick brown")]).
Proof.
  eexists. split.
  - pose proof (scored_exact_match apply_match (str "The quick brown")
                  (Some phrase_anchor) fox_page [phrase_match]) as H.
    destruct H as (_ & _ & _ & _ & _ & H).
    + vm_compute. discriminate.
    + vm_compute. reflexivity.
    + destruct H as [H _].
      * vm_compute. discriminate.
      * apply (H true). vm_compute. reflexivity.
  - vm_compute. reflexivity.
Defined.

End ScoredMatchFacts.

Import ScoredMatchFacts.

(** ** The relocation cascade *)

Module CascadeFacts.

Section Methods.

Variable method1 : Sel.t -> M bool.
Variable method2 : jsstring -> option Sel.t -> M bool.
Variables method3 method4 method5 method6 method7 : jsstring -> M bool.

Let methods := highlightText_methods method1 method2 method3 method4 method5
                                     method6 method7.
Let relocate := highlightText_with method1 method2 method3 method4 method5
                                   method6 method7.
Let queue := queue_of method1 method2 method3 method4 method5 method6 method7.

(** The seven steps of [highlightText] are the steps of the queue. *)
Lemma methods_fold (selectionInfo : option Sel.t) (p : page) :
  methods selectionInfo p
  = fold_left attempt_strategy (queue selectionInfo) ([], Normal false p).
Proof. reflexivity. Qed.

(** Once something is highlighted, and once an exception is under way,
    no step calls its method. *)
Lemma attempts_after_success (q : list strategy) (called : list nat) (p : page) :
  fold_left attempt_strategy q (called, Normal true p) = (called, Normal true p).
Proof.
  induction q as [|[[k pre] run] q IH]; simpl; [reflexivity | exact IH].
Qed.

Lemma attempts_after_throw (q : list strategy) (called : list nat) (p : page) :
  fold_left attempt_strategy q (called, Throw p) = (called, Throw p).
Proof.
  induction q as [|[[k pre] run] q IH]; simpl; [reflexivity | exact IH].
Qed.

Lemma attempts_first_wins (q : list strategy) :
  forall (called : list nat) (p : page),
    fold_left attempt_strategy q (called, Normal false p)
    = (called ++ fst (first_wins q p), snd (first_wins q p)).
Proof.
  induction q as [|[[k pre] run] q IH]; intros called p; simpl.
  - rewrite app_nil_r. reflexivity.
  - destruct pre; simpl.
    + destruct (run p) as [[|] p' | p']; simpl.
      * apply attempts_after_success.
      * rewrite IH. destruct (first_wins q p') as [ran c]. simpl.
        rewrite <- app_assoc. reflexivity.
      * apply attempts_after_throw.
    + apply IH.
Qed.

(** The numbers of the strategies that ran go up, within 1 to 7. *)
Lemma first_wins_ordered (q : list strategy) (p : page) :
  StronglySorted (fun a b => (fst (fst a) < fst (fst b))%nat) q ->
  StronglySorted lt (fst (first_wins q p)) /\
  forall k, In k (fst (first_wins q p)) -> In k (map (fun s => fst (fst s)) q).
Proof.
  revert p. induction q as [|[[k pre] run] q IH]; intros p Hq; simpl.
  - split; [constructor | tauto].
  - inversion Hq as [|? ? Hq' Hk]; subst.
    destruct pre.
    + destruct (run p) as [[|] p' | p']; simpl.
      * split; [repeat constructor | tauto].
      * destruct (IH p' Hq') as [Hs Hin].
        destruct (first_wins q p') as [ran c]. simpl in *. split.
        -- constructor; [exact Hs|].
           apply Forall_forall. intros j Hj. apply Hin in Hj.
           apply in_map_iff in Hj as (s & <- & Hs').
           rewrite Forall_forall in Hk. apply (Hk s Hs').
        -- intros j [<- | Hj]; auto.
      * split; [repeat constructor | tauto].
    + destruct (IH p Hq') as [Hs Hin]. split; [exact Hs | auto].
Qed.

(** C1.  The seven steps of [highlightText] run the strategies in
    first-wins priority: what they call and what they answer is what
    [first_wins] makes of the queue of the seven strategies in the order
    1 to 7; the strategies called have increasing numbers; and when
    strategy 1 has its address and answers [true], it is the only
    strategy called and the page it leaves is the result of the steps,
    and of [highlightText] on a document with a body. *)
Theorem cascade_first_wins :
  forall (selectionInfo : option Sel.t) (p : page),
    methods selectionInfo p = first_wins (queue selectionInfo) p /\
    map (fun s => fst (fst s)) (queue selectionInfo) = [1; 2; 3; 4; 5; 6; 7]%nat /\
    StronglySorted lt (fst (methods selectionInfo p)) /\
    (forall (si : Sel.t) (p' : page),
        selectionInfo = Some si ->
        Sel.xpath si <> None ->
        method1 si p = Normal true p' ->
        methods selectionInfo p = ([1%nat], Normal true p') /\
        (body (document p) <> None ->
         relocate selectionInfo p = ([1%nat], Normal tt p'))).
Proof.
  intros selectionInfo p.
  assert (Hfw : methods selectionInfo p = first_wins (queue selectionInfo) p).
  { rewrite methods_fold, attempts_first_wins.
    destruct (first_wins (queue selectionInfo) p). reflexivity. }
  split; [exact Hfw|]. split; [reflexivity|]. split.
  - rewrite Hfw. apply first_wins_ordered.
    repeat (constructor; [| repeat constructor; simpl; lia]). constructor.
  - intros si p' -> Hx H1.
    assert (Hm : methods (Some si) p = ([1%nat], Normal true p')).
    { rewrite Hfw. simpl. destruct (Sel.xpath si); [|congruence].
      rewrite H1. reflexivity. }
    split; [exact Hm|]. intros Hbody.
    unfold relocate, highlightText_with, waitForPageStable.
    destruct (body (document p)); [|congruence].
    fold methods. rewrite Hm. reflexivity.
Qed.

(** [highlightText] never throws: an exception of a method ends in the
    [catch], which scrolls to the top. *)
Lemma highlightText_completes (selectionInfo : option Sel.t) (p : page) :
  exists p', snd (relocate selectionInfo p) = Normal tt p'.
Proof.
  unfold relocate, highlightText_with, waitForPageStable.
  destruct (body (document p)); [|unfold scrollToTop; simpl; eauto].
  destruct (highlightText_methods _ _ _ _ _ _ _ selectionInfo p) as [called [[|] p' | p']];
    unfold scrollToTop; simpl; eauto.
Qed.

(** When every method called declines, the window scrolls to the top
    once, and that is all [highlightText] adds to what the methods left.
    In a document without a body no method is called and the window
    scrolls to the top as well. *)
Lemma highlightText_exhausted (selectionInfo : option Sel.t) (p p' : page) :
  body (document p) <> None ->
  snd (methods selectionInfo p) = Normal false p' ->
  snd (relocate selectionInfo p)
  = Normal tt (mk_page (document p') (S (scrolledToTop p'))
                       (scrolledIntoView p') (timers p')).
Proof.
  intros Hbody. unfold relocate, highlightText_with, methods, waitForPageStable.
  destruct (body (document p)); [|congruence].
  destruct (highlightText_methods _ _ _ _ _ _ _ selectionInfo p) as [called c].
  simpl. intros ->. reflexivity.
Qed.

Lemma highlightText_without_body (selectionInfo : option Sel.t) (p : page) :
  body (document p) = None ->
  relocate selectionInfo p = ([], scrollToTop p).
Proof.
  intros H. unfold relocate, highlightText_with, waitForPageStable.
  rewrite H. reflexivity.
Qed.

End Methods.

End CascadeFacts.

(** ** Validation after wrapping *)

Module ValidationFacts.

Lemma tryXPathHighlight_completes (si : Sel.t) (p : page) :
  exists b p', tryXPathHighlight si p = Normal b p'.
Proof.
  unfold tryXPathHighlight, try_catch, ret.
  destruct (tryXPathHighlight_body si p); eauto.
Qed.

(** Method 1 answers [true] only through [validate_mark]. *)
Lemma tryXPathHighlight_true (si : Sel.t) (p p' : page) :
  tryXPathHighlight si p = Normal true p' ->
  exists r d,
    splice (document p) (r_node r) (surround_text (r_start r) (r_end r)) = Some d /\
    validate_mark (mark_path (r_node r)) (with_document p d) = Normal true p'.
Proof.
  unfold tryXPathHighlight, try_catch.
  destruct (tryXPathHighlight_body si p) as [b q | q] eqn:E; [|discriminate].
  intros H. injection H as -> ->.
  unfold tryXPathHighlight_body, bind at 1, get_document in E.
  destruct (match Sel.xpath si with
            | Some x => getElementByXPath (document p) x
            | None => None
            end) as [element|]; [|discriminate].
  destruct (Sel.offset si) as [offset|]; [|discriminate].
  destruct (findTextNode (document p) element offset) as [textNode|]; [|discriminate].
  cbv zeta in E.
  match type of E with
  | (if ?c then _ else _) _ = _ => destruct c; [discriminate|]
  end.
  match type of E with
  | bind (setRange ?t ?s ?e) _ _ = _ =>
      destruct (setRange_cases t s e p) as [Et | Er];
        [rewrite (bind_Throw _ _ _ _ _ _ Et) in E; discriminate
        | rewrite (bind_Normal _ _ _ _ _ _ _ Er) in E; clear Er]
  end.
  cbv beta in E.
  match type of E with
  | (if ?c then _ else _) _ = _ => destruct c; [discriminate|]
  end.
  match type of E with
  | (if ?c then _ else _) _ = _ => destruct c; [discriminate|]
  end.
  unfold bind, surroundContents in E.
  match type of E with
  | match (match splice ?d ?n ?f with _ => _ end) with _ => _ end = _ =>
      destruct (splice d n f) as [d'|] eqn:Es; [|discriminate]
  end.
  eexists (mk_range _ _ _ _), d'. split; [exact Es | exact E].
Qed.

(** C6, as stated, fails: on a body that starts with a blank text node,
    method 6 with a surrounding text of sixty blanks wraps that blank
    node, checks nothing, schedules the removal of the mark and reports
    success. *)
Lemma text_search_wraps_blank_text :
  exists p' : page,
    highlightByTextSearch (Sel.surroundingText indented_anchor) indented_page
      = Normal true p' /\
    timers p' = [[1%nat; 1%nat]] /\
    get_node (document p') [1%nat; 1%nat] = Some (highlightMark [Text (str "  ")]) /\
    trim (textContent (highlightMark [Text (str "  ")])) = [].
Proof.
  eexists. split; [vm_compute; reflexivity|].
  repeat split.
Qed.

(** C6 (amended).  Method 1 is the method that validates after wrapping.
    It always reports to the cascade, and reports success only when the
    mark lies in the body of the document and its text is not blank; a
    mark in the body whose text is blank is removed and failure is
    reported.  The [try] blocks of methods 2 to 7 end with [wrap_range],
    which validates nothing: it reports success as soon as wrapping has
    not thrown. *)
Theorem post_wrap_validation :
  (forall (si : Sel.t) (p : page), exists b p', tryXPathHighlight si p = Normal b p') /\
  (forall (si : Sel.t) (p p' : page),
      tryXPathHighlight si p = Normal true p' ->
      exists mark m b,
        In mark (timers p') /\
        get_node (document p') mark = Some m /\
        body (document p') = Some b /\
        is_prefix b mark = true /\
        trim (textContent m) <> []) /\
  (forall (mark : path) (p : page) (m : node) (b : path),
      get_node (document p) mark = Some m ->
      body (document p) = Some b ->
      is_prefix b mark = true ->
      trim (textContent m) = [] ->
      validate_mark mark p
      = Normal false
          match splice (document p) mark (fun _ => Some []) with
          | Some d => with_document p d
          | None => p
          end) /\
  (forall (r : range) (p : page) (b : bool) (p' : page),
      wrap_range r p = Normal b p' ->
      b = true /\
      In (mark_path (r_node r)) (timers p') /\
      splice (document p) (r_node r) (surround_text (r_start r) (r_end r))
        = Some (document p')).
Proof.
  split; [exact tryXPathHighlight_completes|].
  split.
  { intros si p p' H.
    destruct (tryXPathHighlight_true _ _ _ H) as (r & d & _ & Hv).
    destruct (validate_mark_true _ _ _ Hv) as (m & b & Hm & Hb & Hp & Ht & ->).
    exists (mark_path (r_node r)), m, b. simpl in *.
    repeat split; try assumption.
    apply in_or_app. right. left. reflexivity. }
  split.
  { intros mark p m b Hm Hb Hp Ht.
    unfold validate_mark, bind, get_document, removeChild, ret.
    rewrite Hm, Hb, Hp, Ht. simpl.
    destruct (splice (document p) mark (fun _ => Some [])); reflexivity. }
  intros r p b p' H.
  destruct (wrap_range_cases r p) as [Ht | (d & Hs & Hw)].
  - rewrite Ht in H. discriminate.
  - rewrite Hw in H. injection H as <- <-. simpl.
    repeat split; try assumption.
    apply in_or_app. right. left. reflexivity.
Qed.

Lemma post_wrap_validation_witness :
  tryXPathHighlight fox_anchor fox_page
    = Normal true (page_of (tryXPathHighlight fox_anchor fox_page)) /\
  exists mark m b,
    In mark (timers (page_of (tryXPathHighlight fox_anchor fox_page))) /\
    get_node (document (page_of (tryXPathHighlight fox_anchor fox_page))) mark
      = Some m /\
    body (document (page_of (tryXPathHighlight fox_anchor fox_page))) = Some b /\
    is_prefix b mark = true /\
    trim (textContent m) <> [].
Proof.
  split; [vm_compute; reflexivity|].
  apply (proj1 (proj2 post_wrap_validation) fox_anchor fox_page).
  vm_compute. reflexivity.
Defined.

End ValidationFacts.

(** ** Scenarios *)

Module Scenarios.

(** The anchor of "quick" in "The quick brown fox": method 1 resolves it
    and no other method is called. *)
Lemma cascade_first_wins_witness :
  exists p',
    tryXPathHighlight fox_anchor fox_page = Normal true p' /\
    fst (highlightText (Some fox_anchor) fox_page) = [1%nat] /\
    snd (highlightText (Some fox_anchor) fox_page) = Normal tt p' /\
    get_node (document p') [1%nat; 0%nat; 1%nat]
      = Some (highlightMark [Text (str "quick")]).
Proof.
  eexists. split; [vm_compute; reflexivity|].
  match goal with
  | |- context [Normal tt ?q] =>
      pose proof (proj2 (proj2 (proj2
        (CascadeFacts.cascade_first_wins
           tryXPathHighlight highlightByExactMatchWithScoring highlightByFirstLine
           highlightByWindowedSearch highlightByFuzzyMatch highlightByTextSearch
           highlightByPartialMatch (Some fox_anchor) fox_page)))
        fox_anchor q eq_refl) as H
  end.
  destruct H as [_ H].
  - discriminate.
  - vm_compute. reflexivity.
  - unfold highlightText. rewrite H by (vm_compute; discriminate). repeat split.
Defined.

Lemma address_guided_match_witness :
  exists p',
    tryXPathHighlight fox_anchor fox_page = Normal true p' /\
    splice (document fox_page) [1%nat; 0%nat; 0%nat] (surround_text 4 9)
      = Some (document p').
Proof.
  eexists. split; [vm_compute; reflexivity|].
  apply (proj2 (proj2
    (XPathFacts.address_guided_match fox_anchor fox_page
       (FromBody [(str "p", 1%nat)]) [1%nat; 0%nat] 4
       (mk_text_node [1%nat; 0%nat; 0%nat] (str "The quick brown fox") (str "P") [])
       eq_refl eq_refl eq_refl eq_refl))).
  vm_compute. reflexivity.
Defined.

Lemma unwrap_restores_text_witness :
  exists mark p1,
    surroundContents fox_range fox_page = Normal mark p1 /\
    textContent (document (timer_fires mark p1)) = textContent (document fox_page).
Proof.
  eexists _, _. split; [vm_compute; reflexivity|].
  match goal with
  | |- textContent (document (timer_fires ?m ?q)) = _ =>
      destruct (LifecycleFacts.unwrap_restores_text fox_page fox_range m q)
        as (tag & id & cls & d & pre & post & before & after & content & H)
  end.
  - vm_compute. reflexivity.
  - apply H.
Defined.

(** C8 (the code departs from it).  The word "Accept" was copied from a
    banner that sits next to the body.  Method 1 resolves the address,
    wraps the word in a mark, finds that the mark is not inside the body
    and answers [false] without taking the mark out; methods 2 and 6 find
    nothing in the body; the other methods are not called because the
    text is too short.  Every method has declined, the window scrolls to
    the top once, and the mark stays in the banner with no timer to
    remove it. *)
Theorem exhausted_cascade_leaves_mark :
  let run := highlightText (Some banner_anchor) banner_page in
  let left := page_of (snd run) in
  fst run = [1; 2; 6]%nat /\
  tryXPathHighlight banner_anchor banner_page
    = Normal false (with_document banner_page (document left)) /\
  scrolledToTop left = 1%nat /\
  timers left = [] /\
  get_node (document banner_page) [2%nat; 1%nat] = None /\
  get_node (document left) [2%nat; 1%nat] = Some (highlightMark [Text (str "Accept")]).
Proof. vm_compute. repeat split. Qed.

End Scenarios.

(** ** Where [findActualIndex] is right *)

Module ActualIndexFacts.

Lemma findActualIndex_loop_counted (rest : jsstring) :
  forall (i count normalizedIndex : Z),
    count <= normalizedIndex ->
    (Z.to_nat (normalizedIndex - count) <= List.length rest)%nat ->
    Forall (fun c => counted c = true)
           (firstn (Z.to_nat (normalizedIndex - count)) rest) ->
    findActualIndex_loop rest i count normalizedIndex
    = i + (normalizedIndex - count).
Proof.
  induction rest as [|c rest IH]; intros i count k Hle Hlen Hall.
  - simpl in *. lia.
  - cbn [findActualIndex_loop]. destruct (Z.ltb_spec count k) as [Hlt | Hge].
    + replace (Z.to_nat (k - count)) with (S (Z.to_nat (k - (count + 1)))) in * by lia.
      simpl in Hall, Hlen. inversion Hall as [|? ? Hc Hall']; subst.
      unfold counted in Hc. rewrite Hc.
      rewrite IH; [lia | lia | lia | exact Hall'].
    + lia.
Qed.

(** When the raw text has only counted units before the index, and the
    index lies inside it, [findActualIndex] answers the index itself. *)
Lemma findActualIndex_counted (original normalizedSearch : jsstring) (k : Z) :
  0 <= k < len original ->
  Forall (fun c => counted c = true) (firstn (Z.to_nat k) original) ->
  findActualIndex original normalizedSearch k = k.
Proof.
  intros Hk Hall. unfold findActualIndex.
  rewrite findActualIndex_loop_counted.
  - cbv zeta. destruct (Z.ltb_spec (0 + (k - 0)) (len original)); lia.
  - lia.
  - unfold len in Hk. lia.
  - rewrite Z.sub_0_r. exact Hall.
Qed.

End ActualIndexFacts.

(** ** What a declining method leaves behind *)

Module ExhaustionFacts.

Lemma changes_on_success_ret (b : bool) : changes_on_success (ret b).
Proof. intros p. destruct b; unfold ret; eauto. Qed.

Lemma changes_on_success_bind (A : Type) (m : M A) (k : A -> M bool) :
  reads_only m ->
  (forall a, changes_on_success (k a)) ->
  changes_on_success (bind m k).
Proof.
  intros Hm Hk p. unfold bind.
  destruct (Hm p) as [[a ->] | ->]; [apply Hk | auto].
Qed.

Lemma changes_on_success_try_catch (m handler : M bool) :
  changes_on_success m ->
  changes_on_success handler ->
  changes_on_success (try_catch m handler).
Proof.
  intros Hm Hh p. unfold try_catch.
  destruct (Hm p) as [[p' ->] | [-> | ->]]; eauto.
Qed.

(** [found <- m ;; if found then ret true else next] *)
Lemma changes_on_success_or_else (m next : M bool) :
  changes_on_success m ->
  changes_on_success next ->
  changes_on_success (bind m (fun found => if found then ret true else next)).
Proof.
  intros Hm Hn p. unfold bind.
  destruct (Hm p) as [[p' ->] | [-> | ->]]; unfold ret; eauto.
Qed.

Lemma reads_only_setRange (t : text_node) (s e : Z) : reads_only (setRange t s e).
Proof.
  intros p. destruct (setRange_cases t s e p) as [-> | ->]; eauto.
Qed.

Lemma reads_only_selectNodeContents (t : text_node) : reads_only (selectNodeContents t).
Proof. intros p. left. eexists. reflexivity. Qed.

Lemma reads_only_bodyWalker : reads_only bodyWalker.
Proof.
  intros p. unfold bodyWalker. destruct (body (document p)); eauto.
Qed.

Lemma reads_only_findAllMatchesWithScoring (searchText : jsstring) (si : option Sel.t) :
  reads_only (findAllMatchesWithScoring searchText si).
Proof.
  intros p. unfold findAllMatchesWithScoring, bind, bodyWalker, ret.
  destruct (len (normalizeText searchText) <? 3); [eauto|].
  destruct (body (document p)); eauto.
Qed.

Lemma changes_on_success_wrap_range (r : range) : changes_on_success (wrap_range r).
Proof.
  intros p. destruct (wrap_range_cases r p) as [-> | (d & _ & ->)]; eauto.
Qed.

Lemma changes_on_success_wrap_node (t : text_node) :
  changes_on_success (bind (selectNodeContents t) wrap_range).
Proof.
  apply changes_on_success_bind.
  - apply reads_only_selectNodeContents.
  - apply changes_on_success_wrap_range.
Qed.

Lemma changes_on_success_apply_match (originalText : jsstring) (m : scored) :
  changes_on_success (apply_match originalText m).
Proof.
  apply changes_on_success_bind.
  - apply reads_only_setRange.
  - apply changes_on_success_wrap_range.
Qed.

Create HintDb clean.

#[local] Hint Resolve changes_on_success_ret changes_on_success_bind
  changes_on_success_try_catch changes_on_success_or_else
  reads_only_setRange reads_only_selectNodeContents reads_only_bodyWalker
  reads_only_findAllMatchesWithScoring changes_on_success_wrap_range
  changes_on_success_wrap_node changes_on_success_apply_match : clean.

Lemma changes_on_success_method2 (originalText : jsstring) (si : option Sel.t) :
  changes_on_success (highlightByExactMatchWithScoring originalText si).
Proof.
  unfold highlightByExactMatchWithScoring, exactMatchWithScoring.
  destruct (len (normalizeText originalText) <? 5); [auto with clean|].
  apply changes_on_success_bind; [auto with clean|].
  intros [|best others]; [auto with clean|].
  destruct (m_score best <? minScore (normalizeText originalText)); [auto with clean|].
  apply changes_on_success_try_catch; [auto with clean|].
  destruct others as [|second rest]; [auto with clean|].
  destruct (minScore (normalizeText originalText) <=? m_score second);
    auto with clean.
Qed.

Lemma changes_on_success_tryPrefixMatch_loop (searchText : jsstring) (n : Z)
      (nodes : list text_node) :
  changes_on_success (tryPrefixMatch_loop searchText n nodes).
Proof.
  induction nodes as [|node nodes IH]; cbn [tryPrefixMatch_loop]; [auto with clean|].
  destruct (indexOf (normalizeText (tn_data node)) searchText =? -1); [exact IH|].
  destruct (findActualIndex (tn_data node) searchText
              (indexOf (normalizeText (tn_data node)) searchText) =? -1); [exact IH|].
  auto 6 with clean.
Qed.

Lemma changes_on_success_method3 (originalText : jsstring) :
  changes_on_success (highlightByFirstLine originalText).
Proof.
  unfold highlightByFirstLine.
  destruct (filter _ _) as [|line lines]; [auto with clean|].
  generalize [20; 10; 5]. intros prefixLengths.
  induction prefixLengths as [|n ns IH]; cbn [highlightByFirstLine_loop];
    [auto with clean|].
  destruct (len (trim line) <? n); [exact IH|].
  destruct (len (normalizeText (substring (trim line) 0 n)) <? 3); [exact IH|].
  apply changes_on_success_or_else; [|exact IH].
  unfold tryPrefixMatch. apply changes_on_success_bind; [auto with clean|].
  intros nodes. apply changes_on_success_tryPrefixMatch_loop.
Qed.

Lemma changes_on_success_windowed_loop (searchText : jsstring) (size : nat)
      (nodes : list text_node) :
  changes_on_success (highlightByWindowedSearch_loop searchText size nodes).
Proof.
  induction nodes as [|node nodes IH]; cbn [highlightByWindowedSearch_loop];
    [auto with clean|].
  destruct (includes _ searchText); auto with clean.
Qed.

Lemma changes_on_success_method4 (originalText : jsstring) :
  changes_on_success (highlightByWindowedSearch originalText).
Proof.
  unfold highlightByWindowedSearch.
  destruct (len (normalizeText (substring originalText 0 20)) <? 10);
    [auto with clean|].
  apply changes_on_success_bind; [auto with clean|].
  intros nodes. apply changes_on_success_windowed_loop.
Qed.

Lemma changes_on_success_method5 (originalText : jsstring) :
  changes_on_success (highlightByFuzzyMatch originalText).
Proof.
  unfold highlightByFuzzyMatch. cbv zeta.
  destruct (len _ <? 15); [auto with clean|].
  apply changes_on_success_bind; [auto with clean|].
  intros nodes. destruct (highlightByFuzzyMatch_loop _ nodes None 0%Q);
    auto with clean.
Qed.

Lemma changes_on_success_first_including (snippet : jsstring) (nodes : list text_node) :
  changes_on_success (highlight_first_including snippet nodes).
Proof.
  induction nodes as [|node nodes IH]; cbn [highlight_first_including];
    [auto with clean|].
  destruct (includes _ snippet); auto with clean.
Qed.

Lemma changes_on_success_method6 (searchText : jsstring) :
  changes_on_success (highlightByTextSearch searchText).
Proof.
  unfold highlightByTextSearch.
  destruct (negb (truthy searchText) || (len searchText <? 10)); [auto with clean|].
  apply changes_on_success_bind; [auto with clean|].
  intros nodes. apply changes_on_success_first_including.
Qed.

Lemma changes_on_success_method7 (originalText : jsstring) :
  changes_on_success (highlightByPartialMatch originalText).
Proof.
  unfold highlightByPartialMatch. cbv zeta.
  match goal with
  | |- changes_on_success (highlightByPartialMatch_loop ?l) => generalize l
  end.
  intros portions.
  induction portions as [|portion portions IH]; cbn [highlightByPartialMatch_loop];
    [auto with clean|].
  destruct (len (normalizeText portion) <? 8); [exact IH|].
  apply changes_on_success_bind; [auto with clean|].
  intros nodes. apply changes_on_success_or_else; [|exact IH].
  apply changes_on_success_first_including.
Qed.

(** A queue of methods that change the page only on success leaves the
    page as it was when all of them decline. *)
Lemma first_wins_declined (q : list strategy) :
  Forall (fun s => changes_on_success (snd s)) q ->
  forall p p', snd (first_wins q p) = Normal false p' -> p' = p.
Proof.
  induction 1 as [|[[k pre] run] q Hrun _ IH]; intros p p'; simpl.
  - intros H. injection H as <-. reflexivity.
  - destruct pre; [|apply IH].
    simpl in Hrun. destruct (Hrun p) as [[p1 ->] | [-> | ->]]; simpl.
    + discriminate.
    + specialize (IH p p'). destruct (first_wins q p). exact IH.
    + discriminate.
Qed.

(** When every method has declined, the page is the one method 1 left,
    or the page [highlightText] started from if method 1 was not called:
    methods 2 to 7 leave no mark when they decline. *)
Lemma exhausted_page (selectionInfo : option Sel.t) (p p' : page) :
  snd (highlightText_methods tryXPathHighlight highlightByExactMatchWithScoring
         highlightByFirstLine highlightByWindowedSearch highlightByFuzzyMatch
         highlightByTextSearch highlightByPartialMatch selectionInfo p)
    = Normal false p' ->
  match selectionInfo with
  | Some si =>
      match Sel.xpath si with
      | Some _ => tryXPathHighlight si p = Normal false p'
      | None => p' = p
      end
  | None => p' = p
  end.
Proof.
  rewrite CascadeFacts.methods_fold, CascadeFacts.attempts_first_wins.
  cbn [snd app].
  assert (Hrest : forall originalText surroundingText,
    Forall (fun s => changes_on_success (snd s))
      [ (2%nat, 5 <=? len originalText,
         highlightByExactMatchWithScoring originalText selectionInfo);
        (3%nat, 10 <=? len originalText, highlightByFirstLine originalText);
        (4%nat, 15 <=? len originalText, highlightByWindowedSearch originalText);
        (5%nat, 20 <=? len originalText, highlightByFuzzyMatch originalText);
        (6%nat, truthy surroundingText, highlightByTextSearch surroundingText);
        (7%nat, 10 <=? len originalText, highlightByPartialMatch originalText) ]).
  { intros originalText surroundingText.
    repeat apply Forall_cons; [| | | | | | apply Forall_nil]; simpl.
    - apply changes_on_success_method2.
    - apply changes_on_success_method3.
    - apply changes_on_success_method4.
    - apply changes_on_success_method5.
    - apply changes_on_success_method6.
    - apply changes_on_success_method7. }
  unfold queue_of. cbv zeta.
  match goal with
  | |- context [first_wins (?first :: ?rest) p] =>
      assert (Htail : Forall (fun x => changes_on_success (snd x)) rest)
        by apply Hrest;
      generalize dependent rest
  end.
  intros tail Htail. clear Hrest. cbn [first_wins].
  destruct selectionInfo as [si|].
  - destruct (Sel.xpath si).
    + destruct (tryXPathHighlight si p) as [[|] p1 | p1]; cbn [snd].
      * discriminate.
      * intros H. f_equal.
        pose proof (first_wins_declined _ Htail p1 p') as Hd.
        destruct (first_wins tail p1). symmetry. apply Hd, H.
      * discriminate.
    + apply first_wins_declined, Htail.
  - apply first_wins_declined, Htail.
Qed.

(** The text nodes a walker hands out are where their paths say, with
    the data they carry. *)
Lemma text_nodes_element (ptag pcls tag i cls : jsstring) (cs : list node) :
  text_nodes ptag pcls (Element tag i cls cs) = children_text_nodes tag cls cs 0.
Proof.
  cbn [text_nodes]. generalize 0%nat.
  induction cs as [|c cs IH]; intros k; [reflexivity|].
  cbn [children_text_nodes]. rewrite <- IH. reflexivity.
Qed.

Lemma text_nodes_sound (n : node) :
  forall ptag pcls t,
    In t (text_nodes ptag pcls n) ->
    get_node n (tn_path t) = Some (Text (tn_data t)).
Proof.
  induction n as [d | tag i cls cs IH] using node_induction; intros ptag pcls t Ht.
  - simpl in Ht. destruct Ht as [<- | []]. reflexivity.
  - rewrite text_nodes_element in Ht.
    assert (Hgen : forall k,
      In t (children_text_nodes tag cls cs k) ->
      exists j q, tn_path t = (k + j)%nat :: q /\
                  match nth_error cs j with
                  | Some c => get_node c q = Some (Text (tn_data t))
                  | None => False
                  end).
    { clear Ht. induction IH as [|c cs Hc _ IHcs]; intros k Ht; simpl in Ht.
      - destruct Ht.
      - apply in_app_or in Ht as [Ht | Ht].
        + apply in_map_iff in Ht as (t0 & <- & Ht0).
          exists 0%nat, (tn_path t0). split.
          * simpl. rewrite Nat.add_0_r. reflexivity.
          * simpl. apply (Hc _ _ _ Ht0).
        + destruct (IHcs _ Ht) as (j & q & Hp & Hn).
          exists (S j), q. split.
          * rewrite Hp. f_equal. lia.
          * exact Hn. }
    destruct (Hgen 0%nat Ht) as (j & q & Hp & Hn).
    rewrite Hp. simpl.
    destruct (nth_error cs j); [exact Hn | contradiction].
Qed.

Lemma get_node_app (n : node) (p q : path) (x : node) :
  get_node n p = Some x -> get_node n (p ++ q) = get_node x q.
Proof.
  revert n. induction p as [|k p IH]; intros n H; simpl in *.
  - injection H as ->. reflexivity.
  - destruct (nth_error (childNodes n) k); [apply IH, H | discriminate].
Qed.

Lemma treeWalker_sound (doc : node) (root : path) (t : text_node) :
  In t (treeWalker doc root) ->
  get_node doc (tn_path t) = Some (Text (tn_data t)).
Proof.
  unfold treeWalker.
  destruct (get_node doc root) as [[d | tag i cls cs]|] eqn:E; try contradiction.
  intros Ht. apply in_map_iff in Ht as (t0 & <- & Ht0). simpl.
  rewrite (get_node_app _ _ _ _ E). apply (text_nodes_sound _ _ _ _ Ht0).
Qed.

Lemma findTextNode_loop_In (nodes : list text_node) :
  forall currentOffset offset t,
    findTextNode_loop nodes currentOffset offset = Some t -> In t nodes.
Proof.
  induction nodes as [|node nodes IH]; intros cur offset t; simpl; [discriminate|].
  destruct (offset <=? cur + len (tn_data node)).
  - intros H. injection H as <-. left. reflexivity.
  - intros H. right. eapply IH, H.
Qed.

Lemma findTextNode_sound (doc : node) (element : path) (offset : Z) (t : text_node) :
  findTextNode doc element offset = Some t ->
  get_node doc (tn_path t) = Some (Text (tn_data t)).
Proof.
  unfold findTextNode.
  destruct (findTextNode_loop (treeWalker doc element) 0 offset) as [t0|] eqn:E.
  - intros H. injection H as <-.
    eapply treeWalker_sound, findTextNode_loop_In, E.
  - destruct (get_node doc element) as [[d | tag i cls [|[d | ? ? ? ?] cs]]|] eqn:Eg;
      try discriminate.
    intros H. injection H as <-. simpl.
    rewrite (get_node_app _ _ _ _ Eg). reflexivity.
Qed.

(** The mark that wraps the slice from [s] to [e] of a text node. *)
Lemma splice_mark (doc d : node) (t : path) (data : jsstring) (s e : Z) :
  get_node doc t = Some (Text data) ->
  s < e ->
  splice doc t (surround_text s e) = Some d ->
  get_node d (mark_path t) = Some (highlightMark [Text (substring data s e)]).
Proof.
  intros Hg Hse Hs.
  destruct (splice_inv _ _ _ _ Hs)
    as (pp & k & tg & i & c & cs & x & ys & -> & Hp & Hn & Hf & Hd).
  rewrite (get_node_app _ _ [k] _ Hp) in Hg. simpl in Hg. rewrite Hn in Hg.
  injection Hg as ->. simpl in Hf.
  destruct ((s <? 0) || (len data <? s) || (e <? 0) || (len data <? e));
    [discriminate|].
  injection Hf as <-.
  destruct (path_last_split pp k) as [_ ->].
  rewrite (get_node_app _ _ [S k] _ Hd). cbn [get_node childNodes app].
  assert (Hk : List.length (firstn k cs) = k).
  { rewrite length_firstn. apply Nat.min_l, Nat.lt_le_incl, nth_error_Some. congruence. }
  destruct (LifecycleFacts.around_mark _ (firstn k cs)
              (Text (substring data 0 (Z.min s e)))
              (highlightMark (if Z.min s e <? e
                              then [Text (substring data (Z.min s e) e)] else []))
              (Text (substring_from data e)) (skipn (S k) cs)) as (Hnth & _ & _).
  rewrite Hk in Hnth. rewrite Hnth.
  replace (Z.min s e) with s by lia.
  destruct (Z.ltb_spec s e); [reflexivity | lia].
Qed.

Ltac unchanged :=
  let H := fresh "H" in intros H; injection H as <-; auto.

(** Method 1 declining: either it has left the page as it was, or it has
    wrapped its range in a mark that is still in the document and does
    not lie in the body. *)
Lemma method1_declined (si : Sel.t) (p p' : page) :
  tryXPathHighlight si p = Normal false p' ->
  p' = p \/
  exists mark content,
    get_node (document p') mark = Some (highlightMark content) /\
    timers p' = timers p /\
    match body (document p') with
    | Some b => is_prefix b mark = false
    | None => True
    end.
Proof.
  unfold tryXPathHighlight, try_catch.
  destruct (tryXPathHighlight_body si p) as [b q | q] eqn:E.
  - intros H. injection H as -> ->. revert E.
    unfold tryXPathHighlight_body, bind at 1, get_document.
    destruct (match Sel.xpath si with
              | Some x => getElementByXPath (document p) x
              | None => None
              end) as [element|]; [|unchanged].
    destruct (Sel.offset si) as [offset|]; [|unchanged].
    destruct (findTextNode (document p) element offset) as [textNode|] eqn:Ef;
      [|unchanged].
    apply findTextNode_sound in Ef. cbv zeta.
    set (actualOffset := Z.min offset (len (tn_data textNode))).
    set (endOffset := Z.min (actualOffset + Sel.length si) (len (tn_data textNode))).
    destruct (Z.leb_spec endOffset actualOffset) as [|Hlt]; cbn [orb];
      [unchanged|].
    destruct (len (tn_data textNode) <? endOffset);
      [unchanged|].
    destruct (setRange_cases textNode actualOffset endOffset p) as [Et | Er];
      [rewrite (bind_Throw _ _ _ _ _ _ Et); discriminate|].
    rewrite (bind_Normal _ _ _ _ _ _ _ Er). clear Er. cbv beta.
    replace (Z.min actualOffset endOffset) with actualOffset by lia.
    unfold range_toString. cbn [r_data r_start r_end].
    destruct (0 <? len (trim (substring (tn_data textNode) actualOffset endOffset)))
      eqn:Eblank; cbn [negb]; [|unchanged].
    destruct (text_mismatch _ _); [unchanged|].
    unfold bind, surroundContents. cbn [r_node r_start r_end].
    destruct (splice (document p) (tn_path textNode)
                (surround_text actualOffset endOffset)) as [d|] eqn:Es;
      [|discriminate].
    pose proof (splice_mark _ _ _ _ _ _ Ef Hlt Es) as Hmark.
    unfold validate_mark, bind, get_document. cbn [document with_document].
    rewrite Hmark.
    destruct (body d) as [b|] eqn:Eb; [|discriminate].
    destruct (is_prefix b (mark_path (tn_path textNode))) eqn:Ep; cbn [negb].
    + cbn [textContent highlightMark flat_map]. rewrite app_nil_r, Eblank.
      cbn [negb]. discriminate.
    + intros H. injection H as <-. right.
      eexists _, _. cbn [document with_document timers].
      split; [exact Hmark|]. split; [reflexivity|]. rewrite Eb. exact Ep.
  - intros H. injection H as <-. revert E.
    unfold tryXPathHighlight_body, bind at 1, get_document.
    destruct (match Sel.xpath si with
              | Some x => getElementByXPath (document p) x
              | None => None
              end) as [element|]; [|discriminate].
    destruct (Sel.offset si) as [offset|]; [|discriminate].
    destruct (findTextNode (document p) element offset) as [textNode|] eqn:Ef;
      [|discriminate].
    apply findTextNode_sound in Ef. cbv zeta.
    set (actualOffset := Z.min offset (len (tn_data textNode))).
    set (endOffset := Z.min (actualOffset + Sel.length si) (len (tn_data textNode))).
    destruct (Z.leb_spec endOffset actualOffset) as [|Hlt]; cbn [orb]; [discriminate|].
    destruct (len (tn_data textNode) <? endOffset); [discriminate|].
    destruct (setRange_cases textNode actualOffset endOffset p) as [Et | Er].
    { rewrite (bind_Throw _ _ _ _ _ _ Et). unchanged. }
    rewrite (bind_Normal _ _ _ _ _ _ _ Er). clear Er. cbv beta.
    replace (Z.min actualOffset endOffset) with actualOffset by lia.
    unfold range_toString. cbn [r_data r_start r_end].
    destruct (0 <? len (trim (substring (tn_data textNode) actualOffset endOffset)))
      eqn:Eblank; cbn [negb]; [|discriminate].
    destruct (text_mismatch _ _); [discriminate|].
    unfold bind, surroundContents. cbn [r_node r_start r_end].
    destruct (splice (document p) (tn_path textNode)
                (surround_text actualOffset endOffset)) as [d|] eqn:Es.
    + pose proof (splice_mark _ _ _ _ _ _ Ef Hlt Es) as Hmark.
      unfold validate_mark, bind, get_document. cbn [document with_document].
      rewrite Hmark.
      destruct (body d) as [b|] eqn:Eb.
      * destruct (is_prefix b (mark_path (tn_path textNode))); cbn [negb];
          [|discriminate].
        cbn [textContent highlightMark flat_map]. rewrite app_nil_r, Eblank.
        cbn [negb]. discriminate.
      * intros H. injection H as <-. right.
        eexists _, _. cbn [document with_document timers].
        split; [exact Hmark|]. split; [reflexivity|]. rewrite Eb. exact I.
    + unchanged.
Qed.


End ExhaustionFacts.


(** * Further properties *)

(** ** Searching in strings *)

Module SearchFacts.

Lemma prefixb_spec (t s : jsstring) :
  prefixb t s = true <-> exists r, s = t ++ r.
Proof.
  revert s. induction t as [|x t IH]; intros s; simpl.
  - split; [intros _; exists s; reflexivity | reflexivity].
  - destruct s as [|y s]; simpl.
    + split; [discriminate | intros [r H]; discriminate].
    + rewrite andb_true_iff, N.eqb_eq, IH. split.
      * intros [-> [r ->]]. exists r. reflexivity.
      * intros [r H]. injection H as -> ->. split; [reflexivity | exists r; reflexivity].
Qed.

Lemma endsWith_spec (s t : jsstring) :
  endsWith s t = true <-> exists a, s = a ++ t.
Proof.
  unfold endsWith. rewrite prefixb_spec. split.
  - intros [r H]. exists (rev r).
    rewrite <- (rev_involutive s), H, rev_app_distr, rev_involutive. reflexivity.
  - intros [a ->]. exists (rev a). apply rev_app_distr.
Qed.

(** What the scan of [indexOf] answers: [-1] when the text does not occur,
    else the place of its first occurrence. *)
Lemma scan_spec (t s : jsstring) :
  forall pos,
    (scan t s pos = -1 /\ forall a b, s <> a ++ t ++ b) \/
    (exists a b,
        s = a ++ t ++ b /\ scan t s pos = pos + len a /\
        forall a' b', s = a' ++ t ++ b' -> len a <= len a').
Proof.
  induction s as [|c s IH]; intros pos; cbn [scan].
  - destruct (prefixb t []) eqn:E.
    + right. apply prefixb_spec in E as [r E]. exists [], r.
      repeat split; [exact E | unfold len; simpl; lia |].
      intros a' b' _. unfold len. simpl. lia.
    + left. split; [reflexivity|]. intros a b H.
      symmetry in H. apply app_eq_nil in H as [_ H]. apply app_eq_nil in H as [-> _].
      discriminate E.
  - destruct (prefixb t (c :: s)) eqn:E.
    + right. apply prefixb_spec in E as [r E]. exists [], r.
      repeat split; [exact E | unfold len; simpl; lia |].
      intros a' b' _. unfold len. simpl. lia.
    + assert (Hhead : forall b, c :: s <> [] ++ t ++ b).
      { intros b H. simpl in H.
        assert (prefixb t (c :: s) = true) by (apply prefixb_spec; eauto).
        congruence. }
      destruct (IH (pos + 1)) as [[Hs Hno] | (a & b & Hs & Hk & Hmin)].
      * left. split; [exact Hs|]. intros [|x a] b H.
        -- apply (Hhead b H).
        -- simpl in H. injection H as _ H. apply (Hno a b H).
      * right. exists (c :: a), b. repeat split.
        -- simpl. rewrite <- Hs. reflexivity.
        -- rewrite Hk. unfold len. simpl List.length. lia.
        -- intros [|x a'] b' H.
           ++ exfalso. apply (Hhead b' H).
           ++ simpl in H. injection H as _ H. specialize (Hmin a' b' H).
              unfold len in *. simpl List.length. lia.
Qed.

Lemma indexOf_spec (s t : jsstring) :
  (indexOf s t = -1 /\ forall a b, s <> a ++ t ++ b) \/
  (exists a b,
      s = a ++ t ++ b /\ indexOf s t = len a /\
      forall a' b', s = a' ++ t ++ b' -> len a <= len a').
Proof.
  unfold indexOf, indexOf_from.
  rewrite clamp_id by (pose proof (len_nonneg s); lia). simpl skipn.
  destruct (scan_spec t s 0) as [H | (a & b & H1 & H2 & H3)]; [left; exact H | right].
  exists a, b. rewrite H2. repeat split; assumption.
Qed.

Lemma includes_spec (s t : jsstring) :
  includes s t = true <-> exists a b, s = a ++ t ++ b.
Proof.
  unfold includes.
  destruct (indexOf_spec s t) as [[-> Hno] | (a & b & Hs & -> & _)].
  - split; [discriminate | intros (a & b & H); exfalso; apply (Hno a b H)].
  - split; [intros _; eauto|]. intros _. apply Z.leb_le, len_nonneg.
Qed.

(** [substring] with an end that may lie beyond the string. *)
Lemma substring_clamped (s : jsstring) (a b : Z) :
  0 <= a <= len s -> a <= b ->
  substring s a b = firstn (Z.to_nat (b - a)) (skipn (Z.to_nat a) s).
Proof.
  intros Ha Hb. destruct (Z.le_gt_cases b (len s)) as [Hin | Hout].
  - apply substring_spec; lia.
  - unfold substring. rewrite (clamp_id a) by lia.
    unfold clamp. rewrite (Z.min_r b) by lia. rewrite (Z.max_r 0) by lia.
    rewrite Z.min_l, Z.max_r by lia.
    rewrite !firstn_all2; [reflexivity | |];
      rewrite length_skipn; unfold len in *; lia.
Qed.

Lemma len_firstn (s : jsstring) (n : Z) :
  0 <= n -> len (firstn (Z.to_nat n) s) = Z.min n (len s).
Proof. intros H. unfold len. rewrite length_firstn. lia. Qed.

Lemma len_skipn (s : jsstring) (n : Z) :
  0 <= n -> len (skipn (Z.to_nat n) s) = Z.max 0 (len s - n).
Proof. intros H. unfold len. rewrite length_skipn. lia. Qed.

End SearchFacts.

Import SearchFacts.

(** ** Site blacklist *)

Module BlacklistFacts.

(** A page is blacklisted exactly when, letter case aside, its host is a
    listed domain or ends with a dot followed by a listed domain; a
    missing or empty list and an address that does not parse blacklist
    nothing. *)
Theorem blacklist_matches_domain_and_subdomains :
  forall (hostname : option jsstring) (blacklist : option (list jsstring)),
    isInUserBlacklist hostname blacklist = true <->
    exists h domains domain,
      hostname = Some h /\ blacklist = Some domains /\ In domain domains /\
      (toLowerCase h = toLowerCase domain \/
       exists sub, toLowerCase h = sub ++ str "." ++ toLowerCase domain).
Proof.
  intros hostname blacklist. unfold isInUserBlacklist. split.
  - destruct blacklist as [[|d0 ds]|]; try discriminate.
    destruct hostname as [h|]; try discriminate.
    intros H. apply existsb_exists in H as (domain & Hin & Hm).
    exists h, (d0 :: ds), domain. repeat split; try assumption.
    unfold host_matches in Hm. apply orb_true_iff in Hm as [Hm | Hm].
    + left. apply eqb_eq, Hm.
    + right. apply endsWith_spec in Hm. exact Hm.
  - intros (h & domains & domain & -> & -> & Hin & Hm).
    destruct domains as [|d0 ds]; [contradiction|].
    apply existsb_exists. exists domain. split; [exact Hin|].
    unfold host_matches. apply orb_true_iff. destruct Hm as [Hm | Hm].
    + left. apply eqb_eq, Hm.
    + right. apply endsWith_spec, Hm.
Qed.

End BlacklistFacts.

(** ** Selection context *)

Module SelectionContextFacts.

(** The context windows lie next to the first occurrence of the selected
    text in the text of the container: [textBefore] is the 50 units
    before it (fewer when it starts earlier), [textAfter] the 50 units
    after it (fewer when the text ends earlier); and when the selected
    text does not occur in the container's text, both are empty. *)
Theorem context_windows_adjoin_first_occurrence :
  forall (doc : node) (sel : selection) (c : context) (cn : node),
    getSelectionContext doc sel = Some c ->
    get_node doc (commonAncestorContainer sel) = Some cn ->
    let fullText := textContent cn in
    let textIndex := indexOf fullText (selectedText sel) in
    c_length c = len (selectedText sel) /\
    len (c_textBefore c) <= 50 /\
    len (c_textAfter c) <= 50 /\
    len (c_surroundingText c) <= 200 /\
    (textIndex = -1 -> c_textBefore c = [] /\ c_textAfter c = []) /\
    (0 <= textIndex ->
     exists a b,
       fullText = a ++ c_textBefore c ++ selectedText sel ++ c_textAfter c ++ b /\
       len a + len (c_textBefore c) = textIndex /\
       len (c_textBefore c) = Z.min 50 textIndex /\
       len (c_textAfter c)
         = Z.min 50 (len fullText - textIndex - len (selectedText sel))).
Proof.
  intros doc sel c cn Hc Hcn fullText textIndex.
  unfold getSelectionContext in Hc. rewrite Hcn in Hc.
  destruct (rangeCount sel); [discriminate|].
  injection Hc as <-. cbn [c_length c_textBefore c_textAfter c_surroundingText].
  fold fullText. unfold text_before, text_after, getSurroundingText.
  fold fullText textIndex.
  assert (Hsur : len (substring fullText 0 (100 * 2)) <= 200).
  { destruct (Z.le_gt_cases 200 (len fullText)).
    - rewrite len_substring; lia.
    - rewrite substring_clamped by (pose proof (len_nonneg fullText); lia).
      rewrite len_firstn by lia. simpl skipn. lia. }
  destruct (indexOf_spec fullText (selectedText sel))
    as [[Hi Hno] | (p & q & Hfull & Hi & _)]; fold textIndex in Hi.
  - rewrite Hi. cbn.
    split; [reflexivity|]. split; [unfold len; simpl; lia|].
    split; [unfold len; simpl; lia|]. split; [exact Hsur|].
    split; [intros _; split; reflexivity | intros H; lia].
  - pose proof (len_nonneg p) as Hp. pose proof (len_nonneg q) as Hq.
    pose proof (len_nonneg (selectedText sel)) as Hsel.
    assert (Hlen : len fullText = len p + len (selectedText sel) + len q).
    { rewrite Hfull, !len_app. lia. }
    destruct (Z.eqb_spec textIndex (-1)) as [Hneg | _]; [lia|].
    assert (Hafter :
      substring fullText (textIndex + len (selectedText sel))
                (textIndex + len (selectedText sel) + 50)
      = firstn (Z.to_nat 50) q).
    { rewrite substring_clamped by lia.
      replace (textIndex + len (selectedText sel) + 50
               - (textIndex + len (selectedText sel))) with 50 by lia.
      rewrite Hfull, Hi.
      replace (Z.to_nat (len p + len (selectedText sel)))
        with (List.length (p ++ selectedText sel))
        by (rewrite length_app; unfold len; lia).
      rewrite app_assoc, skipn_app, Nat.sub_diag, skipn_all.
      reflexivity. }
    rewrite Hafter.
    assert (Hbefore :
      (if 0 <? textIndex
       then substring fullText (Z.max 0 (textIndex - 50)) textIndex else [])
      = skipn (Z.to_nat (Z.max 0 (textIndex - 50))) p).
    { destruct (Z.ltb_spec 0 textIndex) as [Hpos | Hzero].
      - rewrite substring_spec by lia. rewrite Hfull.
        rewrite skipn_app.
        replace (Z.to_nat (Z.max 0 (textIndex - 50)) - List.length p)%nat
          with 0%nat by (unfold len in *; lia).
        simpl skipn. rewrite firstn_app.
        replace (Z.to_nat (textIndex - Z.max 0 (textIndex - 50))
                 - List.length (skipn (Z.to_nat (Z.max 0 (textIndex - 50))) p))%nat
          with 0%nat by (rewrite length_skipn; unfold len in *; lia).
        simpl firstn. rewrite app_nil_r. apply firstn_all2.
        rewrite length_skipn. unfold len in *. lia.
      - assert (p = []) by (apply len_nil_iff; lia). subst p.
        symmetry. apply skipn_nil. }
    rewrite Hbefore.
    split; [reflexivity|].
    split; [rewrite len_skipn by lia; lia|].
    split; [rewrite (len_firstn q 50) by lia; lia|].
    split; [exact Hsur|].
    split; [intros Hnone; lia|].
    intros _.
    exists (firstn (Z.to_nat (Z.max 0 (textIndex - 50))) p), (skipn (Z.to_nat 50) q).
    split; [|split; [|split]].
    + rewrite (app_assoc (firstn _ p)), firstn_skipn.
      rewrite firstn_skipn. exact Hfull.
    + rewrite len_firstn, len_skipn by lia. lia.
    + rewrite len_skipn by lia. lia.
    + rewrite (len_firstn q 50) by lia. lia.
Qed.

End SelectionContextFacts.


(** ** Stored history *)

Module HistoryFacts.

Lemma today_keys_app (todayStart : Z) (a b : list item) :
  today_keys todayStart (a ++ b) = today_keys todayStart a ++ today_keys todayStart b.
Proof. unfold today_keys. rewrite filter_app, map_app. reflexivity. Qed.

Lemma isDuplicateToday_false (todayStart : Z) (history : list item)
      (data : clipboardData) :
  isDuplicateToday todayStart history data = false ->
  ~ In (d_text data, d_url data) (today_keys todayStart history).
Proof.
  unfold isDuplicateToday, today_keys. intros H Hin.
  apply in_map_iff in Hin as (it & Hkey & Hit).
  apply filter_In in Hit as [Hit Htoday].
  injection Hkey as Ht Hu.
  assert (Hex : existsb (fun it =>
                   JsString.eqb (i_text it) (d_text data)
                   && JsString.eqb (i_url it) (d_url data)
                   && (todayStart <=? i_timestamp it)) history = true).
  { apply existsb_exists. exists it. split; [exact Hit|].
    rewrite Ht, Hu, !eqb_refl, Htoday. reflexivity. }
  congruence.
Qed.

(** A history of at most 1000 records stays one: a record that is saved
    goes to the front, and the history is then cut to its first 1000
    records, so that the oldest one gives way. *)
Theorem history_keeps_newest_1000 :
  forall (nearlyFull : bool) (todayStart : Z) (id : jsstring) (stored : bool)
         (history : list item) (data : clipboardData),
    (List.length history <= MAX_ITEMS)%nat ->
    let saved := saveClipboardItem nearlyFull todayStart id stored history data in
    let it := mk_item id (d_text data) (d_url data) (d_pageTitle data)
                      (d_timestamp data) (d_selectionInfo data) in
    (List.length saved <= MAX_ITEMS)%nat /\
    (saved = history \/ saved = firstn MAX_ITEMS (it :: history)) /\
    (nearlyFull = false ->
     isDuplicateToday todayStart history data = false ->
     stored = true ->
     saved = firstn MAX_ITEMS (it :: history)).
Proof.
  intros nearlyFull todayStart id stored history data Hlen saved it.
  assert (Hun : unshift_limited it history = firstn MAX_ITEMS (it :: history)).
  { unfold unshift_limited.
    destruct (Nat.ltb_spec MAX_ITEMS (List.length (it :: history))) as [Hgt | Hle].
    - rewrite removelast_firstn_len. f_equal. simpl in *. lia.
    - symmetry. apply firstn_all2. exact Hle. }
  assert (Hcut : (List.length (firstn MAX_ITEMS (it :: history)) <= MAX_ITEMS)%nat)
    by (rewrite length_firstn; lia).
  unfold saved, saveClipboardItem. fold it. rewrite Hun.
  destruct nearlyFull; [repeat split; auto; discriminate|].
  destruct (isDuplicateToday todayStart history data);
    [repeat split; auto; discriminate|].
  destruct stored; repeat split; auto; discriminate.
Qed.

Lemma history_keeps_newest_1000_witness :
  saveClipboardItem false 100 (str "id2") true
    [mk_item (str "id1") (str "fox") (str "https://a.example/") [] 50 None]
    (mk_data (str "fox") (str "https://a.example/") [] 120 None)
  = [mk_item (str "id2") (str "fox") (str "https://a.example/") [] 120 None;
     mk_item (str "id1") (str "fox") (str "https://a.example/") [] 50 None].
Proof.
  apply (proj2 (proj2 (history_keeps_newest_1000 false 100 (str "id2") true
           [mk_item (str "id1") (str "fox") (str "https://a.example/") [] 50 None]
           (mk_data (str "fox") (str "https://a.example/") [] 120 None)
           ltac:(vm_compute; lia)))); reflexivity.
Defined.

(** Saving never makes two records of today with the same text and the
    same page address: when no two records dated from [todayStart] on
    agree on both, none do afterwards. *)
Theorem no_same_day_duplicate :
  forall (nearlyFull : bool) (todayStart : Z) (id : jsstring) (stored : bool)
         (history : list item) (data : clipboardData),
    NoDup (today_keys todayStart history) ->
    NoDup (today_keys todayStart
             (saveClipboardItem nearlyFull todayStart id stored history data)).
Proof.
  intros nearlyFull todayStart id stored history data Hnd.
  unfold saveClipboardItem.
  destruct nearlyFull; [exact Hnd|].
  destruct (isDuplicateToday todayStart history data) eqn:Edup; [exact Hnd|].
  destruct stored; [|exact Hnd].
  set (it := mk_item id (d_text data) (d_url data) (d_pageTitle data)
                     (d_timestamp data) (d_selectionInfo data)).
  assert (Hcons : NoDup (today_keys todayStart (it :: history))).
  { unfold today_keys. cbn [filter].
    destruct (todayStart <=? i_timestamp it); [|exact Hnd].
    cbn [map]. constructor; [|exact Hnd].
    apply (isDuplicateToday_false _ _ _ Edup). }
  unfold unshift_limited.
  destruct (MAX_ITEMS <? List.length (it :: history))%nat; [|exact Hcons].
  rewrite (app_removelast_last it (l := it :: history)) in Hcons by discriminate.
  rewrite today_keys_app in Hcons. apply NoDup_app_remove_r in Hcons. exact Hcons.
Qed.

Lemma no_same_day_duplicate_witness :
  NoDup (today_keys 100
           (saveClipboardItem false 100 (str "id2") true
              [mk_item (str "id1") (str "fox") (str "https://a.example/") [] 120 None]
              (mk_data (str "fox") (str "https://a.example/") [] 130 None))).
Proof.
  apply no_same_day_duplicate. vm_compute. repeat constructor. intros [].
Defined.

End HistoryFacts.

(** ** Similarity and the fuzzy match *)

Module FuzzyFacts.

Local Open Scope Q_scope.

Lemma Qgtb_true (a b : Q) : Qgtb a b = true <-> b < a.
Proof.
  unfold Qgtb. rewrite negb_true_iff. split.
  - intros H. apply Qnot_le_lt. intros Hle. apply Qle_bool_iff in Hle. congruence.
  - intros H. destruct (Qle_bool a b) eqn:E; [|reflexivity].
    apply Qle_bool_iff in E. exfalso. apply (Qlt_not_le _ _ H E).
Qed.

Lemma Qgtb_false (a b : Q) : Qgtb a b = false <-> a <= b.
Proof.
  unfold Qgtb. rewrite negb_false_iff. apply Qle_bool_iff.
Qed.

Lemma count_matches_bounds (window shorter : jsstring) :
  (0 <= count_matches window shorter <= len window)%Z.
Proof.
  revert shorter. induction window as [|x w IH]; intros [|y s]; simpl;
    unfold len in *; simpl List.length; try lia.
  specialize (IH s). destruct (N.eqb x y); lia.
Qed.

Lemma ratio_bounds (matches windowSize : Z) :
  (0 <= matches <= Z.max 0 windowSize)%Z ->
  0 <= matches # Z.to_pos windowSize <= 1.
Proof.
  intros H. unfold Qle. simpl. split; [lia|].
  destruct windowSize; simpl in *; lia.
Qed.

Lemma calculateSimilarity_loop_bounds (rest shorter : jsstring) (windowSize : Z) :
  forall maxMatch,
    0 <= maxMatch <= 1 ->
    0 <= calculateSimilarity_loop rest shorter windowSize maxMatch <= 1.
Proof.
  induction rest as [|c rest IH]; intros maxMatch Hm; cbn [calculateSimilarity_loop];
    [exact Hm|].
  destruct (Z.ltb_spec (len (c :: rest)) windowSize) as [|Hge]; [exact Hm|].
  apply IH.
  assert (Hr : 0 <= count_matches (substring (c :: rest) 0 windowSize) shorter
                    # Z.to_pos windowSize <= 1).
  { apply ratio_bounds.
    pose proof (count_matches_bounds (substring (c :: rest) 0 windowSize) shorter) as Hc.
    assert (Hw : (len (substring (c :: rest) 0 windowSize) <= Z.max 0 windowSize)%Z).
    { unfold substring, clamp, len. rewrite length_firstn. lia. }
    lia. }
  split.
  - eapply Qle_trans; [apply (proj1 Hm) | apply Q.le_max_l].
  - apply Q.max_lub; [apply (proj2 Hm) | apply (proj2 Hr)].
Qed.

(** The similarity of two strings lies between 0 and 1, and is 1 when
    the longer one contains the shorter one. *)
Lemma calculateSimilarity_bounds (str1 str2 : jsstring) :
  0 <= calculateSimilarity str1 str2 <= 1.
Proof.
  unfold calculateSimilarity. cbv zeta.
  destruct (includes _ _).
  - split; unfold Qle; simpl; lia.
  - apply calculateSimilarity_loop_bounds. split; unfold Qle; simpl; lia.
Qed.

Lemma calculateSimilarity_includes (normalizedNode snippet : jsstring) :
  (len snippet <= len normalizedNode)%Z ->
  includes normalizedNode snippet = true ->
  calculateSimilarity normalizedNode snippet = 1.
Proof.
  intros Hlen Hinc. unfold calculateSimilarity. cbv zeta.
  destruct (Z.ltb_spec (len normalizedNode) (len snippet)); [lia|].
  destruct (Z.leb_spec (len snippet) (len normalizedNode)); [|lia].
  rewrite Hinc. reflexivity.
Qed.

Lemma fuzzy_loop_fst (snippet : jsstring) (nodes : list text_node) :
  forall best score,
    highlightByFuzzyMatch_loop snippet nodes best score
    = fst (highlightByFuzzyMatch_scored snippet nodes best score).
Proof.
  induction nodes as [|n nodes IH]; intros best score; simpl; [reflexivity|].
  destruct (len (normalizeText (tn_data n)) <? len snippet); [apply IH|].
  destruct (Qgtb _ score && Qgtb _ (7 # 10)); apply IH.
Qed.

(** What the loop keeps: a score that never goes down, that is the
    similarity of the node kept, and that no acceptable node exceeds. *)
Lemma fuzzy_loop_invariant (snippet : jsstring) (nodes : list text_node) :
  forall best score,
    let r := highlightByFuzzyMatch_scored snippet nodes best score in
    score <= snd r /\
    (r = (best, score) \/
     exists b, fst r = Some b /\ In b nodes /\ long_enough snippet b /\
               snd r = similarity snippet b /\ 7 # 10 < snd r) /\
    (forall n, In n nodes -> long_enough snippet n ->
               7 # 10 < similarity snippet n -> similarity snippet n <= snd r).
Proof.
  induction nodes as [|n nodes IH]; intros best score; cbn [highlightByFuzzyMatch_scored].
  - cbv zeta. simpl. split; [apply Qle_refl|]. split; [left; reflexivity|].
    intros ? [].
  - cbv zeta.
    destruct (Z.ltb_spec (len (normalizeText (tn_data n))) (len snippet)) as [Hshort | Hlong].
    + destruct (IH best score) as (H1 & H2 & H3). split; [exact H1|]. split.
      * destruct H2 as [H2 | (b & Hb)]; [left; exact H2 | right].
        exists b. destruct Hb as (Hb1 & Hb2 & Hb3). repeat split; try tauto.
        right. exact Hb2.
      * intros m [<- | Hm] Hl Hs; [unfold long_enough in Hl; lia | apply H3; assumption].
    + fold (similarity snippet n).
      destruct (Qgtb (similarity snippet n) score) eqn:E1;
        [destruct (Qgtb (similarity snippet n) (7 # 10)) eqn:E2|]; cbn [andb].
      * apply Qgtb_true in E1, E2.
        destruct (IH (Some n) (similarity snippet n)) as (H1 & H2 & H3).
        split; [eapply Qle_trans; [apply Qlt_le_weak, E1 | exact H1]|]. split.
        -- right. destruct H2 as [H2 | (b & Hb1 & Hb2 & Hb3)].
           ++ exists n. rewrite H2. cbn [fst snd].
              repeat split; try assumption. left. reflexivity.
           ++ exists b. repeat split; try tauto. right. exact Hb2.
        -- intros m [<- | Hm] Hl Hs; [exact H1 | apply H3; assumption].
      * apply Qgtb_true in E1. apply Qgtb_false in E2.
        destruct (IH best score) as (H1 & H2 & H3). split; [exact H1|]. split.
        -- destruct H2 as [H2 | (b & Hb1 & Hb2 & Hb3)]; [left; exact H2 | right].
           exists b. repeat split; try tauto. right. exact Hb2.
        -- intros m [<- | Hm] Hl Hs; [|apply H3; assumption].
           exfalso. apply (Qlt_not_le _ _ Hs E2).
      * apply Qgtb_false in E1.
        destruct (IH best score) as (H1 & H2 & H3). split; [exact H1|]. split.
        -- destruct H2 as [H2 | (b & Hb1 & Hb2 & Hb3)]; [left; exact H2 | right].
           exists b. repeat split; try tauto. right. exact Hb2.
        -- intros m [<- | Hm] Hl Hs; [|apply H3; assumption].
           eapply Qle_trans; [exact E1 | exact H1].
Qed.

(** The fuzzy match keeps a node exactly when some node long enough has
    a similarity above 0.7; the node kept is long enough, has a
    similarity above 0.7, and no node long enough has a higher one.  A
    node whose normalised text contains the snippet has similarity 1, so
    that the match then keeps a node of similarity 1. *)
Theorem fuzzy_match_keeps_the_best :
  forall (snippet : jsstring) (nodes : list text_node),
    let kept := highlightByFuzzyMatch_loop snippet nodes None 0 in
    (forall b, kept = Some b ->
               In b nodes /\ long_enough snippet b /\
               7 # 10 < similarity snippet b /\
               forall n, In n nodes -> long_enough snippet n ->
                         similarity snippet n <= similarity snippet b) /\
    (kept = None <->
     forall n, In n nodes -> long_enough snippet n ->
               similarity snippet n <= 7 # 10) /\
    (forall n, In n nodes -> long_enough snippet n ->
               includes (normalizeText (tn_data n)) snippet = true ->
               exists b, kept = Some b /\ similarity snippet b == 1).
Proof.
  intros snippet nodes kept. unfold kept. rewrite fuzzy_loop_fst.
  destruct (fuzzy_loop_invariant snippet nodes None 0) as (H1 & H2 & H3).
  cbv zeta in *.
  destruct (highlightByFuzzyMatch_scored snippet nodes None 0) as [r s] eqn:E.
  cbn [fst snd] in *.
  assert (Hbest : forall b, r = Some b ->
            In b nodes /\ long_enough snippet b /\ s = similarity snippet b /\ 7 # 10 < s).
  { intros b ->. destruct H2 as [H2 | (b' & Hb & Hrest)]; [discriminate|].
    injection Hb as <-. tauto. }
  split; [|split].
  - intros b Hb. destruct (Hbest b Hb) as (Hin & Hl & Hs & H7).
    rewrite <- Hs. repeat split; try assumption.
    intros n Hn Hln.
    destruct (Qlt_le_dec (7 # 10) (similarity snippet n)) as [Hhi | Hlo].
    + apply H3; assumption.
    + eapply Qle_trans; [exact Hlo | apply Qlt_le_weak, H7].
  - split.
    + intros -> n Hn Hln.
      destruct (Qlt_le_dec (7 # 10) (similarity snippet n)) as [Hhi | Hlo]; [|exact Hlo].
      exfalso. destruct H2 as [H2 | (b & Hb & _)]; [|discriminate].
      injection H2 as ->. specialize (H3 n Hn Hln Hhi).
      apply (Qlt_not_le _ _ Hhi). eapply Qle_trans; [exact H3|].
      unfold Qle. simpl. lia.
    + intros Hall. destruct r as [b|]; [|reflexivity]. exfalso.
      destruct (Hbest b eq_refl) as (Hin & Hl & Hs & H7).
      rewrite Hs in H7. apply (Qlt_not_le _ _ H7), Hall; assumption.
  - intros n Hn Hln Hinc.
    assert (Hone : similarity snippet n = 1)
      by (apply calculateSimilarity_includes; assumption).
    assert (Hs : 1 <= s).
    { rewrite <- Hone. apply H3; try assumption. rewrite Hone. reflexivity. }
    destruct r as [b|].
    + exists b. split; [reflexivity|].
      destruct (Hbest b eq_refl) as (_ & _ & Hsb & _). rewrite <- Hsb.
      apply Qle_antisym; [|exact Hs].
      rewrite Hsb. apply calculateSimilarity_bounds.
    + exfalso. destruct H2 as [H2 | (b & Hb & _)]; [|discriminate].
      injection H2 as ->. revert Hs. unfold Qle. simpl. lia.
Qed.

Lemma fuzzy_match_keeps_the_best_witness :
  exists b,
    highlightByFuzzyMatch_loop (str "quick brown fox")
      [order_node "nothing alike here"; order_node "The quick brown fox jumps"] None 0
    = Some b /\
    similarity (str "quick brown fox") b == 1.
Proof.
  apply (proj2 (proj2 (fuzzy_match_keeps_the_best (str "quick brown fox")
           [order_node "nothing alike here"; order_node "The quick brown fox jumps"]))
           (order_node "The quick brown fox jumps")).
  - right. left. reflexivity.
  - vm_compute. discriminate.
  - vm_compute. reflexivity.
Defined.

End FuzzyFacts.


(** ** The normal form of a text *)

Module NormalFormFacts.

Lemma Forall_collapse_spaces (P : code_unit -> Prop) (s : jsstring) :
  P 32%N -> Forall P s -> forall b, Forall P (collapse_spaces b s).
Proof.
  intros H32. induction 1 as [|c s Hc _ IH]; intros b; simpl; [constructor|].
  destruct (is_space c || N.eqb c 12288).
  - destruct b; [apply IH | constructor; [exact H32 | apply IH]].
  - constructor; [exact Hc | apply IH].
Qed.

Lemma Forall_trim (P : code_unit -> Prop) (s : jsstring) :
  Forall P s -> Forall P (trim s).
Proof.
  intros H. unfold trim.
  destruct (NormalizerFacts.trimStart_suffix s) as [w Hw].
  destruct (NormalizerFacts.trimEnd_prefix (trimStart s)) as [z Hz].
  rewrite Hw in H. apply Forall_app in H as [_ H].
  rewrite Hz in H. apply Forall_app in H as [H _]. exact H.
Qed.

Lemma length_collapse_spaces (s : jsstring) :
  forall b, (List.length (collapse_spaces b s) <= List.length s)%nat.
Proof.
  induction s as [|c s IH]; intros b; simpl; [lia|].
  destruct (is_space c || N.eqb c 12288); [destruct b|]; simpl;
    match goal with
    | |- context [collapse_spaces ?x s] => specialize (IH x)
    end; lia.
Qed.

Lemma length_trim (s : jsstring) : (List.length (trim s) <= List.length s)%nat.
Proof.
  unfold trim.
  destruct (NormalizerFacts.trimStart_suffix s) as [w Hw].
  destruct (NormalizerFacts.trimEnd_prefix (trimStart s)) as [z Hz].
  rewrite Hw at 2. rewrite Hz at 2. rewrite !length_app. lia.
Qed.


End NormalFormFacts.

(** ** What [findActualIndex] answers *)

Module ActualIndexSpec.

Lemma counted_units_cons (c : code_unit) (s : jsstring) :
  counted_units (c :: s)
  = (if 0 <? len (normalizeText [c]) then 1 else 0) + counted_units s.
Proof.
  unfold counted_units. cbn [filter]. unfold counted at 1.
  destruct (0 <? len (normalizeText [c])); simpl List.length; lia.
Qed.

Lemma ends_counted_cons (c : code_unit) (s : jsstring) :
  ends_counted s -> ends_counted (c :: s).
Proof.
  unfold ends_counted. simpl. destruct (rev s) as [|x r]; [contradiction|].
  simpl. auto.
Qed.

(** The loop stops right after the unit that brings the count to the
    index asked for, or at the end of the text. *)
Lemma findActualIndex_loop_spec (rest : jsstring) :
  forall i count k,
    count <= k ->
    exists n : nat,
      (n <= List.length rest)%nat /\
      findActualIndex_loop rest i count k = i + Z.of_nat n /\
      ((count + counted_units (firstn n rest) = k /\
        (n = 0%nat /\ count = k \/ ends_counted (firstn n rest))) \/
       (n = List.length rest /\ count + counted_units rest < k)).
Proof.
  induction rest as [|c rest IH]; intros i count k Hle.
  - exists 0%nat. simpl. split; [lia|]. split; [lia|].
    unfold counted_units. simpl.
    destruct (Z.eq_dec count k); [left | right]; repeat split; auto; lia.
  - cbn [findActualIndex_loop]. destruct (Z.ltb_spec count k) as [Hlt | Hge].
    + cbv zeta.
      set (count' := if 0 <? len (normalizeText [c]) then count + 1 else count).
      assert (Hc' : count' = count + (if 0 <? len (normalizeText [c]) then 1 else 0))
        by (unfold count'; destruct (0 <? len (normalizeText [c])); lia).
      destruct (IH (i + 1) count' k) as (n & Hn & Hloop & Hcases).
      { rewrite Hc'. destruct (0 <? len (normalizeText [c])); lia. }
      exists (S n). split; [simpl; lia|]. split; [rewrite Hloop; lia|].
      cbn [firstn]. rewrite !counted_units_cons.
      destruct Hcases as [[Hsum Hend] | [Hall Hless]].
      * left. split; [lia|]. right.
        destruct Hend as [[-> Hk] | Hend].
        -- unfold ends_counted. cbn [firstn rev app]. unfold counted.
           rewrite Hc' in Hk.
           destruct (0 <? len (normalizeText [c])); [reflexivity | lia].
        -- apply ends_counted_cons, Hend.
      * right. split; [simpl; lia | lia].
    + exists 0%nat. split; [lia|]. split; [lia|]. left.
      unfold counted_units. simpl. split; [lia|]. left. split; [reflexivity | lia].
Qed.

(** [findActualIndex] answers the index right after the unit that brings
    the number of counted units (those that are neither white space nor
    zero-width) to [normalizedIndex], if that index is still inside the
    text, and -1 otherwise; for an index of 0 or less the answer is 0,
    or -1 on the empty text. *)
Theorem findActualIndex_follows_the_counted_units :
  forall (original normalizedSearch : jsstring) (normalizedIndex : Z),
    let i := findActualIndex original normalizedSearch normalizedIndex in
    (normalizedIndex <= 0 -> i = match original with [] => -1 | _ => 0 end) /\
    (0 < normalizedIndex ->
     i <> -1 ->
     normalizedIndex <= i < len original /\
     counted_units (firstn (Z.to_nat i) original) = normalizedIndex /\
     ends_counted (firstn (Z.to_nat i) original)) /\
    (0 < normalizedIndex ->
     i = -1 ->
     counted_units original < normalizedIndex \/
     counted_units original = normalizedIndex /\ ends_counted original).
Proof.
  intros original t k i. unfold i, findActualIndex. cbv zeta. split; [|split].
  - intros Hk. destruct original as [|c rest]; [reflexivity|].
    cbn [findActualIndex_loop]. destruct (Z.ltb_spec 0 k); [lia|].
    unfold len. simpl List.length. destruct (Z.ltb_spec 0 (Z.of_nat (S (List.length rest)))); lia.
  - intros Hk.
    destruct (findActualIndex_loop_spec original 0 0 k ltac:(lia))
      as (n & Hn & -> & Hcases).
    destruct (Z.ltb_spec (0 + Z.of_nat n) (len original)) as [Hin | Hout];
      [|congruence].
    intros _. replace (Z.to_nat (0 + Z.of_nat n)) with n by lia.
    destruct Hcases as [[Hsum Hend] | [Hall Hless]].
    + destruct Hend as [[-> H0] | Hend]; [lia|].
      repeat split; try lia; try assumption.
      assert (counted_units (firstn n original) <= Z.of_nat n).
      { unfold counted_units. apply inj_le.
        eapply Nat.le_trans; [apply filter_length_le|].
        rewrite length_firstn. lia. }
      lia.
    + unfold len in Hin. lia.
  - intros Hk.
    destruct (findActualIndex_loop_spec original 0 0 k ltac:(lia))
      as (n & Hn & -> & Hcases).
    destruct (Z.ltb_spec (0 + Z.of_nat n) (len original)) as [Hin | Hout].
    + intros H. exfalso. lia.
    + intros _. assert (n = List.length original) by (unfold len in Hout; lia).
      subst n. rewrite firstn_all in Hcases.
      destruct Hcases as [[Hsum Hend] | [_ Hless]]; [|left; lia].
      right. split; [lia|]. destruct Hend as [[_ H0] | Hend]; [lia | exact Hend].
Qed.

Lemma findActualIndex_follows_the_counted_units_witness :
  6 <= findActualIndex (str "hello world") (str "world") 6 < len (str "hello world") /\
  counted_units
    (firstn (Z.to_nat (findActualIndex (str "hello world") (str "world") 6))
            (str "hello world")) = 6 /\
  ends_counted
    (firstn (Z.to_nat (findActualIndex (str "hello world") (str "world") 6))
            (str "hello world")).
Proof.
  apply (proj1 (proj2 (findActualIndex_follows_the_counted_units
                         (str "hello world") (str "world") 6))).
  - lia.
  - vm_compute. discriminate.
Defined.

End ActualIndexSpec.


(** ** Addresses written at capture lead back to the element *)

Module CodecFacts.

Lemma tagNames_get_node (doc : node) (p : path) :
  forall t i c cs,
    get_node doc p = Some (Element t i c cs) -> In t (tagNames doc).
Proof.
  revert doc. induction p as [|k p IH]; intros doc t i c cs Hget.
  - simpl in Hget. injection Hget as ->. simpl. left. reflexivity.
  - simpl in Hget. destruct doc as [d | t0 i0 c0 cs0]; simpl in Hget.
    + destruct k; discriminate.
    + destruct (nth_error cs0 k) as [x|] eqn:Hk; [|discriminate].
      simpl. right. apply in_flat_map. exists x. split.
      * eapply nth_error_In, Hk.
      * eapply IH, Hget.
Qed.

Lemma tags_case_consistent_spec (doc : node) (a b : jsstring) :
  tags_case_consistent doc = true ->
  In a (tagNames doc) -> In b (tagNames doc) ->
  toLowerCase a = toLowerCase b -> a = b.
Proof.
  unfold tags_case_consistent. intros Hall Ha Hb Hlow.
  rewrite forallb_forall in Hall. specialize (Hall a Ha).
  rewrite forallb_forall in Hall. specialize (Hall b Hb).
  rewrite Hlow, JsStringFacts.eqb_refl in Hall. simpl in Hall.
  apply JsStringFacts.eqb_eq, Hall.
Qed.

(** The step [getXPath] writes for a child selects that child again. *)
Lemma nth_with_tag_count_same_tag (t : jsstring) (cs : list node) :
  (forall t' i c ch, In (Element t' i c ch) cs ->
                     toLowerCase t' = toLowerCase t -> t' = t) ->
  forall k k0 i c ch,
    nth_error cs k = Some (Element t i c ch) ->
    nth_with_tag (toLowerCase t) (S (count_same_tag t (firstn k cs))) cs k0
    = Some (k0 + k)%nat.
Proof.
  induction cs as [|x cs IH]; intros Hcase k k0 i c ch Hk.
  - destruct k; discriminate.
  - destruct k as [|k].
    + simpl in Hk. injection Hk as ->. simpl.
      rewrite JsStringFacts.eqb_refl. f_equal. lia.
    + simpl in Hk. cbn [firstn count_same_tag nth_with_tag].
      assert (Htail : forall t' i c ch, In (Element t' i c ch) cs ->
                                        toLowerCase t' = toLowerCase t -> t' = t).
      { intros t' i' c' ch' Hin. apply (Hcase t' i' c' ch'). right. exact Hin. }
      specialize (IH Htail k (S k0) i c ch Hk).
      destruct x as [d | t' i' c' ch'].
      * rewrite IH. f_equal. lia.
      * destruct (JsString.eqb t' t) eqn:Heq.
        -- apply JsStringFacts.eqb_eq in Heq. subst t'.
           rewrite JsStringFacts.eqb_refl, IH. f_equal. lia.
        -- destruct (JsString.eqb (toLowerCase t') (toLowerCase t)) eqn:Hlow.
           ++ apply JsStringFacts.eqb_eq in Hlow.
              rewrite (Hcase t' i' c' ch' (or_introl eq_refl) Hlow),
                JsStringFacts.eqb_refl in Heq. discriminate.
           ++ rewrite IH. f_equal. lia.
Qed.

Lemma descend_app (steps steps' : list (jsstring * nat)) :
  forall n q m q',
    descend n steps = Some q ->
    get_node n q = Some m ->
    descend m steps' = Some q' ->
    descend n (steps ++ steps') = Some (q ++ q').
Proof.
  induction steps as [|[tag index] steps IH]; intros n q m q' Hd Hget Hd'.
  - simpl in Hd. injection Hd as <-. simpl in Hget. injection Hget as ->.
    exact Hd'.
  - cbn [descend app] in *.
    destruct (nth_with_tag tag index (childNodes n) 0) as [k|]; [|discriminate].
    destruct (nth_error (childNodes n) k) as [c|] eqn:Hk; [|discriminate].
    destruct (descend c steps) as [p|] eqn:Hp; [|discriminate].
    injection Hd as <-. simpl in Hget. rewrite Hk in Hget.
    rewrite (IH c p m q' Hp Hget Hd'). reflexivity.
Qed.

Lemma ids_lead_back_prefix (doc : node) (p : path) (k : nat) :
  ids_lead_back doc (p ++ [k]) = true -> ids_lead_back doc p = true.
Proof.
  unfold ids_lead_back. rewrite !forallb_forall. intros Hall n Hn.
  apply in_seq in Hn. specialize (Hall n).
  rewrite firstn_app in Hall.
  replace (n - List.length p)%nat with 0%nat in Hall by lia.
  cbn [firstn] in Hall. rewrite app_nil_r in Hall. apply Hall.
  apply in_seq. rewrite length_app. simpl. lia.
Qed.

Lemma ids_lead_back_here (doc : node) (p : path) (t id c : jsstring) (cs : list node) :
  ids_lead_back doc p = true ->
  get_node doc p = Some (Element t id c cs) ->
  truthy id = true ->
  find_id id doc = Some p.
Proof.
  unfold ids_lead_back. rewrite forallb_forall. intros Hall Hget Hid.
  specialize (Hall (List.length p)). rewrite firstn_all, Hget in Hall.
  destruct id as [|u id]; [discriminate|].
  assert (Hin : In (List.length p) (seq 0 (S (List.length p))))
    by (apply in_seq; lia).
  specialize (Hall Hin).
  destruct (find_id (u :: id) doc) as [q|]; [|discriminate].
  destruct (list_eq_dec Nat.eq_dec q p) as [-> | _]; [reflexivity | discriminate].
Qed.

(** The address of an element is an anchor, found again by its id or as
    the body, and steps that lead from the anchor down to the element. *)
Lemma getXPath_element_anchored (doc : node) :
  tags_case_consistent doc = true ->
  forall rp a,
    ids_lead_back doc (rev rp) = true ->
    getXPath_element doc rp = Some a ->
    exists b q steps bn,
      rev rp = b ++ q /\
      get_node doc b = Some bn /\
      descend bn steps = Some q /\
      ((exists id, a = IdThen id steps /\ truthy id = true /\ find_id id doc = Some b) \/
       (a = BodyThen steps /\ document_body doc = Some b)).
Proof.
  intros Hcase. induction rp as [|k rp IH]; intros a Hids Haddr.
  - cbn [getXPath_element rev] in *.
    destruct doc as [d | t id c cs]; [discriminate|]. cbn [get_node] in Haddr.
    destruct (truthy id) eqn:Hid.
    + injection Haddr as <-. exists [], [], [], (Element t id c cs).
      repeat split. left. exists id. repeat split; try assumption.
      apply (ids_lead_back_here _ [] t id c cs Hids eq_refl Hid).
    + destruct (document_body (Element t id c cs)) as [b|] eqn:Hb; [|discriminate].
      destruct (list_eq_dec Nat.eq_dec b []) as [-> | _]; [|discriminate].
      injection Haddr as <-. exists [], [], [], (Element t id c cs).
      repeat split. right. split; reflexivity.
  - cbn [getXPath_element] in Haddr.
    destruct (get_node doc (rev (k :: rp))) as [[d | t id c cs]|] eqn:Hget;
      try discriminate.
    destruct (truthy id) eqn:Hid.
    + injection Haddr as <-. exists (rev (k :: rp)), [], [], (Element t id c cs).
      rewrite app_nil_r. repeat split; try assumption. left. exists id.
      repeat split; try assumption.
      apply (ids_lead_back_here _ _ t id c cs Hids Hget Hid).
    + destruct (match document_body doc with
                | Some b => if list_eq_dec Nat.eq_dec b (rev (k :: rp)) then true else false
                | None => false
                end) eqn:Hbody.
      * injection Haddr as <-.
        destruct (document_body doc) as [b|] eqn:Hb; [|discriminate].
        destruct (list_eq_dec Nat.eq_dec b (rev (k :: rp))) as [-> | _]; [|discriminate].
        exists (rev (k :: rp)), [], [], (Element t id c cs).
        rewrite app_nil_r. repeat split; try assumption. right. split; reflexivity.
      * destruct (get_node doc (rev rp)) as [[d | pt pid pc siblings]|] eqn:Hparent;
          try discriminate.
        destruct (getXPath_element doc rp) as [parentPath|] eqn:Hpp; [|discriminate].
        injection Haddr as <-.
        cbn [rev] in Hids, Hget.
        destruct (IH parentPath (ids_lead_back_prefix _ _ _ Hids) eq_refl)
          as (b & q & steps & bn & Hrev & Hb & Hdesc & Hanchor).
        rewrite (ExhaustionFacts.get_node_app _ _ [k] _ Hparent) in Hget. cbn in Hget.
        destruct (nth_error siblings k) as [x|] eqn:Hk; [|discriminate].
        injection Hget as ->.
        exists b, (q ++ [k]), (steps ++ [(toLowerCase t,
                                           S (count_same_tag t (firstn k siblings)))]), bn.
        split; [cbn [rev]; rewrite Hrev, app_assoc; reflexivity|].
        split; [exact Hb|]. split.
        -- apply (descend_app _ _ bn q (Element pt pid pc siblings) [k] Hdesc).
           ++ rewrite <- (ExhaustionFacts.get_node_app _ _ q _ Hb), <- Hrev. exact Hparent.
           ++ cbn [descend childNodes].
              rewrite (nth_with_tag_count_same_tag t siblings) with (i := id) (c := c) (ch := cs).
              ** simpl. rewrite Hk. reflexivity.
              ** intros t' i' c' ch' Hin Hlow.
                 apply (tags_case_consistent_spec doc); try assumption.
                 --- destruct (In_nth_error _ _ Hin) as [j Hj].
                     apply (tagNames_get_node doc (rev rp ++ [j]) t' i' c' ch').
                     rewrite (ExhaustionFacts.get_node_app _ _ [j] _ Hparent). cbn.
                     rewrite Hj. reflexivity.
                 --- apply (tagNames_get_node doc (rev rp ++ [k]) t id c cs).
                     rewrite (ExhaustionFacts.get_node_app _ _ [k] _ Hparent). cbn.
                     rewrite Hk. reflexivity.
              ** exact Hk.
        -- destruct Hanchor as [(i0 & -> & Hi0 & Hfind) | [-> Hbody']].
           ++ left. exists i0. repeat split; assumption.
           ++ right. split; [reflexivity | exact Hbody'].
Qed.



End CodecFacts.


(** ** One wrap, and the text of the page stays *)

Module WrapFacts.

Lemma splice_surround_inv (doc d : node) (t : path) (s e : Z) :
  splice doc t (surround_text s e) = Some d ->
  exists data,
    get_node doc t = Some (Text data) /\
    0 <= s <= len data /\ 0 <= e <= len data.
Proof.
  intros Hs.
  destruct (splice_inv _ _ _ _ Hs)
    as (pp & k & tg & i & c & cs & x & ys & -> & Hp & Hn & Hf & _).
  destruct x as [data | ? ? ? ?]; [|discriminate].
  exists data. rewrite (ExhaustionFacts.get_node_app _ _ [k] _ Hp).
  simpl. rewrite Hn. split; [reflexivity|].
  simpl in Hf.
  destruct (Z.ltb_spec s 0); [discriminate|].
  destruct (Z.ltb_spec (len data) s); [discriminate|].
  destruct (Z.ltb_spec e 0); [discriminate|].
  destruct (Z.ltb_spec (len data) e); [discriminate|].
  lia.
Qed.

Lemma splice_mark_any (doc d : node) (t : path) (data : jsstring) (s e : Z) :
  get_node doc t = Some (Text data) ->
  s <= e ->
  splice doc t (surround_text s e) = Some d ->
  get_node d (mark_path t)
  = Some (highlightMark (if s <? e then [Text (substring data s e)] else [])).
Proof.
  intros Hg Hse Hs.
  destruct (splice_inv _ _ _ _ Hs)
    as (pp & k & tg & i & c & cs & x & ys & -> & Hp & Hn & Hf & Hd).
  rewrite (ExhaustionFacts.get_node_app _ _ [k] _ Hp) in Hg. simpl in Hg.
  rewrite Hn in Hg. injection Hg as ->. simpl in Hf.
  destruct ((s <? 0) || (len data <? s) || (e <? 0) || (len data <? e));
    [discriminate|].
  injection Hf as <-.
  destruct (path_last_split pp k) as [_ ->].
  rewrite (ExhaustionFacts.get_node_app _ _ [S k] _ Hd).
  cbn [get_node childNodes app].
  assert (Hk : List.length (firstn k cs) = k).
  { rewrite length_firstn. apply Nat.min_l, Nat.lt_le_incl, nth_error_Some. congruence. }
  destruct (LifecycleFacts.around_mark _ (firstn k cs)
              (Text (substring data 0 (Z.min s e)))
              (highlightMark (if Z.min s e <? e
                              then [Text (substring data (Z.min s e) e)] else []))
              (Text (substring_from data e)) (skipn (S k) cs)) as (Hnth & _ & _).
  rewrite Hk in Hnth. rewrite Hnth.
  replace (Z.min s e) with s by lia. reflexivity.
Qed.

Lemma wrapped_textContent (p p' : page) :
  wrapped p p' -> textContent (document p') = textContent (document p).
Proof.
  intros (t & data & s & e & d & _ & _ & _ & _ & Hs & _ & ->). simpl.
  apply (splice_textContent _ (surround_text_textContent s e) _ _ _ Hs).
Qed.

Lemma wrap_range_wrapped (r : range) :
  r_start r <= r_end r -> wraps_on_success (wrap_range r).
Proof.
  intros Hr p.
  destruct (ScoredMatchFacts.wrap_range_cases r p) as [-> | (d & Hs & ->)];
    [auto|].
  left. eexists. split; [reflexivity|].
  destruct (splice_surround_inv _ _ _ _ _ Hs) as (data & Hg & Hs0 & He0).
  exists (r_node r), data, (r_start r), (r_end r), d.
  split; [exact Hg|]. split; [lia|]. split; [exact Hr|]. split; [lia|].
  split; [exact Hs|]. split; [|reflexivity].
  apply (splice_mark_any _ _ _ _ _ _ Hg Hr Hs).
Qed.

Lemma wraps_ret_false : wraps_on_success (ret false).
Proof. intros p. right. left. reflexivity. Qed.

Lemma wraps_bind (A : Type) (m : M A) (k : A -> M bool) :
  reads_only m ->
  (forall a, wraps_on_success (k a)) ->
  wraps_on_success (bind m k).
Proof.
  intros Hm Hk p. unfold bind.
  destruct (Hm p) as [[a ->] | ->]; [apply Hk | auto].
Qed.

Lemma wraps_try_catch (m handler : M bool) :
  wraps_on_success m ->
  wraps_on_success handler ->
  wraps_on_success (try_catch m handler).
Proof.
  intros Hm Hh p. unfold try_catch.
  destruct (Hm p) as [(p' & -> & Hw) | [-> | ->]]; eauto.
Qed.

Lemma wraps_or_else (m next : M bool) :
  wraps_on_success m ->
  wraps_on_success next ->
  wraps_on_success (bind m (fun found => if found then ret true else next)).
Proof.
  intros Hm Hn p. unfold bind.
  destruct (Hm p) as [(p' & -> & Hw) | [-> | ->]]; unfold ret; eauto.
Qed.

Lemma wraps_set_range (t : text_node) (s e : Z) :
  wraps_on_success (bind (setRange t s e) wrap_range).
Proof.
  intros p. destruct (setRange_cases t s e p) as [Et | Er].
  - rewrite (bind_Throw _ _ _ _ _ _ Et). auto.
  - rewrite (bind_Normal _ _ _ _ _ _ _ Er).
    apply wrap_range_wrapped. simpl. lia.
Qed.

Lemma wraps_node (t : text_node) :
  wraps_on_success (bind (selectNodeContents t) wrap_range).
Proof.
  intros p. unfold bind, selectNodeContents, ret.
  apply wrap_range_wrapped. simpl. apply len_nonneg.
Qed.

Create HintDb wraps.

#[local] Hint Resolve wraps_ret_false wraps_bind wraps_try_catch wraps_or_else
  wraps_set_range wraps_node
  ExhaustionFacts.reads_only_setRange ExhaustionFacts.reads_only_selectNodeContents
  ExhaustionFacts.reads_only_bodyWalker
  ExhaustionFacts.reads_only_findAllMatchesWithScoring : wraps.

Lemma wraps_method2 (originalText : jsstring) (si : option Sel.t) :
  wraps_on_success (highlightByExactMatchWithScoring originalText si).
Proof.
  unfold highlightByExactMatchWithScoring, exactMatchWithScoring.
  destruct (len (normalizeText originalText) <? 5); [auto with wraps|].
  apply wraps_bind; [auto with wraps|].
  intros [|best others]; [auto with wraps|].
  destruct (m_score best <? minScore (normalizeText originalText)); [auto with wraps|].
  apply wraps_try_catch; [apply wraps_set_range|].
  destruct others as [|second rest]; [auto with wraps|].
  destruct (minScore (normalizeText originalText) <=? m_score second);
    [|auto with wraps].
  apply wraps_try_catch; [apply wraps_set_range | auto with wraps].
Qed.

Lemma wraps_tryPrefixMatch_loop (searchText : jsstring) (n : Z)
      (nodes : list text_node) :
  wraps_on_success (tryPrefixMatch_loop searchText n nodes).
Proof.
  induction nodes as [|node nodes IH]; cbn [tryPrefixMatch_loop]; [auto with wraps|].
  destruct (indexOf (normalizeText (tn_data node)) searchText =? -1); [exact IH|].
  destruct (findActualIndex (tn_data node) searchText
              (indexOf (normalizeText (tn_data node)) searchText) =? -1); [exact IH|].
  apply wraps_try_catch; [apply wraps_set_range|].
  apply wraps_try_catch; [apply wraps_node | exact IH].
Qed.

Lemma wraps_method3 (originalText : jsstring) :
  wraps_on_success (highlightByFirstLine originalText).
Proof.
  unfold highlightByFirstLine.
  destruct (filter _ _) as [|line lines]; [auto with wraps|].
  generalize [20; 10; 5]. intros prefixLengths.
  induction prefixLengths as [|n ns IH]; cbn [highlightByFirstLine_loop];
    [auto with wraps|].
  destruct (len (trim line) <? n); [exact IH|].
  destruct (len (normalizeText (substring (trim line) 0 n)) <? 3); [exact IH|].
  apply wraps_or_else; [|exact IH].
  unfold tryPrefixMatch. apply wraps_bind; [auto with wraps|].
  intros nodes. apply wraps_tryPrefixMatch_loop.
Qed.

Lemma wraps_windowed_loop (searchText : jsstring) (size : nat)
      (nodes : list text_node) :
  wraps_on_success (highlightByWindowedSearch_loop searchText size nodes).
Proof.
  induction nodes as [|node nodes IH]; cbn [highlightByWindowedSearch_loop];
    [auto with wraps|].
  destruct (includes _ searchText); [|exact IH].
  apply wraps_try_catch; [apply wraps_node | exact IH].
Qed.

Lemma wraps_method4 (originalText : jsstring) :
  wraps_on_success (highlightByWindowedSearch originalText).
Proof.
  unfold highlightByWindowedSearch.
  destruct (len (normalizeText (substring originalText 0 20)) <? 10);
    [auto with wraps|].
  apply wraps_bind; [auto with wraps|].
  intros nodes. apply wraps_windowed_loop.
Qed.

Lemma wraps_method5 (originalText : jsstring) :
  wraps_on_success (highlightByFuzzyMatch originalText).
Proof.
  unfold highlightByFuzzyMatch. cbv zeta.
  destruct (len _ <? 15); [auto with wraps|].
  apply wraps_bind; [auto with wraps|].
  intros nodes. destruct (highlightByFuzzyMatch_loop _ nodes None 0%Q);
    [|auto with wraps].
  apply wraps_try_catch; [apply wraps_node | auto with wraps].
Qed.

Lemma wraps_first_including (snippet : jsstring) (nodes : list text_node) :
  wraps_on_success (highlight_first_including snippet nodes).
Proof.
  induction nodes as [|node nodes IH]; cbn [highlight_first_including];
    [auto with wraps|].
  destruct (includes _ snippet); [|exact IH].
  apply wraps_try_catch; [apply wraps_node | exact IH].
Qed.

Lemma wraps_method6 (searchText : jsstring) :
  wraps_on_success (highlightByTextSearch searchText).
Proof.
  unfold highlightByTextSearch.
  destruct (negb (truthy searchText) || (len searchText <? 10)); [auto with wraps|].
  apply wraps_bind; [auto with wraps|].
  intros nodes. apply wraps_first_including.
Qed.

Lemma wraps_method7 (originalText : jsstring) :
  wraps_on_success (highlightByPartialMatch originalText).
Proof.
  unfold highlightByPartialMatch. cbv zeta.
  match goal with
  | |- wraps_on_success (highlightByPartialMatch_loop ?l) => generalize l
  end.
  intros portions.
  induction portions as [|portion portions IH]; cbn [highlightByPartialMatch_loop];
    [auto with wraps|].
  destruct (len (normalizeText portion) <? 8); [exact IH|].
  apply wraps_bind; [auto with wraps|].
  intros nodes. apply wraps_or_else; [|exact IH].
  apply wraps_first_including.
Qed.

(** What method 1 does up to the mark: every way out before the wrap
    leaves the page as it was. *)
Lemma method1_body_outcomes (si : Sel.t) (p : page) (c : completion bool) :
  tryXPathHighlight_body si p = c ->
  c = Normal false p \/ c = Throw p \/
  exists (t : path) (data : jsstring) (s e : Z) (d : node),
    get_node (document p) t = Some (Text data) /\
    0 <= s /\ s < e /\ e <= len data /\
    trim (substring data s e) <> [] /\
    splice (document p) t (surround_text s e) = Some d /\
    get_node d (mark_path t) = Some (highlightMark [Text (substring data s e)]) /\
    c = validate_mark (mark_path t) (with_document p d).
Proof.
  unfold tryXPathHighlight_body, bind at 1, get_document.
  destruct (match Sel.xpath si with
            | Some x => getElementByXPath (document p) x
            | None => None
            end) as [element|]; [|intros <-; auto].
  destruct (Sel.offset si) as [offset|]; [|intros <-; auto].
  destruct (findTextNode (document p) element offset) as [textNode|] eqn:Ef;
    [|intros <-; auto].
  apply ExhaustionFacts.findTextNode_sound in Ef. cbv zeta.
  set (actualOffset := Z.min offset (len (tn_data textNode))).
  set (endOffset := Z.min (actualOffset + Sel.length si) (len (tn_data textNode))).
  destruct (Z.leb_spec endOffset actualOffset) as [|Hlt]; cbn [orb];
    [intros <-; auto|].
  destruct (Z.ltb_spec (len (tn_data textNode)) endOffset) as [|Hend];
    [intros <-; auto|].
  destruct (setRange_cases textNode actualOffset endOffset p) as [Et | Er].
  { rewrite (bind_Throw _ _ _ _ _ _ Et). intros <-; auto. }
  rewrite (bind_Normal _ _ _ _ _ _ _ Er). clear Er. cbv beta.
  replace (Z.min actualOffset endOffset) with actualOffset by lia.
  unfold range_toString. cbn [r_data r_start r_end].
  destruct (0 <? len (trim (substring (tn_data textNode) actualOffset endOffset)))
    eqn:Eblank; cbn [negb]; [|intros <-; auto].
  destruct (text_mismatch _ _); [intros <-; auto|].
  unfold bind, surroundContents. cbn [r_node r_start r_end].
  destruct (splice (document p) (tn_path textNode)
              (surround_text actualOffset endOffset)) as [d|] eqn:Es;
    [|intros <-; auto].
  intros <-. right. right.
  exists (tn_path textNode), (tn_data textNode), actualOffset, endOffset, d.
  destruct (splice_surround_inv _ _ _ _ _ Es) as (data & Hg & Hs0 & He0).
  rewrite Ef in Hg. injection Hg as <-.
  split; [exact Ef|]. split; [lia|]. split; [exact Hlt|]. split; [lia|].
  split.
  { intros Hnil. rewrite Hnil in Eblank. discriminate. }
  split; [exact Es|].
  split; [apply (ExhaustionFacts.splice_mark _ _ _ _ _ _ Ef Hlt Es)|].
  reflexivity.
Qed.

Lemma method1_outcomes (si : Sel.t) (p : page) :
  tryXPathHighlight si p = Normal false p \/
  exists (t : path) (data : jsstring) (s e : Z) (d : node),
    get_node (document p) t = Some (Text data) /\
    0 <= s /\ s < e /\ e <= len data /\
    trim (substring data s e) <> [] /\
    splice (document p) t (surround_text s e) = Some d /\
    get_node d (mark_path t) = Some (highlightMark [Text (substring data s e)]) /\
    tryXPathHighlight si p
    = try_catch (validate_mark (mark_path t)) (ret false) (with_document p d).
Proof.
  unfold tryXPathHighlight.
  destruct (method1_body_outcomes si p _ eq_refl)
    as [E | [E | (t & data & s & e & d & Hg & Hs0 & Hlt & He & Hb & Hs & Hm & E)]].
  - left. unfold try_catch. rewrite E. reflexivity.
  - left. unfold try_catch. rewrite E. reflexivity.
  - right. exists t, data, s, e, d. repeat (split; [assumption|]).
    unfold try_catch. rewrite E. reflexivity.
Qed.

Lemma method1_keeps_text (si : Sel.t) : keeps_text (tryXPathHighlight si).
Proof.
  intros p.
  destruct (method1_outcomes si p)
    as [-> | (t & data & s & e & d & Hg & Hs0 & Hlt & He & Hblank & Hs & Hmark & ->)];
    [reflexivity|].
  assert (Hd : textContent d = textContent (document p))
    by apply (splice_textContent _ (surround_text_textContent s e) _ _ _ Hs).
  unfold try_catch, validate_mark, bind, get_document.
  cbn [document with_document]. rewrite Hmark.
  destruct (body d) as [b|]; [|simpl; exact Hd].
  destruct (is_prefix b (mark_path t)); cbn [negb]; [|simpl; exact Hd].
  cbn [textContent highlightMark flat_map]. rewrite app_nil_r.
  destruct (Z.ltb_spec 0 (len (trim (substring data s e)))) as [_ | Hz].
  - simpl. exact Hd.
  - exfalso. apply Hblank, len_nil_iff. pose proof (len_nonneg (trim (substring data s e))).
    lia.
Qed.

Lemma method1_wrapped (si : Sel.t) (p p' : page) :
  tryXPathHighlight si p = Normal true p' -> wrapped p p'.
Proof.
  destruct (method1_outcomes si p)
    as [-> | (t & data & s & e & d & Hg & Hs0 & Hlt & He & Hblank & Hs & Hmark & ->)];
    [discriminate|].
  unfold try_catch.
  destruct (validate_mark (mark_path t) (with_document p d)) as [b q | q] eqn:Ev;
    [|discriminate].
  intros H. injection H as -> ->.
  destruct (validate_mark_true _ _ _ Ev) as (m & b & _ & _ & _ & _ & ->).
  exists t, data, s, e, d. cbn [document with_document scrolledToTop
                                 scrolledIntoView timers].
  split; [exact Hg|]. split; [exact Hs0|]. split; [lia|]. split; [exact He|].
  split; [exact Hs|]. split; [|reflexivity].
  rewrite Hmark. destruct (Z.ltb_spec s e); [reflexivity | lia].
Qed.

Lemma wraps_keeps_text (m : M bool) : wraps_on_success m -> keeps_text m.
Proof.
  intros Hm p. destruct (Hm p) as [(p' & -> & Hw) | [-> | ->]]; simpl;
    [apply wrapped_textContent, Hw | reflexivity | reflexivity].
Qed.

Section Methods.

Variable method1 : Sel.t -> M bool.
Variable method2 : jsstring -> option Sel.t -> M bool.
Variables method3 method4 method5 method6 method7 : jsstring -> M bool.

Hypothesis keeps1 : forall si, keeps_text (method1 si).
Hypothesis keeps2 : forall text si, keeps_text (method2 text si).
Hypothesis keeps3 : forall text, keeps_text (method3 text).
Hypothesis keeps4 : forall text, keeps_text (method4 text).
Hypothesis keeps5 : forall text, keeps_text (method5 text).
Hypothesis keeps6 : forall text, keeps_text (method6 text).
Hypothesis keeps7 : forall text, keeps_text (method7 text).

Lemma attempt_keeps_text (k : nat) (precondition : bool) (method : M bool)
      (st : list nat * completion bool) :
  keeps_text method ->
  textContent (document (page_of (snd (attempt k precondition method st))))
  = textContent (document (page_of (snd st))).
Proof.
  intros Hm. destruct st as [called [highlighted p | p]]; simpl; [|reflexivity].
  destruct (negb highlighted && precondition); simpl; [apply Hm | reflexivity].
Qed.

Lemma highlightText_with_keeps_text (selectionInfo : option Sel.t) (p : page) :
  textContent
    (document
       (page_of (snd (highlightText_with method1 method2 method3 method4 method5
                                         method6 method7 selectionInfo p))))
  = textContent (document p).
Proof.
  unfold highlightText_with, waitForPageStable.
  destruct (body (document p)); [|reflexivity].
  assert (Hm : textContent
                 (document
                    (page_of (snd (highlightText_methods
                                     method1 method2 method3 method4 method5
                                     method6 method7 selectionInfo p))))
               = textContent (document p)).
  { unfold highlightText_methods. cbv zeta.
    repeat (rewrite attempt_keeps_text; [|solve [auto]]).
    rewrite attempt_keeps_text; [reflexivity|].
    destruct selectionInfo; [apply keeps1 | intros q; reflexivity]. }
  destruct (highlightText_methods _ _ _ _ _ _ _ selectionInfo p)
    as [called [[|] p' | p']]; simpl in *; exact Hm.
Qed.

End Methods.

(** Relocation never changes the text of the page: whatever the request
    and the page, and whether a method succeeds, all decline or one
    throws, the document [highlightText] leaves has the text content of
    the document it found. *)
Theorem relocation_keeps_the_text :
  forall (selectionInfo : option Sel.t) (p : page),
    textContent (document (page_of (snd (highlightText selectionInfo p))))
    = textContent (document p).
Proof.
  intros selectionInfo p. unfold highlightText.
  apply highlightText_with_keeps_text.
  - apply method1_keeps_text.
  - intros text si. apply wraps_keeps_text, wraps_method2.
  - intros text. apply wraps_keeps_text, wraps_method3.
  - intros text. apply wraps_keeps_text, wraps_method4.
  - intros text. apply wraps_keeps_text, wraps_method5.
  - intros text. apply wraps_keeps_text, wraps_method6.
  - intros text. apply wraps_keeps_text, wraps_method7.
Qed.

Lemma first_wins_wrapped (q : list strategy) :
  Forall (fun s => wraps_on_success (snd s)) q ->
  forall p p', snd (first_wins q p) = Normal true p' -> wrapped p p'.
Proof.
  induction 1 as [|[[k pre] run] q Hrun _ IH]; intros p p'; simpl.
  - discriminate.
  - destruct pre; [|apply IH].
    simpl in Hrun. destruct (Hrun p) as [(p1 & -> & Hw) | [-> | ->]]; simpl.
    + intros H. injection H as <-. exact Hw.
    + specialize (IH p p'). destruct (first_wins q p). exact IH.
    + discriminate.
Qed.

(** A relocation that succeeds has wrapped one range of one text node in
    a highlight mark, scrolled the mark into view and scheduled its
    removal, and has changed nothing else: the methods that declined
    before the successful one have left the page as they found it.  The
    one exception is method 1, which can decline and leave its own mark
    behind; the successful method then starts from the page method 1
    left. *)
Theorem successful_relocation_wraps_one_range :
  forall (selectionInfo : option Sel.t) (p p' : page),
    snd (highlightText_methods tryXPathHighlight highlightByExactMatchWithScoring
           highlightByFirstLine highlightByWindowedSearch highlightByFuzzyMatch
           highlightByTextSearch highlightByPartialMatch selectionInfo p)
      = Normal true p' ->
    wrapped p p' \/
    exists si p1,
      selectionInfo = Some si /\ Sel.xpath si <> None /\
      tryXPathHighlight si p = Normal false p1 /\
      wrapped p1 p'.
Proof.
  intros selectionInfo p p'.
  rewrite CascadeFacts.methods_fold, CascadeFacts.attempts_first_wins.
  cbn [snd app].
  assert (Hrest : forall originalText surroundingText,
    Forall (fun s => wraps_on_success (snd s))
      [ (2%nat, 5 <=? len originalText,
         highlightByExactMatchWithScoring originalText selectionInfo);
        (3%nat, 10 <=? len originalText, highlightByFirstLine originalText);
        (4%nat, 15 <=? len originalText, highlightByWindowedSearch originalText);
        (5%nat, 20 <=? len originalText, highlightByFuzzyMatch originalText);
        (6%nat, truthy surroundingText, highlightByTextSearch surroundingText);
        (7%nat, 10 <=? len originalText, highlightByPartialMatch originalText) ]).
  { intros originalText surroundingText.
    repeat apply Forall_cons; [| | | | | | apply Forall_nil]; simpl.
    - apply wraps_method2.
    - apply wraps_method3.
    - apply wraps_method4.
    - apply wraps_method5.
    - apply wraps_method6.
    - apply wraps_method7. }
  unfold queue_of. cbv zeta.
  match goal with
  | |- context [first_wins (?first :: ?rest) p] =>
      assert (Htail : Forall (fun x => wraps_on_success (snd x)) rest)
        by apply Hrest;
      generalize dependent rest
  end.
  intros tail Htail. clear Hrest. cbn [first_wins].
  destruct selectionInfo as [si|].
  - destruct (Sel.xpath si) as [x|] eqn:Ex.
    + destruct (tryXPathHighlight si p) as [[|] p1 | p1] eqn:E1; cbn [snd].
      * intros H. injection H as <-. left. apply (method1_wrapped _ _ _ E1).
      * intros H. right. exists si, p1.
        split; [reflexivity|]. split; [congruence|]. split; [exact E1|].
        pose proof (first_wins_wrapped _ Htail p1 p') as Hw.
        destruct (first_wins tail p1). apply Hw, H.
      * discriminate.
    + intros H. left. apply (first_wins_wrapped _ Htail _ _ H).
  - intros H. left. apply (first_wins_wrapped _ Htail _ _ H).
Qed.

Lemma successful_relocation_wraps_one_range_witness :
  wrapped fox_page
          (page_of (snd (highlightText_methods
                           tryXPathHighlight highlightByExactMatchWithScoring
                           highlightByFirstLine highlightByWindowedSearch
                           highlightByFuzzyMatch highlightByTextSearch
                           highlightByPartialMatch (Some fox_anchor) fox_page))) \/
  exists si p1,
    Some fox_anchor = Some si /\ Sel.xpath si <> None /\
    tryXPathHighlight si fox_page = Normal false p1 /\
    wrapped p1
            (page_of (snd (highlightText_methods
                             tryXPathHighlight highlightByExactMatchWithScoring
                             highlightByFirstLine highlightByWindowedSearch
                             highlightByFuzzyMatch highlightByTextSearch
                             highlightByPartialMatch (Some fox_anchor) fox_page))).
Proof.
  apply (successful_relocation_wraps_one_range (Some fox_anchor) fox_page).
  vm_compute. reflexivity.
Defined.

End WrapFacts.


(** ** Witnesses of the blacklist and of the selection context *)

Module CaptureScenarios.

Lemma blacklist_matches_domain_and_subdomains_witness :
  isInUserBlacklist (Some (str "Mail.Example.com")) (Some [str "example.COM"]) = true.
Proof.
  apply (proj2 (BlacklistFacts.blacklist_matches_domain_and_subdomains
                  (Some (str "Mail.Example.com")) (Some [str "example.COM"]))).
  exists (str "Mail.Example.com"), [str "example.COM"], (str "example.COM").
  split; [reflexivity|]. split; [reflexivity|]. split; [left; reflexivity|].
  right. exists (str "mail"). reflexivity.
Defined.

Lemma context_windows_adjoin_first_occurrence_witness :
  c_length quick_context = len (selectedText quick_selection) /\
  len (c_textBefore quick_context) <= 50 /\
  len (c_textAfter quick_context) <= 50 /\
  len (c_surroundingText quick_context) <= 200 /\
  (indexOf (textContent (Text (str "The quick brown fox")))
           (selectedText quick_selection) = -1 ->
   c_textBefore quick_context = [] /\ c_textAfter quick_context = []) /\
  (0 <= indexOf (textContent (Text (str "The quick brown fox")))
                (selectedText quick_selection) ->
   exists a b,
     textContent (Text (str "The quick brown fox"))
     = a ++ c_textBefore quick_context ++ selectedText quick_selection
         ++ c_textAfter quick_context ++ b /\
     len a + len (c_textBefore quick_context)
     = indexOf (textContent (Text (str "The quick brown fox")))
               (selectedText quick_selection) /\
     len (c_textBefore quick_context)
     = Z.min 50 (indexOf (textContent (Text (str "The quick brown fox")))
                         (selectedText quick_selection)) /\
     len (c_textAfter quick_context)
     = Z.min 50 (len (textContent (Text (str "The quick brown fox")))
                 - indexOf (textContent (Text (str "The quick brown fox")))
                           (selectedText quick_selection)
                 - len (selectedText quick_selection))).
Proof.
  apply (SelectionContextFacts.context_windows_adjoin_first_occurrence
           (document fox_page) quick_selection quick_context
           (Text (str "The quick brown fox")));
    vm_compute; reflexivity.
Defined.

End CaptureScenarios.

(** ** Hosts from which nothing is recorded *)

Module SensitiveFacts.

(** Nothing is recorded on a page whose host, letter case aside, is one
    of the listed sensitive hosts or a subdomain of one, or contains one
    of the keywords anywhere in its name, or is blacklisted by the user:
    whatever is selected and whatever the other settings, the copy
    listener sends no record. *)
Theorem nothing_recorded_from_guarded_hosts :
  forall (contextValid incognitoMode : bool) (h : jsstring)
         (blacklist : option (list jsstring)) (nearPasswordField : bool)
         (matchesPattern : jsstring -> bool) (selection : jsstring),
    (exists domain,
        In domain SENSITIVE_HOSTNAMES /\
        (toLowerCase h = domain \/ exists sub, toLowerCase h = sub ++ str "." ++ domain)) \/
    (exists keyword a b,
        In keyword SENSITIVE_HOSTNAME_KEYWORDS /\ toLowerCase h = a ++ keyword ++ b) \/
    isInUserBlacklist (Some h) blacklist = true ->
    on_copy contextValid incognitoMode (Some h) blacklist nearPasswordField
            matchesPattern selection = None.
Proof.
  intros cv inc h bl near pat sel Hguard.
  unfold on_copy, copy_listener.
  destruct cv; [|reflexivity]. cbn [negb].
  destruct (trim sel) as [|c copied]; [reflexivity|].
  destruct inc; [reflexivity|].
  destruct (isInUserBlacklist (Some h) bl) eqn:Ebl; [reflexivity|].
  assert (Hs : sensitive_host (Some h) = true).
  { unfold sensitive_host. cbv zeta.
    destruct Hguard as [(domain & Hin & Hm) | [(keyword & a & b & Hin & Hm) | Hb]].
    - replace (existsb (fun domain0 => host_matches (toLowerCase h) domain0)
                       SENSITIVE_HOSTNAMES) with true; [reflexivity|].
      symmetry. apply existsb_exists. exists domain. split; [exact Hin|].
      unfold host_matches. apply orb_true_iff. destruct Hm as [Hm | Hm].
      + left. apply eqb_eq, Hm.
      + right. apply endsWith_spec, Hm.
    - destruct (existsb (fun domain => host_matches (toLowerCase h) domain)
                        SENSITIVE_HOSTNAMES); [reflexivity|].
      apply existsb_exists. exists keyword. split; [exact Hin|].
      apply includes_spec. exists a, b. exact Hm.
    - congruence. }
  unfold shouldSkipRecording. rewrite Hs. reflexivity.
Qed.

Lemma nothing_recorded_from_guarded_hosts_witness :
  on_copy true false (Some (str "Author.Example.org")) (Some []) false
          (fun _ => false) (str "a line of prose") = None.
Proof.
  apply nothing_recorded_from_guarded_hosts.
  right. left. exists (str "auth"), [], (str "or.example.org").
  split; [simpl; tauto | reflexivity].
Defined.

End SensitiveFacts.

(** ** The matches of method 2 *)

Module MatchesFacts.

Lemma occurrences_In (ns rest : jsstring) :
  forall pos i,
    In i (occurrences ns rest pos) <->
    exists before after, rest = before ++ ns ++ after /\ i = pos + len before.
Proof.
  induction rest as [|c rest IH]; intros pos i.
  - cbn [occurrences]. split.
    + destruct (prefixb ns []) eqn:E; [|contradiction].
      intros [<- | []]. apply prefixb_spec in E as [r E].
      exists [], r. split; [exact E | unfold len; simpl; lia].
    + intros (before & after & H & ->).
      symmetry in H. apply app_eq_nil in H as [-> H].
      apply app_eq_nil in H as [-> _]. simpl. left. unfold len. simpl. lia.
  - cbn [occurrences]. rewrite in_app_iff, IH. split.
    + intros [Hhead | (before & after & -> & ->)].
      * destruct (prefixb ns (c :: rest)) eqn:E; [|contradiction].
        destruct Hhead as [<- | []]. apply prefixb_spec in E as [r E].
        exists [], r. split; [exact E | unfold len; simpl; lia].
      * exists (c :: before), after. split; [reflexivity|].
        unfold len. simpl List.length. lia.
    + intros ([|x before] & after & H & ->).
      * left. replace (prefixb ns (c :: rest)) with true.
        -- left. unfold len. simpl. lia.
        -- symmetry. apply prefixb_spec. exists after. exact H.
      * right. simpl in H. injection H as _ H. exists before, after.
        split; [exact H|]. unfold len. simpl List.length. lia.
Qed.

Lemma node_matches_In (ns : jsstring) (si : option Sel.t) (node : text_node)
      (m : scored) :
  In m (node_matches ns si node) <->
  m_node m = node /\
  (exists before after,
      normalizeText (tn_data node) = before ++ ns ++ after /\
      len before = m_normalizedIndex m) /\
  m_index m = findActualIndex (tn_data node) ns (m_normalizedIndex m) /\
  m_index m <> -1 /\
  m_score m = calculateContextScore node (m_index m) si.
Proof.
  unfold node_matches. rewrite in_flat_map. split.
  - intros (index & Hocc & Hm). cbv zeta in Hm.
    apply occurrences_In in Hocc as (before & after & Hn & ->).
    destruct (Z.eqb_spec (findActualIndex (tn_data node) ns (0 + len before)) (-1))
      as [|Hne]; [contradiction|].
    destruct Hm as [<- | []]. cbn [m_node m_index m_score m_normalizedIndex].
    repeat split; try assumption.
    exists before, after. split; [exact Hn | lia].
  - intros (Hnode & (before & after & Hn & Hb) & Hi & Hne & Hs).
    exists (m_normalizedIndex m). split.
    + apply occurrences_In. exists before, after. split; [exact Hn | lia].
    + cbv zeta. rewrite <- Hi.
      destruct (Z.eqb_spec (m_index m) (-1)) as [|_]; [contradiction|].
      left. destruct m as [n i s k]. simpl in *. subst. reflexivity.
Qed.

(** The matches [findAllMatchesWithScoring] returns for a search text of
    at least three normalised units are exactly these: for every text
    node under the body and every place where the normalised search text
    occurs in the normalised text of the node (overlapping places
    included), provided [findActualIndex] maps the place back into the
    node, one match with that node, that place, the index
    [findActualIndex] gives and the score [calculateContextScore] gives
    there. *)
Theorem scored_matches_are_the_occurrences :
  forall (searchText : jsstring) (si : option Sel.t) (p p' : page)
         (matches : list scored),
    findAllMatchesWithScoring searchText si p = Normal matches p' ->
    3 <= len (normalizeText searchText) ->
    exists b,
      body (document p) = Some b /\
      forall m,
        In m matches <->
        In (m_node m) (treeWalker (document p) b) /\
        (exists before after,
            normalizeText (tn_data (m_node m))
            = before ++ normalizeText searchText ++ after /\
            len before = m_normalizedIndex m) /\
        m_index m = findActualIndex (tn_data (m_node m)) (normalizeText searchText)
                                    (m_normalizedIndex m) /\
        m_index m <> -1 /\
        m_score m = calculateContextScore (m_node m) (m_index m) si.
Proof.
  intros searchText si p p' matches Hfind Hlen.
  unfold findAllMatchesWithScoring, bind, bodyWalker, ret in Hfind.
  destruct (Z.ltb_spec (len (normalizeText searchText)) 3); [lia|].
  destruct (body (document p)) as [b|]; [|discriminate].
  injection Hfind as <- <-. exists b. split; [reflexivity|].
  intros m. rewrite sort_by_score_In, in_flat_map. split.
  - intros (node & Hnode & Hm). apply node_matches_In in Hm as (<- & Hrest).
    split; [exact Hnode | exact Hrest].
  - intros (Hnode & Hrest). exists (m_node m). split; [exact Hnode|].
    apply node_matches_In. split; [reflexivity | exact Hrest].
Qed.

Lemma scored_matches_are_the_occurrences_witness :
  exists b,
    body (document fox_page) = Some b /\
    forall m,
      In m [phrase_match] <->
      In (m_node m) (treeWalker (document fox_page) b) /\
      (exists before after,
          normalizeText (tn_data (m_node m))
          = before ++ normalizeText (str "The quick brown") ++ after /\
          len before = m_normalizedIndex m) /\
      m_index m = findActualIndex (tn_data (m_node m))
                                  (normalizeText (str "The quick brown"))
                                  (m_normalizedIndex m) /\
      m_index m <> -1 /\
      m_score m = calculateContextScore (m_node m) (m_index m) (Some phrase_anchor).
Proof.
  apply (scored_matches_are_the_occurrences
           (str "The quick brown") (Some phrase_anchor) fox_page fox_page).
  - vm_compute. reflexivity.
  - vm_compute. discriminate.
Defined.

Lemma filter_insert_scored (v : Z) (x : scored) (l : list scored) :
  filter (fun m => m_score m =? v) (insert_scored x l)
  = filter (fun m => m_score m =? v) (x :: l).
Proof.
  induction l as [|y l IH]; [reflexivity|].
  cbn [insert_scored]. destruct (Z.ltb_spec (m_score x) (m_score y)) as [Hlt | _];
    [|reflexivity].
  cbn [filter] in *. rewrite IH.
  destruct (Z.eqb_spec (m_score x) v) as [Hx | _];
    destruct (Z.eqb_spec (m_score y) v) as [Hy | _]; try reflexivity.
  lia.
Qed.

Lemma filter_sort_by_score (v : Z) (l : list scored) :
  filter (fun m => m_score m =? v) (sort_by_score l)
  = filter (fun m => m_score m =? v) l.
Proof.
  induction l as [|x l IH]; [reflexivity|].
  cbn [sort_by_score]. rewrite filter_insert_scored. cbn [filter].
  rewrite IH. reflexivity.
Qed.

(** The matches come in descending order of score, and matches with the
    same score stay in the order they were found in: text nodes in
    document order, and places within a node from left to right.  The
    page is not changed, and a search text of fewer than three
    normalised units has no match. *)
Theorem scored_matches_sorted_stably :
  forall (searchText : jsstring) (si : option Sel.t) (p p' : page)
         (matches : list scored),
    findAllMatchesWithScoring searchText si p = Normal matches p' ->
    p' = p /\
    descending matches /\
    (len (normalizeText searchText) < 3 -> matches = []) /\
    (3 <= len (normalizeText searchText) ->
     exists b,
       body (document p) = Some b /\
       forall v,
         filter (fun m => m_score m =? v) matches
         = filter (fun m => m_score m =? v)
                  (flat_map (node_matches (normalizeText searchText) si)
                            (treeWalker (document p) b))).
Proof.
  intros searchText si p p' matches Hfind.
  unfold findAllMatchesWithScoring, bind, bodyWalker, ret in Hfind.
  destruct (Z.ltb_spec (len (normalizeText searchText)) 3) as [Hshort | Hlong].
  - injection Hfind as <- <-.
    split; [reflexivity|]. split; [constructor|].
    split; [reflexivity | intros H; lia].
  - destruct (body (document p)) as [b|]; [|discriminate].
    injection Hfind as <- <-.
    split; [reflexivity|]. split; [apply sort_by_score_descending|].
    split; [intros H; lia|]. intros _. exists b. split; [reflexivity|].
    intros v. apply filter_sort_by_score.
Qed.

Lemma scored_matches_sorted_stably_witness :
  fox_page = fox_page /\
  descending [phrase_match] /\
  (len (normalizeText (str "The quick brown")) < 3 -> [phrase_match] = []) /\
  (3 <= len (normalizeText (str "The quick brown")) ->
   exists b,
     body (document fox_page) = Some b /\
     forall v,
       filter (fun m => m_score m =? v) [phrase_match]
       = filter (fun m => m_score m =? v)
                (flat_map (node_matches (normalizeText (str "The quick brown"))
                                        (Some phrase_anchor))
                          (treeWalker (document fox_page) b))).
Proof.
  apply (scored_matches_sorted_stably
           (str "The quick brown") (Some phrase_anchor) fox_page fox_page).
  vm_compute. reflexivity.
Defined.

End MatchesFacts.

(** ** Method 6 wraps the first text node that holds the snippet *)

Module TextSearchFacts.

Lemma get_node_last (pp : path) :
  forall n k x,
    get_node n (pp ++ [k]) = Some x ->
    exists t i c cs,
      get_node n pp = Some (Element t i c cs) /\ nth_error cs k = Some x.
Proof.
  induction pp as [|j pp IH]; intros n k x H.
  - simpl in H. destruct n as [d | t i c cs]; simpl in H.
    + destruct k; discriminate.
    + destruct (nth_error cs k) as [y|] eqn:E; [|discriminate].
      injection H as <-. exists t, i, c, cs. split; [reflexivity | exact E].
  - simpl in H. simpl. destruct (nth_error (childNodes n) j); [|discriminate].
    apply IH, H.
Qed.

Lemma walker_node_placed (doc : node) (root : path) (t : text_node) :
  In t (treeWalker doc root) ->
  get_node doc (tn_path t) = Some (Text (tn_data t)) /\ tn_path t <> [].
Proof.
  intros Hin. pose proof (ExhaustionFacts.treeWalker_sound _ _ _ Hin) as Hg.
  split; [exact Hg|]. intros Hnil. rewrite Hnil in Hg. simpl in Hg.
  injection Hg as ->. unfold treeWalker in Hin.
  destruct root as [|k root]; simpl in Hin; [contradiction|].
  destruct k; contradiction.
Qed.

(** Wrapping the whole content of a text node of the document cannot
    fail. *)
Lemma wrap_node_succeeds (p : page) (t : text_node) :
  get_node (document p) (tn_path t) = Some (Text (tn_data t)) ->
  tn_path t <> [] ->
  exists d,
    splice (document p) (tn_path t) (surround_text 0 (len (tn_data t))) = Some d /\
    bind (selectNodeContents t) wrap_range p
    = Normal true (mk_page d (scrolledToTop p)
                           (scrolledIntoView p ++ [mark_path (tn_path t)])
                           (timers p ++ [mark_path (tn_path t)])).
Proof.
  intros Hg Hne.
  destruct (exists_last Hne) as (pp & k & Hp). rewrite Hp in Hg.
  destruct (get_node_last _ _ _ _ Hg) as (tg & i & c & cs & Hpp & Hk).
  assert (Hf : surround_text 0 (len (tn_data t)) (Text (tn_data t))
               = Some [Text (substring (tn_data t) 0 (Z.min 0 (len (tn_data t))));
                       highlightMark
                         (if Z.min 0 (len (tn_data t)) <? len (tn_data t)
                          then [Text (substring (tn_data t)
                                                (Z.min 0 (len (tn_data t)))
                                                (len (tn_data t)))]
                          else []);
                       Text (substring_from (tn_data t) (len (tn_data t)))]).
  { unfold surround_text. pose proof (len_nonneg (tn_data t)).
    destruct (Z.ltb_spec 0 0); [lia|].
    destruct (Z.ltb_spec (len (tn_data t)) 0); [lia|].
    destruct (Z.ltb_spec (len (tn_data t)) (len (tn_data t))); [lia|].
    reflexivity. }
  destruct (splice_defined _ _ _ _ _ _ _ _ _ _ Hpp Hk Hf) as [d Hd].
  rewrite <- Hp in Hd. exists d. split; [exact Hd|].
  unfold bind, selectNodeContents, ret.
  destruct (ScoredMatchFacts.wrap_range_cases
              (mk_range (tn_path t) (tn_data t) 0 (len (tn_data t))) p)
    as [Ht | (d' & Hs & Hw)]; cbn [r_node r_start r_end] in *.
  - exfalso. unfold wrap_range, bind, surroundContents in Ht.
    cbn [r_node r_start r_end] in Ht. rewrite Hd in Ht. discriminate.
  - rewrite Hd in Hs. injection Hs as <-. exact Hw.
Qed.

Lemma highlight_first_including_spec (snippet : jsstring) (p : page) :
  forall nodes,
    Forall (fun t => get_node (document p) (tn_path t) = Some (Text (tn_data t))
                     /\ tn_path t <> []) nodes ->
    (Forall (fun t => includes (normalizeText (tn_data t)) snippet = false) nodes /\
     highlight_first_including snippet nodes p = Normal false p) \/
    (exists pre t post d,
        nodes = pre ++ t :: post /\
        Forall (fun t => includes (normalizeText (tn_data t)) snippet = false) pre /\
        includes (normalizeText (tn_data t)) snippet = true /\
        splice (document p) (tn_path t) (surround_text 0 (len (tn_data t))) = Some d /\
        highlight_first_including snippet nodes p
        = Normal true (mk_page d (scrolledToTop p)
                               (scrolledIntoView p ++ [mark_path (tn_path t)])
                               (timers p ++ [mark_path (tn_path t)]))).
Proof.
  induction 1 as [|t nodes [Hg Hne] _ IH]; cbn [highlight_first_including].
  - left. split; [constructor | reflexivity].
  - destruct (includes (normalizeText (tn_data t)) snippet) eqn:E.
    + right. destruct (wrap_node_succeeds p t Hg Hne) as (d & Hd & Hw).
      exists [], t, nodes, d. split; [reflexivity|]. split; [constructor|].
      split; [exact E|]. split; [exact Hd|].
      unfold try_catch.
      match goal with
      | |- match ?c with _ => _ end = _ =>
          change c with (bind (selectNodeContents t) wrap_range p)
      end.
      rewrite Hw. reflexivity.
    + destruct IH as [[Hall Hr] | (pre & t' & post & d & -> & Hpre & Ht & Hd & Hr)].
      * left. split; [constructor; assumption | exact Hr].
      * right. exists (t :: pre), t', post, d. split; [reflexivity|].
        split; [constructor; assumption|]. split; [exact Ht|].
        split; [exact Hd | exact Hr].
Qed.

(** Method 6 looks for the normal form of the first 60 units of the
    surrounding text.  It declines without looking when the surrounding
    text has fewer than 10 units.  Otherwise it wraps the whole of the
    first text node under the body whose normalised text includes the
    snippet, scrolls to it and schedules the removal, and answers
    [true]; it declines, leaving the page as it is, exactly when no text
    node does. *)
Theorem text_search_wraps_first_node_including :
  forall (searchText : jsstring) (p : page) (b : path),
    body (document p) = Some b ->
    (len searchText < 10 -> highlightByTextSearch searchText p = Normal false p) /\
    (10 <= len searchText ->
     (Forall (fun t => includes (normalizeText (tn_data t))
                                (normalizeText (substring searchText 0 60)) = false)
             (treeWalker (document p) b) /\
      highlightByTextSearch searchText p = Normal false p) \/
     (exists pre t post d,
         treeWalker (document p) b = pre ++ t :: post /\
         Forall (fun t => includes (normalizeText (tn_data t))
                                   (normalizeText (substring searchText 0 60)) = false)
                pre /\
         includes (normalizeText (tn_data t))
                  (normalizeText (substring searchText 0 60)) = true /\
         splice (document p) (tn_path t) (surround_text 0 (len (tn_data t))) = Some d /\
         highlightByTextSearch searchText p
         = Normal true (mk_page d (scrolledToTop p)
                                (scrolledIntoView p ++ [mark_path (tn_path t)])
                                (timers p ++ [mark_path (tn_path t)])))).
Proof.
  intros searchText p b Hb. unfold highlightByTextSearch. split.
  - intros Hshort. destruct (Z.ltb_spec (len searchText) 10); [|lia].
    rewrite orb_true_r. reflexivity.
  - intros Hlong. destruct (Z.ltb_spec (len searchText) 10); [lia|].
    assert (Ht : truthy searchText = true).
    { destruct searchText; [unfold len in Hlong; simpl in Hlong; lia | reflexivity]. }
    rewrite Ht. cbn [negb orb]. unfold bind, bodyWalker. rewrite Hb.
    apply highlight_first_including_spec.
    apply Forall_forall. intros t Hin. apply (walker_node_placed _ _ _ Hin).
Qed.

Lemma text_search_wraps_first_node_including_witness :
  (Forall (fun t => includes (normalizeText (tn_data t))
                             (normalizeText (substring (str "The quick brown fox") 0 60))
                    = false)
          (treeWalker (document fox_page) [1%nat]) /\
   highlightByTextSearch (str "The quick brown fox") fox_page = Normal false fox_page) \/
  (exists pre t post d,
      treeWalker (document fox_page) [1%nat] = pre ++ t :: post /\
      Forall (fun t => includes (normalizeText (tn_data t))
                                (normalizeText (substring (str "The quick brown fox") 0 60))
                       = false)
             pre /\
      includes (normalizeText (tn_data t))
               (normalizeText (substring (str "The quick brown fox") 0 60)) = true /\
      splice (document fox_page) (tn_path t) (surround_text 0 (len (tn_data t)))
      = Some d /\
      highlightByTextSearch (str "The quick brown fox") fox_page
      = Normal true (mk_page d (scrolledToTop fox_page)
                             (scrolledIntoView fox_page ++ [mark_path (tn_path t)])
                             (timers fox_page ++ [mark_path (tn_path t)]))).
Proof.
  apply (proj2 (text_search_wraps_first_node_including
                  (str "The quick brown fox") fox_page [1%nat] eq_refl)).
  vm_compute. discriminate.
Defined.

End TextSearchFacts.


(** ** From capture to relocation *)

Module RoundTripFacts.

Lemma text_mismatch_same (s : jsstring) : text_mismatch s s = false.
Proof.
  unfold text_mismatch. destruct (0 <? len s); [|reflexivity].
  cbv zeta. rewrite eqb_refl. apply andb_false_r.
Qed.

Lemma validate_mark_succeeds (mark : path) (p : page) (m : node) (b : path) :
  get_node (document p) mark = Some m ->
  body (document p) = Some b ->
  is_prefix b mark = true ->
  trim (textContent m) <> [] ->
  validate_mark mark p
  = Normal true (mk_page (document p) (scrolledToTop p)
                         (scrolledIntoView p ++ [mark]) (timers p ++ [mark])).
Proof.
  intros Hm Hb Hp Ht. unfold validate_mark, bind, get_document.
  rewrite Hm, Hb, Hp. cbn [negb].
  destruct (Z.ltb_spec 0 (len (trim (textContent m)))) as [_ | Hz]; [reflexivity|].
  exfalso. apply Ht, len_nil_iff. pose proof (len_nonneg (trim (textContent m))). lia.
Qed.

Lemma splice_step (f : node -> option (list node)) (t i c : jsstring)
      (cs : list node) (k k2 : nat) (p2 : path) :
  splice (Element t i c cs) (k :: k2 :: p2) f
  = match nth_error cs k with
    | Some x =>
        match splice x (k2 :: p2) f with
        | Some x' => Some (Element t i c (firstn k cs ++ x' :: skipn (S k) cs))
        | None => None
        end
    | None => None
    end.
Proof. reflexivity. Qed.

Lemma splice_element (f : node -> option (list node)) (q : path) (x x' : node) :
  splice x q f = Some x' ->
  exists t i c cs cs', x = Element t i c cs /\ x' = Element t i c cs'.
Proof.
  intros H. destruct x as [d | t i c cs]; [destruct q; discriminate|].
  destruct q as [|k q]; [discriminate|].
  destruct q as [|k2 q2].
  - simpl in H. destruct (nth_error cs k) as [y|]; [|discriminate].
    destruct (f y); [|discriminate]. injection H as <-.
    eexists t, i, c, cs, _. split; reflexivity.
  - rewrite splice_step in H. destruct (nth_error cs k) as [y|]; [|discriminate].
    destruct (splice y (k2 :: q2) f); [|discriminate]. injection H as <-.
    eexists t, i, c, cs, _. split; reflexivity.
Qed.

Lemma find_body_replace (cs : list node) :
  forall k j t i c ch ch',
    nth_error cs k = Some (Element t i c ch) ->
    find_body (firstn k cs ++ Element t i c ch' :: skipn (S k) cs) j = find_body cs j.
Proof.
  induction cs as [|y cs IH]; intros k j t i c ch ch' Hk.
  - destruct k; discriminate.
  - destruct k as [|k]; simpl in Hk.
    + injection Hk as ->. reflexivity.
    + cbn [firstn skipn app].
      destruct y as [d | t0 i0 c0 ch0]; cbn [find_body].
      * apply (IH k (S j) t i c ch ch' Hk).
      * destruct (JsString.eqb (toLowerCase t0) (str "body")); [reflexivity|].
        apply (IH k (S j) t i c ch ch' Hk).
Qed.

(** A change below a child of the root element leaves the body where it
    is. *)
Lemma splice_body (f : node -> option (list node)) (doc d : node) (k : nat) (q : path) :
  q <> [] -> splice doc (k :: q) f = Some d -> body d = body doc.
Proof.
  intros Hq Hs. destruct doc as [x | t i c cs]; [discriminate|].
  destruct q as [|k2 q2]; [congruence|]. rewrite splice_step in Hs.
  destruct (nth_error cs k) as [x|] eqn:Ek; [|discriminate].
  destruct (splice x (k2 :: q2) f) as [x'|] eqn:Ex; [|discriminate].
  injection Hs as <-.
  destruct (splice_element _ _ _ _ Ex) as (t' & i' & c' & ch & ch' & -> & ->).
  unfold body. cbn [childNodes]. apply (find_body_replace _ _ _ _ _ _ _ _ Ek).
Qed.

Lemma find_body_singleton (cs : list node) :
  forall j b, find_body cs j = Some b -> exists k, b = [k].
Proof.
  induction cs as [|y cs IH]; intros j b H; simpl in H; [discriminate|].
  destruct y as [d | t i c ch]; [apply (IH _ _ H)|].
  destruct (JsString.eqb (toLowerCase t) (str "body")); [|apply (IH _ _ H)].
  injection H as <-. eauto.
Qed.

Lemma is_prefix_app (b e : path) (j : nat) :
  is_prefix b e = true -> is_prefix b (e ++ [j]) = true.
Proof.
  unfold is_prefix. intros H. apply andb_true_iff in H as [Hl He].
  apply Nat.leb_le in Hl.
  destruct (list_eq_dec Nat.eq_dec b (firstn (List.length b) e)) as [Heq|];
    [|discriminate].
  apply andb_true_iff. split.
  - apply Nat.leb_le. rewrite length_app. lia.
  - rewrite firstn_app. replace (List.length b - List.length e)%nat with 0%nat by lia.
    cbn [firstn]. rewrite app_nil_r.
    destruct (list_eq_dec Nat.eq_dec b (firstn (List.length b) e));
      [reflexivity | contradiction].
Qed.

Lemma is_prefix_cons (k : nat) (e : path) :
  is_prefix [k] e = true -> exists e', e = k :: e'.
Proof.
  unfold is_prefix. intros H. apply andb_true_iff in H as [_ He].
  destruct e as [|j e]; cbn [firstn List.length] in He.
  - destruct (list_eq_dec Nat.eq_dec [k] []); discriminate.
  - destruct (list_eq_dec Nat.eq_dec [k] [j]) as [Heq|]; [|discriminate].
    injection Heq as ->. eauto.
Qed.

(** When the address leads to an element of the body and the offset and
    the length lie inside the text node found there, whose slice is the
    recorded text, method 1 wraps that slice and answers [true]. *)
Lemma method1_succeeds (si : Sel.t) (p : page) (x : xpath) (e : path) (o : Z)
      (t : text_node) (b : path) :
  Sel.xpath si = Some x ->
  getElementByXPath (document p) x = Some e ->
  Sel.offset si = Some o ->
  findTextNode (document p) e o = Some t ->
  0 <= o -> 0 < Sel.length si -> o + Sel.length si <= len (tn_data t) ->
  trim (substring (tn_data t) o (o + Sel.length si)) <> [] ->
  text_mismatch (substring (tn_data t) o (o + Sel.length si)) (Sel.originalText si)
  = false ->
  body (document p) = Some b ->
  is_prefix b (parent_path (tn_path t)) = true ->
  exists d,
    splice (document p) (tn_path t) (surround_text o (o + Sel.length si)) = Some d /\
    get_node d (mark_path (tn_path t))
    = Some (highlightMark [Text (substring (tn_data t) o (o + Sel.length si))]) /\
    tryXPathHighlight si p
    = Normal true (mk_page d (scrolledToTop p)
                           (scrolledIntoView p ++ [mark_path (tn_path t)])
                           (timers p ++ [mark_path (tn_path t)])).
Proof.
  intros Hx Hel Ho Hf Ho0 HL Hend Hblank Hmis Hb Hp.
  set (L := Sel.length si) in *. set (data := tn_data t) in *.
  pose proof (ExhaustionFacts.findTextNode_sound _ _ _ _ Hf) as Hg. fold data in Hg.
  assert (Hne : tn_path t <> []).
  { intros Hnil. rewrite Hnil in Hg. simpl in Hg. injection Hg as Hdoc.
    unfold body in Hb. rewrite Hdoc in Hb. discriminate. }
  destruct (exists_last Hne) as (pp & k & Hpath). rewrite Hpath in *.
  destruct (path_last_split pp k) as [Hparent Hmark]. rewrite Hparent in Hp.
  rewrite Hmark.
  destruct (TextSearchFacts.get_node_last _ _ _ _ Hg) as (tg & i & c & cs & Hpp & Hk).
  assert (Hsur : surround_text o (o + L) (Text data)
                 = Some [Text (substring data 0 (Z.min o (o + L)));
                         highlightMark
                           (if Z.min o (o + L) <? o + L
                            then [Text (substring data (Z.min o (o + L)) (o + L))]
                            else []);
                         Text (substring_from data (o + L))]).
  { unfold surround_text.
    destruct (Z.ltb_spec o 0); [lia|].
    destruct (Z.ltb_spec (len data) o); [lia|].
    destruct (Z.ltb_spec (o + L) 0); [lia|].
    destruct (Z.ltb_spec (len data) (o + L)); [lia|].
    reflexivity. }
  destruct (splice_defined _ _ _ _ _ _ _ _ _ _ Hpp Hk Hsur) as [d Hd].
  assert (HoL : o < o + L) by lia.
  pose proof (ExhaustionFacts.splice_mark _ _ _ _ _ _ Hg HoL Hd) as Hm.
  rewrite Hmark in Hm.
  exists d. split; [exact Hd|]. split; [exact Hm|].
  assert (Hbd : body d = Some b).
  { destruct (find_body_singleton _ _ _ Hb) as [kb ->].
    destruct (is_prefix_cons _ _ Hp) as [pp' ->].
    rewrite <- Hb.
    apply (splice_body (surround_text o (o + L)) _ _ kb (pp' ++ [k])); [|exact Hd].
    intros Hnil. apply app_eq_nil in Hnil as [_ Hnil]. discriminate. }
  unfold tryXPathHighlight, try_catch, tryXPathHighlight_body, bind at 1, get_document.
  rewrite Hx, Hel, Ho, Hf. cbv zeta. fold L data.
  replace (Z.min o (len data)) with o by lia.
  replace (Z.min (o + L) (len data)) with (o + L) by lia.
  destruct (Z.leb_spec (o + L) o); [lia|].
  destruct (Z.ltb_spec (len data) (o + L)); [lia|]. cbn [orb].
  rewrite (bind_Normal _ _ _ _ _ _ _ (setRange_Normal t o (o + L) p Ho0 HoL Hend)).
  cbv beta. unfold range_toString. cbn [r_data r_start r_end]. fold data.
  destruct (Z.ltb_spec 0 (len (trim (substring data o (o + L))))) as [_ | Hz].
  2:{ exfalso. apply Hblank, len_nil_iff.
      pose proof (len_nonneg (trim (substring data o (o + L)))). lia. }
  cbn [negb]. rewrite Hmis.
  unfold bind, surroundContents. cbn [r_node r_start r_end]. rewrite Hpath, Hd, Hmark.
  rewrite (validate_mark_succeeds (pp ++ [S k]) (with_document p d)
             (highlightMark [Text (substring data o (o + L))]) b).
  - reflexivity.
  - exact Hm.
  - exact Hbd.
  - apply is_prefix_app, Hp.
  - cbn [textContent highlightMark flat_map]. rewrite app_nil_r. exact Hblank.
Qed.

(** The first text node a walker hands out below an element whose first
    child is a text node is that child. *)
Lemma findTextNode_first_child (doc : node) (e : path) (data : jsstring) (o : Z) :
  get_node doc (e ++ [0%nat]) = Some (Text data) ->
  o <= len data ->
  exists t, findTextNode doc e o = Some t /\
            tn_path t = e ++ [0%nat] /\ tn_data t = data.
Proof.
  intros Hg Ho.
  destruct (TextSearchFacts.get_node_last _ _ _ _ Hg) as (tg & i & c & cs & Hpp & Hk).
  destruct cs as [|y cs]; [discriminate|]. simpl in Hk. injection Hk as ->.
  unfold findTextNode, treeWalker. rewrite Hpp.
  rewrite ExhaustionFacts.text_nodes_element.
  cbn [children_text_nodes text_nodes map app findTextNode_loop under rooted
       tn_data tn_path tn_parentTag tn_parentClass].
  destruct (Z.leb_spec o (0 + len data)); [|lia].
  eexists. split; [reflexivity|]. split; reflexivity.
Qed.



End RoundTripFacts.


(** ** Methods 3 and 4 *)

Module CrossElementFacts.

(** Wrapping a slice of a text node of the document cannot fail. *)
Lemma wrap_slice_succeeds (p : page) (t : text_node) (s e : Z) :
  get_node (document p) (tn_path t) = Some (Text (tn_data t)) ->
  tn_path t <> [] ->
  0 <= s -> s <= e -> e <= len (tn_data t) ->
  exists d,
    splice (document p) (tn_path t) (surround_text s e) = Some d /\
    bind (setRange t s e) wrap_range p
    = Normal true (mk_page d (scrolledToTop p)
                           (scrolledIntoView p ++ [mark_path (tn_path t)])
                           (timers p ++ [mark_path (tn_path t)])).
Proof.
  intros Hg Hne Hs Hse He.
  destruct (exists_last Hne) as (pp & k & Hp). rewrite Hp in Hg.
  destruct (TextSearchFacts.get_node_last _ _ _ _ Hg) as (tg & i & c & cs & Hpp & Hk).
  assert (Hf : surround_text s e (Text (tn_data t))
               = Some [Text (substring (tn_data t) 0 (Z.min s e));
                       highlightMark
                         (if Z.min s e <? e
                          then [Text (substring (tn_data t) (Z.min s e) e)]
                          else []);
                       Text (substring_from (tn_data t) e)]).
  { unfold surround_text.
    destruct (Z.ltb_spec s 0); [lia|].
    destruct (Z.ltb_spec (len (tn_data t)) s); [lia|].
    destruct (Z.ltb_spec e 0); [lia|].
    destruct (Z.ltb_spec (len (tn_data t)) e); [lia|].
    reflexivity. }
  destruct (splice_defined _ _ _ _ _ _ _ _ _ _ Hpp Hk Hf) as [d Hd].
  rewrite <- Hp in Hd. exists d. split; [exact Hd|].
  destruct (setRange_cases t s e p) as [Et | Er].
  - exfalso. unfold setRange in Et.
    destruct (Z.ltb_spec s 0); [lia|].
    destruct (Z.ltb_spec (len (tn_data t)) s); [lia|].
    destruct (Z.ltb_spec e 0); [lia|].
    destruct (Z.ltb_spec (len (tn_data t)) e); [lia|].
    discriminate.
  - rewrite (bind_Normal _ _ _ _ _ _ _ Er).
    replace (Z.min s e) with s by lia.
    destruct (ScoredMatchFacts.wrap_range_cases
                (mk_range (tn_path t) (tn_data t) s e) p)
      as [Ht | (d' & Hs' & Hw)]; cbn [r_node r_start r_end] in *.
    + exfalso. unfold wrap_range, bind, surroundContents in Ht.
      cbn [r_node r_start r_end] in Ht. rewrite Hd in Ht. discriminate.
    + rewrite Hd in Hs'. injection Hs' as <-. exact Hw.
Qed.

Lemma findActualIndex_loop_from (rest : jsstring) :
  forall i count k, i <= findActualIndex_loop rest i count k.
Proof.
  induction rest as [|c rest IH]; intros i count k; cbn [findActualIndex_loop].
  - lia.
  - destruct (count <? k); [|lia]. cbv zeta.
    match goal with
    | |- _ <= findActualIndex_loop rest (i + 1) ?n k =>
        specialize (IH (i + 1) n k)
    end.
    lia.
Qed.

Lemma findActualIndex_inside (original normalizedSearch : jsstring) (k : Z) :
  findActualIndex original normalizedSearch k = -1 \/
  0 <= findActualIndex original normalizedSearch k < len original.
Proof.
  unfold findActualIndex. cbv zeta.
  pose proof (findActualIndex_loop_from original 0 0 k).
  destruct (Z.ltb_spec (findActualIndex_loop original 0 0 k) (len original));
    [right; lia | left; reflexivity].
Qed.

Lemma tryPrefixMatch_loop_spec (searchText : jsstring) (highlightLength : Z)
      (p : page) :
  0 <= highlightLength ->
  forall nodes,
    Forall (fun t => get_node (document p) (tn_path t) = Some (Text (tn_data t))
                     /\ tn_path t <> []) nodes ->
    (Forall (fun t => prefix_place searchText t = None) nodes /\
     tryPrefixMatch_loop searchText highlightLength nodes p = Normal false p) \/
    (exists pre t post a d,
        nodes = pre ++ t :: post /\
        Forall (fun t => prefix_place searchText t = None) pre /\
        prefix_place searchText t = Some a /\
        0 <= a < len (tn_data t) /\
        splice (document p) (tn_path t)
               (surround_text a (Z.min (a + highlightLength) (len (tn_data t))))
        = Some d /\
        tryPrefixMatch_loop searchText highlightLength nodes p
        = Normal true (mk_page d (scrolledToTop p)
                               (scrolledIntoView p ++ [mark_path (tn_path t)])
                               (timers p ++ [mark_path (tn_path t)]))).
Proof.
  intros Hlen. induction 1 as [|t nodes [Hg Hne] _ IH]; cbn [tryPrefixMatch_loop].
  - left. split; [constructor | reflexivity].
  - assert (Hskip : prefix_place searchText t = None ->
                    (Forall (fun t => prefix_place searchText t = None) (t :: nodes) /\
                     tryPrefixMatch_loop searchText highlightLength nodes p
                     = Normal false p) \/
                    (exists pre t' post a d,
                        t :: nodes = pre ++ t' :: post /\
                        Forall (fun t => prefix_place searchText t = None) pre /\
                        prefix_place searchText t' = Some a /\
                        0 <= a < len (tn_data t') /\
                        splice (document p) (tn_path t')
                               (surround_text a (Z.min (a + highlightLength)
                                                       (len (tn_data t'))))
                        = Some d /\
                        tryPrefixMatch_loop searchText highlightLength nodes p
                        = Normal true
                            (mk_page d (scrolledToTop p)
                                     (scrolledIntoView p ++ [mark_path (tn_path t')])
                                     (timers p ++ [mark_path (tn_path t')])))).
    { intros Hnone.
      destruct IH as [[Hall Hr] | (pre & t' & post & a & d & -> & Hpre & Ht & Ha & Hd & Hr)].
      - left. split; [constructor; assumption | exact Hr].
      - right. exists (t :: pre), t', post, a, d. split; [reflexivity|].
        split; [constructor; assumption|]. repeat (split; [assumption|]). exact Hr. }
    unfold prefix_place in Hskip. cbv zeta in Hskip.
    destruct (indexOf (normalizeText (tn_data t)) searchText =? -1) eqn:Ei;
      [apply Hskip; reflexivity|].
    destruct (Z.eqb_spec
                (findActualIndex (tn_data t) searchText
                   (indexOf (normalizeText (tn_data t)) searchText)) (-1))
      as [Ea | Ea]; [apply Hskip; reflexivity|].
    clear Hskip. right.
    set (a := findActualIndex (tn_data t) searchText
                (indexOf (normalizeText (tn_data t)) searchText)) in *.
    assert (Ha : 0 <= a < len (tn_data t)).
    { destruct (findActualIndex_inside (tn_data t) searchText
                  (indexOf (normalizeText (tn_data t)) searchText)) as [H | H];
        [contradiction | exact H]. }
    destruct (wrap_slice_succeeds p t a
                (Z.min (a + highlightLength) (len (tn_data t))) Hg Hne)
      as (d & Hd & Hw); try lia.
    exists [], t, nodes, a, d. split; [reflexivity|]. split; [constructor|].
    split.
    { unfold prefix_place. cbv zeta. rewrite Ei. fold a.
      destruct (Z.eqb_spec a (-1)); [contradiction | reflexivity]. }
    split; [exact Ha|]. split; [exact Hd|].
    unfold try_catch at 1.
    match goal with
    | |- match ?c with _ => _ end = _ =>
        change c with (bind (setRange t a (Z.min (a + highlightLength)
                                                  (len (tn_data t))))
                            wrap_range p)
    end.
    rewrite Hw. reflexivity.
Qed.

(** [tryPrefixMatch] wraps in the first text node under the body in
    whose normalised text the search text occurs and for which
    [findActualIndex] answers an index: the range starts at that index
    and extends over [highlightLength] units or to the end of the node.
    Setting that range and wrapping it cannot throw, so the whole-node
    fallback is never taken; and the method declines, leaving the page
    as it is, exactly when there is no such node. *)
Theorem prefix_match_wraps_first_place :
  forall (searchText : jsstring) (highlightLength : Z) (p : page) (b : path),
    body (document p) = Some b ->
    0 <= highlightLength ->
    (Forall (fun t => prefix_place searchText t = None) (treeWalker (document p) b) /\
     tryPrefixMatch searchText highlightLength p = Normal false p) \/
    (exists pre t post a d,
        treeWalker (document p) b = pre ++ t :: post /\
        Forall (fun t => prefix_place searchText t = None) pre /\
        prefix_place searchText t = Some a /\
        0 <= a < len (tn_data t) /\
        splice (document p) (tn_path t)
               (surround_text a (Z.min (a + highlightLength) (len (tn_data t))))
        = Some d /\
        tryPrefixMatch searchText highlightLength p
        = Normal true (mk_page d (scrolledToTop p)
                               (scrolledIntoView p ++ [mark_path (tn_path t)])
                               (timers p ++ [mark_path (tn_path t)]))).
Proof.
  intros searchText highlightLength p b Hb Hlen.
  unfold tryPrefixMatch, bind, bodyWalker. rewrite Hb.
  apply tryPrefixMatch_loop_spec; [exact Hlen|].
  apply Forall_forall. intros t Hin.
  apply (TextSearchFacts.walker_node_placed _ _ _ Hin).
Qed.

Lemma prefix_match_wraps_first_place_witness :
  (Forall (fun t => prefix_place (str "quick") t = None)
          (treeWalker (document fox_page) [1%nat]) /\
   tryPrefixMatch (str "quick") 5 fox_page = Normal false fox_page) \/
  (exists pre t post a d,
      treeWalker (document fox_page) [1%nat] = pre ++ t :: post /\
      Forall (fun t => prefix_place (str "quick") t = None) pre /\
      prefix_place (str "quick") t = Some a /\
      0 <= a < len (tn_data t) /\
      splice (document fox_page) (tn_path t)
             (surround_text a (Z.min (a + 5) (len (tn_data t))))
      = Some d /\
      tryPrefixMatch (str "quick") 5 fox_page
      = Normal true (mk_page d (scrolledToTop fox_page)
                             (scrolledIntoView fox_page ++ [mark_path (tn_path t)])
                             (timers fox_page ++ [mark_path (tn_path t)]))).
Proof.
  apply (prefix_match_wraps_first_place (str "quick") 5 fox_page [1%nat]).
  - reflexivity.
  - lia.
Defined.

Lemma windowed_loop_spec (searchText : jsstring) (size : nat) (p : page) :
  forall allNodes,
    Forall (fun t => get_node (document p) (tn_path t) = Some (Text (tn_data t))
                     /\ tn_path t <> []) allNodes ->
    (Forall (fun w => includes (snd w) searchText = false) (windows size allNodes) /\
     highlightByWindowedSearch_loop searchText size allNodes p = Normal false p) \/
    (exists pre t w post d,
        windows size allNodes = pre ++ (t, w) :: post /\
        Forall (fun w => includes (snd w) searchText = false) pre /\
        includes w searchText = true /\
        splice (document p) (tn_path t) (surround_text 0 (len (tn_data t))) = Some d /\
        highlightByWindowedSearch_loop searchText size allNodes p
        = Normal true (mk_page d (scrolledToTop p)
                               (scrolledIntoView p ++ [mark_path (tn_path t)])
                               (timers p ++ [mark_path (tn_path t)]))).
Proof.
  induction 1 as [|t nodes [Hg Hne] _ IH];
    cbn [highlightByWindowedSearch_loop windows].
  - left. split; [constructor | reflexivity].
  - cbv zeta.
    destruct (includes (normalizeText (window_text (firstn size (t :: nodes))))
                       searchText) eqn:E.
    + right. destruct (TextSearchFacts.wrap_node_succeeds p t Hg Hne) as (d & Hd & Hw).
      exists [], t, (normalizeText (window_text (firstn size (t :: nodes)))),
        (windows size nodes), d.
      split; [reflexivity|]. split; [constructor|].
      split; [exact E|]. split; [exact Hd|].
      unfold try_catch.
      match goal with
      | |- match ?c with _ => _ end = _ =>
          change c with (bind (selectNodeContents t) wrap_range p)
      end.
      rewrite Hw. reflexivity.
    + destruct IH as [[Hall Hr] | (pre & t' & w & post & d & Hw & Hpre & Ht & Hd & Hr)].
      * left. split; [constructor; [exact E | exact Hall] | exact Hr].
      * right. exists ((t, normalizeText (window_text (firstn size (t :: nodes)))) :: pre),
          t', w, post, d.
        split; [rewrite Hw; reflexivity|].
        split; [constructor; [exact E | exact Hpre]|].
        split; [exact Ht|]. split; [exact Hd | exact Hr].
Qed.

(** Method 4 looks for the normal form of the first 20 units of the
    recorded text, and declines without looking when that has fewer than
    10 units.  It goes through the text nodes under the body whose text
    is not blank; the window of a node is the text of that node and of
    up to 14 that follow, each followed by a space.  The method wraps
    the whole of the first node whose normalised window includes the
    search text: the node at the start of the window, whether or not the
    text lies in that node.  It declines, leaving the page as it is,
    exactly when no window includes the search text. *)
Theorem windowed_search_wraps_window_start :
  forall (originalText : jsstring) (p : page) (b : path),
    body (document p) = Some b ->
    (len (normalizeText (substring originalText 0 20)) < 10 ->
     highlightByWindowedSearch originalText p = Normal false p) /\
    (10 <= len (normalizeText (substring originalText 0 20)) ->
     (Forall (fun w => includes (snd w) (normalizeText (substring originalText 0 20))
                       = false)
             (windows 15 (filter (fun n => 0 <? len (trim (tn_data n)))
                                 (treeWalker (document p) b))) /\
      highlightByWindowedSearch originalText p = Normal false p) \/
     (exists pre t w post d,
         windows 15 (filter (fun n => 0 <? len (trim (tn_data n)))
                            (treeWalker (document p) b))
         = pre ++ (t, w) :: post /\
         Forall (fun w => includes (snd w) (normalizeText (substring originalText 0 20))
                          = false) pre /\
         includes w (normalizeText (substring originalText 0 20)) = true /\
         splice (document p) (tn_path t) (surround_text 0 (len (tn_data t))) = Some d /\
         highlightByWindowedSearch originalText p
         = Normal true (mk_page d (scrolledToTop p)
                                (scrolledIntoView p ++ [mark_path (tn_path t)])
                                (timers p ++ [mark_path (tn_path t)])))).
Proof.
  intros originalText p b Hb. unfold highlightByWindowedSearch. split.
  - intros Hshort.
    destruct (Z.ltb_spec (len (normalizeText (substring originalText 0 20))) 10);
      [reflexivity | lia].
  - intros Hlong.
    destruct (Z.ltb_spec (len (normalizeText (substring originalText 0 20))) 10);
      [lia|].
    unfold bind, bodyWalker. rewrite Hb.
    apply windowed_loop_spec.
    apply Forall_forall. intros t Hin. apply filter_In in Hin as [Hin _].
    apply (TextSearchFacts.walker_node_placed _ _ _ Hin).
Qed.

Lemma windowed_search_wraps_window_start_witness :
  (Forall (fun w => includes (snd w)
                             (normalizeText (substring (str "The quick brown fox") 0 20))
                    = false)
          (windows 15 (filter (fun n => 0 <? len (trim (tn_data n)))
                              (treeWalker (document fox_page) [1%nat]))) /\
   highlightByWindowedSearch (str "The quick brown fox") fox_page
   = Normal false fox_page) \/
  (exists pre t w post d,
      windows 15 (filter (fun n => 0 <? len (trim (tn_data n)))
                         (treeWalker (document fox_page) [1%nat]))
      = pre ++ (t, w) :: post /\
      Forall (fun w => includes (snd w)
                                (normalizeText (substring (str "The quick brown fox") 0 20))
                       = false) pre /\
      includes w (normalizeText (substring (str "The quick brown fox") 0 20)) = true /\
      splice (document fox_page) (tn_path t) (surround_text 0 (len (tn_data t)))
      = Some d /\
      highlightByWindowedSearch (str "The quick brown fox") fox_page
      = Normal true (mk_page d (scrolledToTop fox_page)
                             (scrolledIntoView fox_page ++ [mark_path (tn_path t)])
                             (timers fox_page ++ [mark_path (tn_path t)]))).
Proof.
  apply (proj2 (windowed_search_wraps_window_start
                  (str "The quick brown fox") fox_page [1%nat] eq_refl)).
  vm_compute. discriminate.
Defined.

End CrossElementFacts.


(** ** Sample runs of the earlier properties *)

Module FurtherScenarios.



End FurtherScenarios.


(** ** The page after the highlight has gone *)

Module TraceFacts.

Lemma firstn_skipn_middle (A : Type) (l : list A) (k : nat) (x : A) :
  (k < List.length l)%nat ->
  firstn k (firstn k l ++ x :: skipn (S k) l) = firstn k l /\
  skipn (S k) (firstn k l ++ x :: skipn (S k) l) = skipn (S k) l.
Proof.
  intros Hk.
  assert (Hlen : List.length (firstn k l) = k)
    by (rewrite length_firstn; lia).
  split.
  - rewrite firstn_app, Hlen, Nat.sub_diag. cbn [firstn]. rewrite app_nil_r.
    rewrite <- Hlen at 1. apply firstn_all.
  - rewrite skipn_app, Hlen.
    rewrite (skipn_all2 (firstn k l)) by lia.
    replace (S k - k)%nat with 1%nat by lia. reflexivity.
Qed.

(** A splice rewrites the parent of the node it is applied to. *)
Lemma splice_update (f : node -> option (list node)) (pp : path) :
  forall n n' k,
    splice n (pp ++ [k]) f = Some n' ->
    exists t i c cs x ys,
      get_node n pp = Some (Element t i c cs) /\
      nth_error cs k = Some x /\
      f x = Some ys /\
      update_node n pp
        (fun _ => Element t i c (firstn k cs ++ ys ++ skipn (S k) cs)) = Some n'.
Proof.
  induction pp as [|j pp IH]; intros n n' k H.
  - destruct n as [d | t i c cs]; [discriminate|]. simpl in H.
    destruct (nth_error cs k) as [x|] eqn:Ex; [|discriminate].
    destruct (f x) as [ys|] eqn:Ef; [|discriminate]. injection H as <-.
    exists t, i, c, cs, x, ys. repeat split; assumption.
  - destruct n as [d | t i c cs]; [discriminate|].
    destruct (pp ++ [k]) as [|k2 p2] eqn:Epp; [destruct pp; discriminate|].
    cbn [app] in H. rewrite Epp, RoundTripFacts.splice_step in H.
    destruct (nth_error cs j) as [y|] eqn:Ey; [|discriminate].
    destruct (splice y (k2 :: p2) f) as [y'|] eqn:Es; [|discriminate].
    injection H as <-. rewrite <- Epp in Es.
    destruct (IH _ _ _ Es) as (t' & i' & c' & cs' & x & ys & Hg & Hn & Hf & Hu).
    exists t', i', c', cs', x, ys. cbn [get_node childNodes update_node].
    rewrite Ey, Hu. repeat split; assumption.
Qed.

Lemma update_node_twice (g h : node -> node) (pp : path) :
  forall n n1 n2,
    update_node n pp g = Some n1 ->
    update_node n1 pp h = Some n2 ->
    update_node n pp (fun x => h (g x)) = Some n2.
Proof.
  induction pp as [|k pp IH]; intros n n1 n2 H1 H2.
  - simpl in *. injection H1 as <-. exact H2.
  - destruct n as [d | t i c cs]; [discriminate|]. cbn [update_node] in *.
    destruct (nth_error cs k) as [x|] eqn:Ex; [|discriminate].
    destruct (update_node x pp g) as [x1|] eqn:E1; [|discriminate].
    injection H1 as <-. cbn [update_node] in H2.
    assert (Hk : (k < List.length cs)%nat) by (apply nth_error_Some; congruence).
    rewrite (nth_error_middle _ cs k x1 _ Hk) in H2.
    destruct (update_node x1 pp h) as [x2|] eqn:E2; [|discriminate].
    injection H2 as <-.
    rewrite (IH _ _ _ E1 E2).
    destruct (firstn_skipn_middle _ cs k x1 Hk) as [Hfirst Hskip].
    change (Some (Element t i c (firstn k cs ++ x2 :: skipn (S k) cs))
            = Some (Element t i c
                      (firstn k (firstn k cs ++ x1 :: skipn (S k) cs)
                       ++ x2 :: skipn (S k) (firstn k cs ++ x1 :: skipn (S k) cs)))).
    rewrite Hfirst, Hskip. reflexivity.
Qed.

Lemma update_node_same (g : node -> node) (pp : path) :
  forall n x, get_node n pp = Some x -> g x = x -> update_node n pp g = Some n.
Proof.
  induction pp as [|k pp IH]; intros n x Hg Hx.
  - simpl in *. injection Hg as ->. rewrite Hx. reflexivity.
  - destruct n as [d | t i c cs]; simpl in Hg; [destruct k; discriminate|].
    cbn [update_node].
    destruct (nth_error cs k) as [y|] eqn:Ey; [|discriminate].
    rewrite (IH y x Hg Hx). rewrite <- (nth_error_split _ cs k y Ey). reflexivity.
Qed.

(** Once its timer has fired, a highlight leaves no trace: when the
    parent of the wrapped text node was in normal form (no empty text
    node and no two text nodes side by side, there and below), the
    document after the removal of the mark is the document from before
    the wrap, node for node. *)
Theorem highlight_leaves_no_trace :
  forall (r : range) (p p1 : page) (parent : node),
    wrap_range r p = Normal true p1 ->
    get_node (document p) (parent_path (r_node r)) = Some parent ->
    normalize parent = parent ->
    document (timer_fires (mark_path (r_node r)) p1) = document p.
Proof.
  intros r p p1 parent Hw Hparent Hnormal.
  destruct (ScoredMatchFacts.wrap_range_cases r p) as [Ht | (d1 & Es & Hw')];
    [rewrite Ht in Hw; discriminate|].
  rewrite Hw' in Hw. injection Hw as <-. cbn [timer_fires document].
  destruct (splice_inv _ _ _ _ Es)
    as (pp & k & t & i & c & cs & x & ys & Hp & Hg & Hn & Hf & Hg1).
  destruct (splice_update (surround_text (r_start r) (r_end r)) pp (document p) d1 k) as
      (t0 & i0 & c0 & cs0 & x0 & ys0 & Hg0 & Hn0 & Hf0 & Hu1);
    [rewrite <- Hp; exact Es|].
  rewrite Hg in Hg0. injection Hg0 as <- <- <- <-.
  rewrite Hn in Hn0. injection Hn0 as <-.
  rewrite Hf in Hf0. injection Hf0 as <-.
  destruct (LifecycleFacts.surround_text_inv _ _ _ _ Hf) as (d & content & -> & -> & Hd).
  rewrite Hp in *. destruct (path_last_split pp k) as [Hpar Hm].
  rewrite Hm. rewrite Hpar in Hparent.
  rewrite Hg in Hparent. injection Hparent as <-.
  set (pre := substring d 0 (Z.min (r_start r) (r_end r))) in *.
  set (post := substring_from d (r_end r)) in *.
  set (L := firstn k cs) in *. set (R := skipn (S k) cs) in *.
  assert (HL : List.length L = k).
  { unfold L. rewrite length_firstn. apply Nat.min_l.
    apply Nat.lt_le_incl, nth_error_Some. congruence. }
  assert (Hcs : cs = L ++ Text d :: R) by (apply nth_error_split, Hn).
  simpl app in Hg1, Hu1.
  destruct (LifecycleFacts.around_mark _ L (Text pre) (highlightMark content) (Text post) R)
    as (Hnth & Hfirst & Hskip).
  rewrite HL in Hnth, Hfirst, Hskip.
  destruct (splice_defined replace_by_text pp d1 (S k) t i c _ _ _ Hg1 Hnth eq_refl)
    as [d2 Hd2].
  destruct (splice_update _ pp d1 d2 (S k) Hd2)
    as (t' & i' & c' & cs' & x' & ys' & Hg' & Hn' & Hf' & Hu2).
  rewrite Hg1 in Hg'. injection Hg' as <- <- <- <-.
  rewrite Hnth in Hn'. injection Hn' as <-.
  injection Hf' as <-.
  rewrite Hfirst, Hskip in Hu2. rewrite <- app_assoc in Hu2. simpl app in Hu2.
  destruct (splice_inv _ _ _ _ Hd2)
    as (pp2 & k2 & t2 & i2 & c2 & cs2 & x2 & ys2 & Hp2 & Hg2a & _ & _ & Hg2).
  apply app_inj_tail in Hp2 as [<- <-].
  destruct (update_node_spec normalize pp d2 _ Hg2) as (d3 & Hu3 & _).
  assert (Hfire : remove_mark (pp ++ [S k]) d1 = d3).
  { unfold remove_mark.
    destruct (path_last_split pp (S k)) as [Hpar2 _].
    destruct (pp ++ [S k]) as [|a q] eqn:Epq.
    - destruct pp; discriminate.
    - rewrite Hd2, Hpar2, Hu3. reflexivity. }
  rewrite Hfire.
  pose proof (update_node_twice _ _ _ _ _ _ Hu1 Hu2) as H12.
  pose proof (update_node_twice _ _ _ _ _ _ H12 Hu3) as H123.
  cbv beta in H123.
  rewrite (update_node_same _ pp (document p) (Element t i c cs)) in H123.
  - injection H123 as <-. reflexivity.
  - exact Hg.
  - cbv beta. rewrite <- Hnormal. cbn [normalize]. f_equal.
    rewrite Hcs at 1. rewrite !map_app. apply merge_text_app_tail. simpl map.
    rewrite 2 merge_text_join. rewrite <- app_assoc.
    rewrite Hd. reflexivity.
Qed.

Lemma highlight_leaves_no_trace_witness :
  document (timer_fires (mark_path (r_node fox_range))
                        (page_of (wrap_range fox_range fox_page)))
  = document fox_page.
Proof.
  apply (highlight_leaves_no_trace fox_range fox_page
           (page_of (wrap_range fox_range fox_page))
           (paragraph "The quick brown fox")).
  - vm_compute. reflexivity.
  - vm_compute. reflexivity.
  - vm_compute. reflexivity.
Defined.

End TraceFacts.
